(** * hw-scraper: a shallow embedding of the scraper toolkit and its checked properties

    The development follows the layout of the Python package [hw_scraper]:
    one module per source file, holding the translated definitions, followed
    by the properties proved about them.

    Conventions of the embedding.
    - Python [str] values are [string]s of 8-bit characters: the model covers
      ASCII text, which is what URLs, markup keywords and file extensions are.
    - Python [int] is [Z]; [float] timestamps and durations are idealised as
      exact rationals [Q] (only comparisons, sums and differences are used).
    - A [dict] is a [gmap]; [dict.get(k, d)] is [default d (m !! k)].
    - The wall clock, the network and the file system are explicit arguments:
      every call that reads [time.time()] takes the reading as a parameter,
      every HTTP request takes the server's answer from an oracle. *)

From Stdlib Require Import Ascii String ZArith QArith Qpower Lqa Lia.
From stdpp Require Import base option list gmap strings pretty sorting.

Local Open Scope string_scope.
Local Open Scope Z_scope.

(* ===================================================================== *)
(** * Python string primitives *)
(* ===================================================================== *)

Module PyStr.

Definition chr (n : nat) : ascii := Ascii.ascii_of_nat n.
Definition ord (c : ascii) : nat := Ascii.nat_of_ascii c.

Definition is_upper (c : ascii) : bool := (65 <=? ord c)%nat && (ord c <=? 90)%nat.
Definition is_lower (c : ascii) : bool := (97 <=? ord c)%nat && (ord c <=? 122)%nat.
Definition is_alpha (c : ascii) : bool := is_upper c || is_lower c.
Definition is_digit (c : ascii) : bool := (48 <=? ord c)%nat && (ord c <=? 57)%nat.

(** [c.lower()] on one ASCII character. *)
Definition lower_char (c : ascii) : ascii :=
  if is_upper c then chr (ord c + 32) else c.

(** [s.lower()] *)
Fixpoint lower (s : string) : string :=
  match s with
  | EmptyString => EmptyString
  | String c r => String (lower_char c) (lower r)
  end.

(** [len(s)] *)
Definition len (s : string) : Z := Z.of_nat (String.length s).

(** [s.startswith(p)] *)
Definition startswith (s p : string) : bool := String.prefix p s.

(** [s.endswith(suf)]: [s] is [suf], or the tail of [s] ends with [suf]. *)
Fixpoint endswith (s suf : string) : bool :=
  String.eqb s suf
  || match s with
     | EmptyString => false
     | String _ r => endswith r suf
     end.

(** [sub in s] *)
Fixpoint contains (sub s : string) : bool :=
  String.prefix sub s
  || match s with
     | EmptyString => false
     | String _ r => contains sub r
     end.

(** [c in s] for a single character *)
Fixpoint has_char (c : ascii) (s : string) : bool :=
  match s with
  | EmptyString => false
  | String d r => Ascii.eqb c d || has_char c r
  end.

(** [s.count(sub)]: the number of non-overlapping occurrences, scanning
    from the left; [skip] counts the characters of the last match still
    to be stepped over. *)
Fixpoint count_from (sub s : string) (skip : nat) : nat :=
  match s with
  | EmptyString => 0
  | String _ r =>
      match skip with
      | S k => count_from sub r k
      | O => if String.prefix sub s
             then S (count_from sub r (String.length sub - 1))
             else count_from sub r 0
      end
  end.

Definition count (s sub : string) : Z :=
  if String.eqb sub "" then len s + 1 else Z.of_nat (count_from sub s 0).

(** [s[:-1]] *)
Fixpoint drop_last (s : string) : string :=
  match s with
  | EmptyString => EmptyString
  | String c EmptyString => EmptyString
  | String c r => String c (drop_last r)
  end.

(** [break p s]: the longest prefix of [s] without a character satisfying
    [p], and the rest (which starts with such a character, or is empty).
    [s.find(c)], [s.split(c, 1)] and [s.partition(c)] are read off it. *)
Fixpoint break (p : ascii -> bool) (s : string) : string * string :=
  match s with
  | EmptyString => (EmptyString, EmptyString)
  | String c r =>
      if p c then (EmptyString, s)
      else let '(a, b) := break p r in (String c a, b)
  end.

(** [s.lstrip(chars)] for a character class *)
Fixpoint lstrip_class (p : ascii -> bool) (s : string) : string :=
  match s with
  | EmptyString => EmptyString
  | String c r => if p c then lstrip_class p r else s
  end.

(** removes every character of a class ([s.replace(c, "")] for each) *)
Fixpoint remove_class (p : ascii -> bool) (s : string) : string :=
  match s with
  | EmptyString => EmptyString
  | String c r => if p c then remove_class p r else String c (remove_class p r)
  end.

Fixpoint all_chars (p : ascii -> bool) (s : string) : bool :=
  match s with
  | EmptyString => true
  | String c r => p c && all_chars p r
  end.

Definition tail (s : string) : string :=
  match s with
  | EmptyString => EmptyString
  | String _ r => r
  end.

(** Python's whitespace for [str.strip()] restricted to ASCII:
    space, TAB, LF, VT, FF, CR and the separators FS, GS, RS, US. *)
Definition is_space (c : ascii) : bool :=
  let n := ord c in
  (n =? 32)%nat || ((9 <=? n)%nat && (n <=? 13)%nat) || ((28 <=? n)%nat && (n <=? 31)%nat).

Definition rev (s : string) : string := String.rev s.

(** [s[n:]] *)
Fixpoint drop (n : nat) (s : string) : string :=
  match n, s with
  | O, _ => s
  | S k, String _ r => drop k r
  | S _, EmptyString => EmptyString
  end.

(** the one-character string holding a double quote *)
Definition dquote : string := String (chr 34) EmptyString.

(** [s.strip()] *)
Definition strip (s : string) : string :=
  rev (lstrip_class is_space (rev (lstrip_class is_space s))).

End PyStr.

(* ===================================================================== *)
(** * models.py *)
(* ===================================================================== *)

Module Models.

Inductive FileType :=
| LECTURE_VIDEO | LECTURE_SLIDE | ASSIGNMENT | RESOURCE | READING | SYLLABUS | OTHER.

Record CourseFile := {
  cf_name : string;
  cf_url : string;
  cf_type : FileType
}.

Record DownloadResult := {
  file : CourseFile;
  success : bool;
  local_path : option string;
  error : option string;
  download_time : option Q;
  bytes_downloaded : option Z
}.

(** [BatchResult]; the time stamps and the list of tasks play no part in
    what follows and are left out. *)
Record BatchResult := {
  batch_id : string;
  total_tasks : Z;
  completed_tasks : Z;
  failed_tasks : Z;
  in_progress_tasks : Z;
  total_files_downloaded : Z;
  total_bytes_downloaded : Z;
  errors : list string
}.

(** Python's [a / b] on integers: [ZeroDivisionError] is [None]. *)
Definition truediv (a b : Z) : option Q :=
  if Z.eqb b 0 then None else Some (inject_Z a / inject_Z b)%Q.

(** [BatchResult.success_rate] *)
Definition success_rate (r : BatchResult) : option Q :=
  if Z.eqb (total_tasks r) 0 then Some 0%Q
  else truediv (completed_tasks r) (total_tasks r).

(** [ScrapeResult]; the list of files and the duration play no part in
    what follows and are left out. *)
Record ScrapeResult := {
  sr_course_name : string;
  sr_course_url : string;
  files_found : Z;
  files_downloaded : Z;
  files_failed : Z;
  sr_errors : list string
}.

End Models.

(* ===================================================================== *)
(** * urllib.parse (the standard library routine the package calls) *)
(* ===================================================================== *)

(** [urlsplit] and [urlparse] as CPython's [urllib.parse] computes them on
    ASCII text: leading C0 control characters and spaces are stripped, TAB,
    CR and LF are removed, then the scheme, the network location, the
    fragment, the query and the parameters of the last path segment are cut
    off in this order.  [None] is the [ValueError] raised for a network
    location with an unmatched square bracket.  The validation of the text
    between matched brackets (an IPv6 literal) is not modelled. *)
Module UrlParse.
Import PyStr.

Record ParseResult := {
  scheme : string;
  netloc : string;
  path : string;
  params : string;
  query : string;
  fragment : string
}.

Definition is_c0_or_space (c : ascii) : bool := (ord c <=? 32)%nat.

Definition is_unsafe (c : ascii) : bool :=
  (ord c =? 9)%nat || (ord c =? 10)%nat || (ord c =? 13)%nat.

Definition is_scheme_char (c : ascii) : bool :=
  is_alpha c || is_digit c || Ascii.eqb c "+" || Ascii.eqb c "-" || Ascii.eqb c ".".

Definition is_netloc_delim (c : ascii) : bool :=
  Ascii.eqb c "/" || Ascii.eqb c "?" || Ascii.eqb c "#".

(** [i = url.find(':')]; the scheme is [url[:i]] when [i > 0], the first
    character is a letter and all of [url[:i]] are scheme characters. *)
Definition split_scheme (url : string) : string * string :=
  let '(pre, rest) := break (Ascii.eqb ":") url in
  match rest, pre with
  | String _ after, String c0 _ =>
      if is_alpha c0 && all_chars is_scheme_char pre
      then (lower pre, after)
      else (EmptyString, url)
  | _, _ => (EmptyString, url)
  end.

(** [if url[:2] == '//': netloc, url = _splitnetloc(url, 2)] *)
Definition split_netloc (url : string) : string * string :=
  match url with
  | String a (String b r) =>
      if Ascii.eqb a "/" && Ascii.eqb b "/" then break is_netloc_delim r
      else (EmptyString, url)
  | _ => (EmptyString, url)
  end.

Definition brackets_ok (netloc : string) : bool :=
  Bool.eqb (has_char "[" netloc) (has_char "]" netloc).

(** [if c in url: url, x = url.split(c, 1)], with [x = ''] otherwise *)
Definition split1 (c : ascii) (s : string) : string * string :=
  let '(a, b) := break (Ascii.eqb c) s in (a, tail b).

Definition urlsplit (url0 : string) : option ParseResult :=
  let url := remove_class is_unsafe (lstrip_class is_c0_or_space url0) in
  let '(sch, url) := split_scheme url in
  let '(loc, url) := split_netloc url in
  if brackets_ok loc then
    let '(url, frag) := split1 "#" url in
    let '(url, qry) := split1 "?" url in
    Some {| scheme := sch; netloc := loc; path := url; params := EmptyString;
            query := qry; fragment := frag |}
  else None.

Definition uses_params : list string :=
  [""; "ftp"; "hdl"; "prospero"; "http"; "imap"; "https"; "shttp"; "rtsp";
   "rtspu"; "sip"; "sips"; "mms"; "sftp"; "tel"].

(** the path up to and including its last ['/'], and the last segment *)
Fixpoint last_segment_split (s : string) : string * string :=
  match s with
  | EmptyString => (EmptyString, EmptyString)
  | String c r =>
      let '(h, t) := last_segment_split r in
      if has_char "/" r then (String c h, t)
      else if Ascii.eqb c "/" then (String c EmptyString, r)
      else (EmptyString, s)
  end.

(** [_splitparams], called only on a path that holds a [';'] *)
Definition _splitparams (url : string) : string * string :=
  let '(h, t) := last_segment_split url in
  let '(a, b) := break (Ascii.eqb ";") t in
  match b with
  | EmptyString => (url, EmptyString)
  | String _ prm => (h ++ a, prm)
  end.

Definition urlparse (url : string) : option ParseResult :=
  match urlsplit url with
  | None => None
  | Some r =>
      if existsb (String.eqb (scheme r)) uses_params && has_char ";" (path r)
      then let '(p, prm) := _splitparams (path r) in
           Some {| scheme := scheme r; netloc := netloc r; path := p; params := prm;
                   query := query r; fragment := fragment r |}
      else Some r
  end.

End UrlParse.

(* ===================================================================== *)
(** * parser.py *)
(* ===================================================================== *)

Module Parser.
Import PyStr Models.

(** [ContentParser.FILE_TYPE_EXTENSIONS], in the order of declaration,
    which is the order in which [dict.items()] yields the entries. *)
Definition FILE_TYPE_EXTENSIONS : list (FileType * list string) :=
  [ (LECTURE_VIDEO, [".mp4"; ".avi"; ".mov"; ".wmv"; ".flv"; ".webm"; ".m4v"]);
    (LECTURE_SLIDE, [".ppt"; ".pptx"; ".pdf"; ".odp"]);
    (ASSIGNMENT, [".docx"; ".doc"; ".pdf"; ".txt"; ".md"]);
    (RESOURCE, [".zip"; ".tar"; ".gz"; ".rar"; ".7z"]);
    (READING, [".pdf"; ".epub"; ".mobi"; ".txt"]);
    (SYLLABUS, [".pdf"; ".docx"; ".doc"; ".html"]) ].

(** One alternative of a keyword pattern: a literal, a literal with an
    optional last character ([slides?]), or a literal followed by digits
    ([week\d+]).  For [re.search] only the existence of a match counts, so
    the optional character never matters and one digit suffices. *)
Inductive alt :=
| Lit (s : string)
| LitOpt (s : string) (c : ascii)
| LitDigits (s : string).

Definition alt_at (a : alt) (s : string) : bool :=
  match a with
  | Lit l => String.prefix l s
  | LitOpt l _ => String.prefix l s
  | LitDigits l =>
      String.prefix l s
      && match String.get (String.length l) s with
         | Some c => is_digit c
         | None => false
         end
  end.

Fixpoint alt_search (a : alt) (s : string) : bool :=
  alt_at a s
  || match s with
     | EmptyString => false
     | String _ r => alt_search a r
     end.

(** [re.search(pattern, s, re.IGNORECASE)] for a pattern of lower-case
    alternatives *)
Definition re_search_ignorecase (pattern : list alt) (s : string) : bool :=
  existsb (fun a => alt_search a (lower s)) pattern.

Inductive pattern_type := P_lecture | P_assignment | P_resource | P_video | P_syllabus.

(** [ContentParser.COURSE_PATTERNS], in the order of declaration *)
Definition COURSE_PATTERNS : list (pattern_type * list alt) :=
  [ (P_lecture, [Lit "lecture"; LitOpt "slide" "s"; Lit "presentation";
                 LitDigits "week"; LitDigits "module"]);
    (P_assignment, [Lit "assignment"; Lit "homework"; Lit "hw"; Lit "problem";
                    Lit "pset"; Lit "quiz"; Lit "exam"]);
    (P_resource, [Lit "resource"; Lit "material"; Lit "download"; Lit "file";
                  Lit "document"]);
    (P_video, [Lit "video"; Lit "recording"; Lit "stream"; Lit "media"]);
    (P_syllabus, [Lit "syllabus"; Lit "schedule"; Lit "calendar"; Lit "outline"]) ].

Definition pattern_file_type (p : pattern_type) : FileType :=
  match p with
  | P_lecture => LECTURE_SLIDE
  | P_assignment => ASSIGNMENT
  | P_video => LECTURE_VIDEO
  | P_syllabus => SYLLABUS
  | P_resource => RESOURCE
  end.

(** the first loop of [detect_file_type]: the first entry of the table
    one of whose extensions ends the string *)
Fixpoint by_extension (table : list (FileType * list string)) (check_string : string)
  : option FileType :=
  match table with
  | [] => None
  | (ft, exts) :: rest =>
      if existsb (endswith check_string) exts then Some ft
      else by_extension rest check_string
  end.

(** the second loop: the first keyword family found in the string *)
Fixpoint by_pattern (table : list (pattern_type * list alt)) (check_string : string)
  : option FileType :=
  match table with
  | [] => None
  | (pt, pat) :: rest =>
      if re_search_ignorecase pat check_string then Some (pattern_file_type pt)
      else by_pattern rest check_string
  end.

(** the last step: keywords in the text of the link element *)
Definition by_context (context : string) : option FileType :=
  if contains "video" context || contains "recording" context then Some LECTURE_VIDEO
  else if contains "slide" context || contains "presentation" context then Some LECTURE_SLIDE
  else if contains "assignment" context || contains "homework" context then Some ASSIGNMENT
  else if contains "syllabus" context then Some SYLLABUS
  else if contains "reading" context then Some READING
  else None.

(** [ContentParser.detect_file_type(url, filename, link_element)]; the
    link element is represented by its [text_content()]. *)
Definition detect_file_type (url : string) (filename : option string)
    (link_element : option string) : FileType :=
  let check_string := lower (url ++ default "" filename) in
  match by_extension FILE_TYPE_EXTENSIONS check_string with
  | Some ft => ft
  | None =>
      match by_pattern COURSE_PATTERNS check_string with
      | Some ft => ft
      | None =>
          match link_element with
          | Some text => default OTHER (by_context (lower text))
          | None => OTHER
          end
      end
  end.

End Parser.

(* ===================================================================== *)
(** * scraper/js_renderer.py *)
(* ===================================================================== *)

Module JSRenderer.
Import PyStr.

(** [JSDetector.JS_FRAMEWORKS], in the order of declaration *)
Definition JS_FRAMEWORKS : list (string * list string) :=
  [ ("react", ["react"; "ReactDOM"; "__REACT_"]);
    ("angular", ["angular"; "ng-"; "ng-app"]);
    ("vue", ["Vue"; "v-"; "__VUE__"]);
    ("ember", ["Ember"; "ember-"]);
    ("backbone", ["Backbone"]);
    ("jquery", ["jQuery"; "$"]);
    ("nextjs", ["__NEXT_"; "_next"]);
    ("nuxtjs", ["__NUXT__"]);
    ("gatsby", ["___gatsby"]);
    ("svelte", ["__svelte"]) ].

Definition id_root : string := "id=" ++ dquote ++ "root" ++ dquote.
Definition id_app : string := "id=" ++ dquote ++ "app" ++ dquote.

(** [JSDetector.JS_INDICATORS] *)
Definition JS_INDICATORS : list string :=
  [ "<noscript>"; "data-react"; "data-ng-"; "v-bind"; "ng-controller";
    id_root; id_app; "__INITIAL_STATE__"; "__PRELOADED_STATE__"; "window.__";
    "require.js"; "webpack"; "bundle.js" ].

Record detection := {
  uses_javascript : bool;
  requires_js_rendering : bool;
  frameworks : list string;
  indicators : list string;
  dynamic_content_score : Z
}.

(** the text before and after the first occurrence of [pat] in [s],
    letter case ignored ([pat] is lower-case) *)
Fixpoint split_at_ci (pat s : string) : option (string * string) :=
  if String.prefix pat (lower s) then Some (EmptyString, drop (String.length pat) s)
  else match s with
       | EmptyString => None
       | String c r =>
           match split_at_ci pat r with
           | Some (a, b) => Some (String c a, b)
           | None => None
           end
       end.

(** [re.findall(r'<noscript>(.*?)</noscript>', s, re.DOTALL | re.IGNORECASE)]:
    from each opening tag to the nearest closing tag, left to right *)
Fixpoint noscript_matches (fuel : nat) (s : string) : list string :=
  match fuel with
  | O => []
  | S f =>
      match split_at_ci "<noscript>" s with
      | None => []
      | Some (_, after) =>
          match split_at_ci "</noscript>" after with
          | None => []
          | Some (content, rest) => content :: noscript_matches f rest
          end
      end
  end.

(** [JSDetector._check_noscript_content] *)
Definition _check_noscript_content (html_content : string) : bool :=
  existsb (fun m => contains "JavaScript" m || contains "enable" m)
          (noscript_matches (S (String.length html_content)) html_content).

Section WithHtmlParser.

(** The markup parser of [lxml] is outside the package:
    [body_text html_content] is the value of
    [tree.text_content() if tree.body is not None else ''] for
    [tree = html.fromstring(html_content)], and [None] when the parser
    raises. *)
Variable body_text : string -> option string.

(** [JSDetector._calculate_js_score] *)
Definition _calculate_js_score (html_content : string) : option Z :=
  let score := 0 in
  let script_count := count html_content "<script" in
  let score := score + Z.min (script_count * 5) 30 in
  let score :=
    if contains "onclick=" html_content || contains "onload=" html_content
    then score + 10 else score in
  let score :=
    if contains "XMLHttpRequest" html_content || contains "fetch(" html_content
    then score + 20 else score in
  let score :=
    if contains "__INITIAL_DATA__" html_content || contains "window.__" html_content
    then score + 15 else score in
  let score :=
    if existsb (fun spa => contains spa html_content) ["#root"; "#app"; id_root; id_app]
    then score + 20 else score in
  match body_text html_content with
  | None => None
  | Some text =>
      let score := if len (strip text) <? 100 then score + 15 else score in
      Some (Z.min score 100)
  end.

(** [JSDetector.detect_javascript] *)
Definition detect_javascript (html_content : string) : option detection :=
  let found_frameworks :=
    map fst (filter (fun '(_, patterns) =>
                       Is_true (existsb (fun p => contains p html_content) patterns))
                    JS_FRAMEWORKS) in
  let found_indicators :=
    filter (fun i => Is_true (contains i html_content)) JS_INDICATORS in
  let uses :=
    negb (bool_decide (found_frameworks = [])) || negb (bool_decide (found_indicators = [])) in
  match _calculate_js_score html_content with
  | None => None
  | Some score =>
      let requires :=
        if 50 <? score then true
        else if negb (bool_decide (found_frameworks = [])) then true
        else if contains "<noscript>" html_content && _check_noscript_content html_content
             then true
             else false in
      Some {| uses_javascript := uses;
              requires_js_rendering := requires;
              frameworks := found_frameworks;
              indicators := found_indicators;
              dynamic_content_score := score |}
  end.

End WithHtmlParser.

End JSRenderer.

(* ===================================================================== *)
(** * crawler/base_crawler.py *)
(* ===================================================================== *)

Module BaseCrawler.
Import PyStr UrlParse.

(** [BaseCrawler._normalize_url]; [None] when [urlparse] raises. *)
Definition _normalize_url (url : string) : option string :=
  match urlparse (lower url) with
  | None => None
  | Some parsed =>
      let url_without_fragment := scheme parsed ++ "://" ++ netloc parsed ++ path parsed in
      let url_without_fragment :=
        if String.eqb (query parsed) "" then url_without_fragment
        else url_without_fragment ++ "?" ++ query parsed in
      Some (if endswith url_without_fragment "/" && (1 <? len (path parsed))
            then drop_last url_without_fragment
            else url_without_fragment)
  end.

(** [CrawlResult]; the two time stamps play no part in what follows and
    are left out. *)
Record CrawlResult := {
  start_url : string;
  discovered_urls : gset string;
  visited_urls : gset string;
  failed_urls : gmap string string;
  max_depth_reached : Z
}.

(** [CrawlResult.success_rate] *)
Definition success_rate (r : CrawlResult) : Q :=
  let total := Z.of_nat (size (visited_urls r)) + Z.of_nat (size (failed_urls r)) in
  if total =? 0 then 0
  else (inject_Z (Z.of_nat (size (visited_urls r))) / inject_Z total)%Q.

(** The settings of a crawler.  [url_filter] answers [None] where the
    caller's function raises. *)
Record crawler_config := {
  respect_robots : bool;
  max_depth : Z;
  max_urls : Z;
  allowed_domains : option (list string);
  url_filter : option (string -> option bool)
}.

(** the extensions listed in [_is_valid_url] *)
Definition skip_extensions : list string :=
  [".jpg"; ".jpeg"; ".png"; ".gif"; ".pdf"; ".zip";
   ".exe"; ".dmg"; ".mp3"; ".mp4"; ".avi"; ".mov"].

(** [BaseCrawler._is_valid_url]; every exception is answered by [False]. *)
Definition _is_valid_url (config : crawler_config) (url : string) : bool :=
  match urlparse url with
  | None => false
  | Some parsed =>
      if String.eqb (scheme parsed) "" || String.eqb (netloc parsed) "" then false
      else if negb (String.eqb (scheme parsed) "http" || String.eqb (scheme parsed) "https")
      then false
      else if match allowed_domains config with
              | Some (d :: ds) =>
                  negb (existsb (endswith (lower (netloc parsed))) (d :: ds))
              | _ => false
              end
      then false
      else
        match match url_filter config with
              | Some f => f url
              | None => Some true
              end with
        | None => false
        | Some false => false
        | Some true =>
            negb (existsb (endswith (lower (path parsed))) skip_extensions)
        end
  end.

(** The sets of URLs a crawler keeps while it runs. *)
Record crawler := {
  visited : gset string;
  discovered : gset string;
  failed : gmap string string
}.

(** [BaseCrawler.reset] *)
Definition reset (self : crawler) : crawler :=
  {| visited := ∅; discovered := ∅; failed := ∅ |}.

(** [BaseCrawler._should_crawl_url]; [None] when [_normalize_url] raises. *)
Definition _should_crawl_url (config : crawler_config) (self : crawler) (url : string)
  : option bool :=
  match _normalize_url url with
  | None => None
  | Some normalized_url =>
      Some (if bool_decide (normalized_url ∈ visited self) then false
            else if bool_decide (is_Some (failed self !! normalized_url)) then false
            else if (0 <? max_urls config)
                    && (max_urls config <=? Z.of_nat (size (visited self)))
            then false
            else _is_valid_url config normalized_url)
  end.

End BaseCrawler.

(* ===================================================================== *)
(** * concurrency.py *)
(* ===================================================================== *)

Module Concurrency.

(** [a < b] on rationals, as a boolean *)
Definition Qltb (a b : Q) : bool := negb (Qle_bool b a).

(** [d[k]] on a [defaultdict]: a missing key is first bound to the
    default value. *)
Definition dd_get {V : Type} (dflt : V) (d : gmap string V) (k : string)
  : V * gmap string V :=
  match d !! k with
  | Some v => (v, d)
  | None => (dflt, <[k := dflt]> d)
  end.

(** ** Rate limiters *)

(** The state shared by [AsyncRateLimiter] and [ThreadSafeRateLimiter]. *)
Record RateLimiter := {
  calls_per_second : Q;
  min_interval : Q;
  _last_call : gmap string Q
}.

(** [__init__]: [1.0 / calls_per_second] raises for a zero rate. *)
Definition new_limiter (cps : Q) : option RateLimiter :=
  if Qeq_bool cps 0 then None
  else Some {| calls_per_second := cps; min_interval := 1 / cps; _last_call := ∅ |}.

(** [key = domain or 'default'] *)
Definition key_of (domain : option string) : string :=
  match domain with
  | Some d => if String.eqb d "" then "default" else d
  | None => "default"
  end.

(** [AsyncRateLimiter.acquire].  [current] is the reading of
    [time.time()] on entry; a sleep of [d] seconds ends [d + lag] seconds
    later, and [lag] is also the time that passes up to the second reading
    of the clock when no sleep is needed.  The result is the new state
    and the clock reading at which the call completes. *)
Definition async_acquire (self : RateLimiter) (domain : option string)
    (current lag : Q) : RateLimiter * Q :=
  let key := key_of domain in
  let last_call := default 0%Q (_last_call self !! key) in
  let elapsed := (current - last_call)%Q in
  let now :=
    if Qltb elapsed (min_interval self)
    then (current + (min_interval self - elapsed) + lag)%Q
    else (current + lag)%Q in
  ({| calls_per_second := calls_per_second self;
      min_interval := min_interval self;
      _last_call := <[key := now]> (_last_call self) |}, now).

(** [ThreadSafeRateLimiter.acquire]: as above, but the time stamp stored
    is [current], the reading taken before the sleep. *)
Definition thread_acquire (self : RateLimiter) (domain : option string)
    (current lag : Q) : RateLimiter * Q :=
  let key := key_of domain in
  let last_call := default 0%Q (_last_call self !! key) in
  let elapsed := (current - last_call)%Q in
  let now :=
    if Qltb elapsed (min_interval self)
    then (current + (min_interval self - elapsed) + lag)%Q
    else (current + lag)%Q in
  ({| calls_per_second := calls_per_second self;
      min_interval := min_interval self;
      _last_call := <[key := current]> (_last_call self) |}, now).

(** ** Circuit breakers *)

Record CircuitBreaker := {
  failure_threshold : Z;
  timeout : Q;
  half_open_max : Z;
  _failures : gmap string Z;
  _last_failure : gmap string Q;
  _state : gmap string string;
  _half_open_count : gmap string Z
}.

(** the dataclass defaults *)
Definition new_breaker : CircuitBreaker :=
  {| failure_threshold := 5; timeout := 60; half_open_max := 1;
     _failures := ∅; _last_failure := ∅; _state := ∅; _half_open_count := ∅ |}.

(** [CircuitBreaker.is_open]; [now] is the reading of [time.time()]. *)
Definition is_open (self : CircuitBreaker) (service : string) (now : Q)
  : bool * CircuitBreaker :=
  let '(state, states) := dd_get "closed" (_state self) service in
  if String.eqb state "open" then
    if Qltb (timeout self) (now - default 0%Q (_last_failure self !! service))%Q then
      (false,
       {| failure_threshold := failure_threshold self; timeout := timeout self;
          half_open_max := half_open_max self; _failures := _failures self;
          _last_failure := _last_failure self;
          _state := <[service := "half_open"]> states;
          _half_open_count := <[service := 0]> (_half_open_count self) |})
    else
      (true,
       {| failure_threshold := failure_threshold self; timeout := timeout self;
          half_open_max := half_open_max self; _failures := _failures self;
          _last_failure := _last_failure self; _state := states;
          _half_open_count := _half_open_count self |})
  else
    (false,
     {| failure_threshold := failure_threshold self; timeout := timeout self;
        half_open_max := half_open_max self; _failures := _failures self;
        _last_failure := _last_failure self; _state := states;
        _half_open_count := _half_open_count self |}).

(** [CircuitBreaker.record_success] *)
Definition record_success (self : CircuitBreaker) (service : string) : CircuitBreaker :=
  let '(state, states) := dd_get "closed" (_state self) service in
  if String.eqb state "half_open" then
    let '(n, counts) := dd_get 0 (_half_open_count self) service in
    let counts := <[service := n + 1]> counts in
    if half_open_max self <=? n + 1 then
      {| failure_threshold := failure_threshold self; timeout := timeout self;
         half_open_max := half_open_max self;
         _failures := <[service := 0]> (_failures self);
         _last_failure := _last_failure self;
         _state := <[service := "closed"]> states;
         _half_open_count := counts |}
    else
      {| failure_threshold := failure_threshold self; timeout := timeout self;
         half_open_max := half_open_max self; _failures := _failures self;
         _last_failure := _last_failure self; _state := states;
         _half_open_count := counts |}
  else
    {| failure_threshold := failure_threshold self; timeout := timeout self;
       half_open_max := half_open_max self; _failures := _failures self;
       _last_failure := _last_failure self; _state := states;
       _half_open_count := _half_open_count self |}.

(** [CircuitBreaker.record_failure] *)
Definition record_failure (self : CircuitBreaker) (service : string) (now : Q)
  : CircuitBreaker :=
  let '(n, failures) := dd_get 0 (_failures self) service in
  let failures := <[service := n + 1]> failures in
  {| failure_threshold := failure_threshold self; timeout := timeout self;
     half_open_max := half_open_max self;
     _failures := failures;
     _last_failure := <[service := now]> (_last_failure self);
     _state := if failure_threshold self <=? n + 1
               then <[service := "open"]> (_state self)
               else _state self;
     _half_open_count := _half_open_count self |}.

(** [CircuitBreaker.get_state] *)
Definition get_state (self : CircuitBreaker) (service : string) : string :=
  fst (dd_get "closed" (_state self) service).

(** the failure count of a service, as [self._failures[service]] reads it *)
Definition failures_of (self : CircuitBreaker) (service : string) : Z :=
  fst (dd_get 0 (_failures self) service).

(** [AsyncCircuitBreaker] has no [half_open_max] and no half-open counter. *)
Record AsyncCircuitBreaker := {
  a_failure_threshold : Z;
  a_timeout : Q;
  a_failures : gmap string Z;
  a_last_failure : gmap string Q;
  a_state : gmap string string
}.

Definition new_async_breaker : AsyncCircuitBreaker :=
  {| a_failure_threshold := 5; a_timeout := 60;
     a_failures := ∅; a_last_failure := ∅; a_state := ∅ |}.

(** [AsyncCircuitBreaker.is_open] *)
Definition a_is_open (self : AsyncCircuitBreaker) (service : string) (now : Q)
  : bool * AsyncCircuitBreaker :=
  let '(state, states) := dd_get "closed" (a_state self) service in
  if String.eqb state "open" then
    if Qltb (a_timeout self) (now - default 0%Q (a_last_failure self !! service))%Q then
      (false,
       {| a_failure_threshold := a_failure_threshold self; a_timeout := a_timeout self;
          a_failures := a_failures self; a_last_failure := a_last_failure self;
          a_state := <[service := "half_open"]> states |})
    else
      (true,
       {| a_failure_threshold := a_failure_threshold self; a_timeout := a_timeout self;
          a_failures := a_failures self; a_last_failure := a_last_failure self;
          a_state := states |})
  else
    (false,
     {| a_failure_threshold := a_failure_threshold self; a_timeout := a_timeout self;
        a_failures := a_failures self; a_last_failure := a_last_failure self;
        a_state := states |}).

(** [AsyncCircuitBreaker.record_success] *)
Definition a_record_success (self : AsyncCircuitBreaker) (service : string)
  : AsyncCircuitBreaker :=
  let '(state, states) := dd_get "closed" (a_state self) service in
  if String.eqb state "half_open" then
    {| a_failure_threshold := a_failure_threshold self; a_timeout := a_timeout self;
       a_failures := <[service := 0]> (a_failures self);
       a_last_failure := a_last_failure self;
       a_state := <[service := "closed"]> states |}
  else
    {| a_failure_threshold := a_failure_threshold self; a_timeout := a_timeout self;
       a_failures := a_failures self; a_last_failure := a_last_failure self;
       a_state := states |}.

(** [AsyncCircuitBreaker.record_failure] *)
Definition a_record_failure (self : AsyncCircuitBreaker) (service : string) (now : Q)
  : AsyncCircuitBreaker :=
  let '(n, failures) := dd_get 0 (a_failures self) service in
  let failures := <[service := n + 1]> failures in
  {| a_failure_threshold := a_failure_threshold self; a_timeout := a_timeout self;
     a_failures := failures;
     a_last_failure := <[service := now]> (a_last_failure self);
     a_state := if a_failure_threshold self <=? n + 1
                then <[service := "open"]> (a_state self)
                else a_state self |}.

Definition a_get_state (self : AsyncCircuitBreaker) (service : string) : string :=
  fst (dd_get "closed" (a_state self) service).

Definition a_failures_of (self : AsyncCircuitBreaker) (service : string) : Z :=
  fst (dd_get 0 (a_failures self) service).

(** ** Priority task queues *)

Section Queues.
Context {A : Type}.

(** [TaskQueue]: a list of [(priority, item)] pairs and a bound. *)
Record TaskQueue := {
  _queue : list (Z * A);
  maxsize : Z
}.

Definition new_queue (size : Z) : TaskQueue := {| _queue := []; maxsize := size |}.

(** the insertion loop of [TaskQueue.put]: before the first entry of
    strictly lower priority, else at the end *)
Fixpoint insert_by_priority (priority : Z) (item : A) (q : list (Z * A))
  : list (Z * A) :=
  match q with
  | [] => [(priority, item)]
  | (p, x) :: rest =>
      if p <? priority then (priority, item) :: q
      else (p, x) :: insert_by_priority priority item rest
  end.

(** [TaskQueue.put]; [None] when the queue is full, where the caller
    waits on the condition variable (or gets [TimeoutError]). *)
Definition put (self : TaskQueue) (item : A) (priority : Z) : option TaskQueue :=
  if (0 <? maxsize self) && (maxsize self <=? Z.of_nat (length (_queue self)))
  then None
  else Some {| _queue := insert_by_priority priority item (_queue self);
               maxsize := maxsize self |}.

(** [TaskQueue.get]; [None] when the queue is empty, where the caller
    waits. *)
Definition get (self : TaskQueue) : option (A * TaskQueue) :=
  match _queue self with
  | [] => None
  | (_, item) :: rest => Some (item, {| _queue := rest; maxsize := maxsize self |})
  end.

(** [AsyncTaskQueue]: the entries [(-priority, counter, item)] held by
    the [asyncio.PriorityQueue], the counter and the bound. *)
Record AsyncTaskQueue := {
  entries : list (Z * Z * A);
  _counter : Z;
  a_maxsize : Z
}.

Definition new_async_queue (size : Z) : AsyncTaskQueue :=
  {| entries := []; _counter := 0; a_maxsize := size |}.

(** tuple comparison on the first two components; the counter makes
    them differ, so the items are never compared *)
Definition entry_lt (a b : Z * Z * A) : bool :=
  let '(p1, c1, _) := a in
  let '(p2, c2, _) := b in
  (p1 <? p2) || ((p1 =? p2) && (c1 <? c2)).

(** [asyncio.PriorityQueue.get]: the lowest entry is retrieved first. *)
Fixpoint pop_least (l : list (Z * Z * A)) : option ((Z * Z * A) * list (Z * Z * A)) :=
  match l with
  | [] => None
  | x :: rest =>
      match pop_least rest with
      | None => Some (x, [])
      | Some (m, rest') =>
          if entry_lt m x then Some (m, x :: rest') else Some (x, rest)
      end
  end.

(** [AsyncTaskQueue.put]; [None] when the queue is full (the caller is
    suspended). *)
Definition a_put (self : AsyncTaskQueue) (item : A) (priority : Z)
  : option AsyncTaskQueue :=
  let counter := _counter self + 1 in
  if (0 <? a_maxsize self) && (a_maxsize self <=? Z.of_nat (length (entries self)))
  then None
  else Some {| entries := (- priority, counter, item) :: entries self;
               _counter := counter;
               a_maxsize := a_maxsize self |}.

(** [AsyncTaskQueue.get]; [None] when the queue is empty. *)
Definition a_get (self : AsyncTaskQueue) : option (A * AsyncTaskQueue) :=
  match pop_least (entries self) with
  | None => None
  | Some ((_, _, item), rest) =>
      Some (item, {| entries := rest; _counter := _counter self;
                     a_maxsize := a_maxsize self |})
  end.

(** putting a list of [(item, priority)] pairs, in order *)
Fixpoint put_all (self : TaskQueue) (xs : list (A * Z)) : option TaskQueue :=
  match xs with
  | [] => Some self
  | (item, priority) :: rest =>
      match put self item priority with
      | None => None
      | Some q => put_all q rest
      end
  end.

Fixpoint a_put_all (self : AsyncTaskQueue) (xs : list (A * Z)) : option AsyncTaskQueue :=
  match xs with
  | [] => Some self
  | (item, priority) :: rest =>
      match a_put self item priority with
      | None => None
      | Some q => a_put_all q rest
      end
  end.

(** draining: [get] until the queue is empty *)
Fixpoint drain_n (n : nat) (self : TaskQueue) : list A :=
  match n with
  | O => []
  | S k =>
      match get self with
      | None => []
      | Some (item, q) => item :: drain_n k q
      end
  end.

Definition drain (self : TaskQueue) : list A :=
  drain_n (length (_queue self)) self.

Fixpoint a_drain_n (n : nat) (self : AsyncTaskQueue) : list A :=
  match n with
  | O => []
  | S k =>
      match a_get self with
      | None => []
      | Some (item, q) => item :: a_drain_n k q
      end
  end.

Definition a_drain (self : AsyncTaskQueue) : list A :=
  a_drain_n (length (entries self)) self.

End Queues.

Arguments TaskQueue A : clear implicits.
Arguments AsyncTaskQueue A : clear implicits.

(** ** The states of a circuit breaker *)

(** The states a [CircuitBreaker] built with the given settings can be in:
    the new object, and what its three operations make of a state, for any
    services and clock readings. *)
Inductive breaker_reachable (threshold : Z) (tm : Q) (hmax : Z) : CircuitBreaker -> Prop :=
| breaker_new :
    breaker_reachable threshold tm hmax
      {| failure_threshold := threshold; timeout := tm; half_open_max := hmax;
         _failures := ∅; _last_failure := ∅; _state := ∅; _half_open_count := ∅ |}
| breaker_is_open cb service now :
    breaker_reachable threshold tm hmax cb ->
    breaker_reachable threshold tm hmax (snd (is_open cb service now))
| breaker_success cb service :
    breaker_reachable threshold tm hmax cb ->
    breaker_reachable threshold tm hmax (record_success cb service)
| breaker_failure cb service now :
    breaker_reachable threshold tm hmax cb ->
    breaker_reachable threshold tm hmax (record_failure cb service now).

(** ** The states of the task queues *)

Inductive queue_reachable {A : Type} (size : Z) : TaskQueue A -> Prop :=
| queue_new : queue_reachable size (new_queue size)
| queue_put q item priority q' :
    queue_reachable size q -> put q item priority = Some q' -> queue_reachable size q'
| queue_get q item q' :
    queue_reachable size q -> get q = Some (item, q') -> queue_reachable size q'.

Inductive async_queue_reachable {A : Type} (size : Z) : AsyncTaskQueue A -> Prop :=
| async_queue_new : async_queue_reachable size (new_async_queue size)
| async_queue_put q item priority q' :
    async_queue_reachable size q -> a_put q item priority = Some q' ->
    async_queue_reachable size q'
| async_queue_get q item q' :
    async_queue_reachable size q -> a_get q = Some (item, q') ->
    async_queue_reachable size q'.

(** ** Semaphores by domain *)

(** [AsyncSemaphorePool]; a semaphore is represented by the number of
    permits it was created with. *)
Record AsyncSemaphorePool := {
  default_limit : Z;
  _semaphores : gmap string Z
}.

(** [AsyncSemaphorePool.get_semaphore]; [asyncio.Semaphore] raises
    [ValueError] for a negative value: [None]. *)
Definition get_semaphore (self : AsyncSemaphorePool) (domain : string) (limit : option Z)
  : option (Z * AsyncSemaphorePool) :=
  match _semaphores self !! domain with
  | Some sem => Some (sem, self)
  | None =>
      let sem_limit :=
        match limit with
        | Some l => if l =? 0 then default_limit self else l
        | None => default_limit self
        end in
      if sem_limit <? 0 then None
      else Some (sem_limit,
                 {| default_limit := default_limit self;
                    _semaphores := <[domain := sem_limit]> (_semaphores self) |})
  end.

(** ** Exponential backoff *)

Record ExponentialBackoff := {
  base_delay : Q;
  max_delay : Q;
  jitter : bool
}.

(** the defaults of [__init__] *)
Definition new_backoff : ExponentialBackoff :=
  {| base_delay := 1; max_delay := 60; jitter := true |}.

(** [min(a, b)]: the second argument only when it is strictly smaller *)
Definition py_min (a b : Q) : Q := if Qltb b a then b else a.

(** [ExponentialBackoff.get_delay].  [random] is the value drawn by
    [random.random()], which lies in [0, 1).  The delays are floats: the
    integer [2 ** attempt] is converted for the product, which raises
    [OverflowError] from [2 ** 1024] on ([None]); below that the product
    is taken exactly. *)
Definition get_delay (self : ExponentialBackoff) (attempt : Z) (random : Q) : option Q :=
  if 1024 <=? attempt then None
  else
    let delay := py_min (base_delay self * 2 ^ attempt)%Q (max_delay self) in
    Some (if jitter self then (delay * (0.5 + random))%Q else delay).

(** ** Lists in chunks *)

Section Chunks.
Context {A : Type}.

(** [range(0, stop, step)] for a positive [step] *)
Definition range_step (stop step : nat) : list nat :=
  (fun k => k * step)%nat <$> seq 0 (Nat.div (stop + step - 1) step).

(** [chunk_list(lst, chunk_size)]: [range] raises [ValueError] for a
    step of zero ([None]) and is empty for a negative one. *)
Definition chunk_list (lst : list A) (chunk_size : Z) : option (list (list A)) :=
  if chunk_size =? 0 then None
  else if chunk_size <? 0 then Some []
  else
    let n := Z.to_nat chunk_size in
    Some ((fun i => take n (drop i lst)) <$> range_step (length lst) n).

End Chunks.

End Concurrency.

(* ===================================================================== *)
(** * downloader.py *)
(* ===================================================================== *)

Module Downloader.
Import Models.

(** What [session.get] does: it raises (connection refused or reset,
    timeout), or it returns a response with a status code, whose body is
    then read in chunks of the given sizes; reading the body may itself
    fail; [etag_matches] is [None] when the response has no [ETag] header,
    else whether the MD5 digest of the file equals it.  [raise_for_status]
    raises for a status outside [200, 400). *)
Inductive http_result :=
| ConnectionError (message : string)
| Response (status_code : Z) (chunks : list Z) (read_error : option string)
           (etag_matches : option bool).

(** The outside world during one call of [download_file]. *)
Record attempt_world := {
  (** an exception raised before the [try] block is entered: by
      [output_file.parent.mkdir] or while the result record is built *)
  setup_error : option string;
  (** the size of the file already on disk; 0 when there is none *)
  size_on_disk : Z;
  (** the answer to the first request, which carries the [Range] header
      when a partial file exists *)
  first_get : http_result;
  (** the answer to the second request, made without [Range] when the
      first answer was not 206 *)
  second_get : http_result;
  (** the seconds between the two readings of the clock *)
  elapsed : Q
}.

Record ScraperConfig := {
  max_retries : Z;
  retry_delay : Q
}.

(** [Path(output_path).name] for a path that does not end in a slash *)
Definition path_name (output_path : string) : string :=
  snd (UrlParse.last_segment_split output_path).

Definition failed (name url : string) (message : string) : DownloadResult :=
  {| file := {| cf_name := name; cf_url := url; cf_type := OTHER |};
     success := false; local_path := None; error := Some message;
     download_time := None; bytes_downloaded := None |}.

(** the body of the [try] block: [inl message] is an exception *)
Definition fetch (w : attempt_world) (resume verify_checksum : bool) : string + Z :=
  let existing_size := if resume then size_on_disk w else 0 in
  let step (existing_size : Z) (r : http_result) : string + Z :=
    match r with
    | ConnectionError m => inl m
    | Response status chunks read_error etag =>
        if negb ((200 <=? status) && (status <? 400)) then inl "HTTP Error"
        else
          match read_error with
          | Some m => inl m
          | None =>
              let bytes := existing_size + foldr Z.add 0 (filter (fun n => n ≠ 0) chunks) in
              match etag with
              | Some false =>
                  if verify_checksum then inl "Checksum verification failed" else inr bytes
              | _ => inr bytes
              end
          end
    end in
  match first_get w with
  | ConnectionError m => inl m
  | Response status _ _ _ =>
      if (0 <? existing_size) && negb (status =? 206)
      then step 0 (second_get w)
      else step existing_size (first_get w)
  end.

(** [DownloadManager.download_file]: [inl message] when an exception
    leaves the function, [inr result] when it returns. *)
Definition download_file (w : attempt_world) (url output_path : string)
    (resume verify_checksum : bool) : string + DownloadResult :=
  match setup_error w with
  | Some m => inl m
  | None =>
      match fetch w resume verify_checksum with
      | inr bytes =>
          inr {| file := {| cf_name := path_name output_path; cf_url := url;
                            cf_type := OTHER |};
                 success := true; local_path := Some output_path; error := None;
                 download_time := Some (elapsed w); bytes_downloaded := Some bytes |}
      | inl m => inr (failed (path_name output_path) url m)
      end
  end.

(** What a call of [_download_with_retry] did: the sleeps it made, the
    number of calls of [download_file], and the result it returned. *)
Record retry_trace := {
  sleeps : list Q;
  attempts : Z;
  result : DownloadResult
}.

(** the [for attempt in range(max_retries)] loop, [n] iterations left *)
Fixpoint retry_loop (config : ScraperConfig) (world : Z -> attempt_world)
    (url output_path : string) (n : nat) (attempt : Z)
    (last_error : option string) (slept : list Q) : retry_trace :=
  match n with
  | O =>
      {| sleeps := slept; attempts := attempt;
         result := failed (path_name output_path) url (default "None" last_error) |}
  | S k =>
      let slept :=
        if 0 <? attempt
        then (slept ++ [(retry_delay config * inject_Z (2 ^ attempt))%Q])%list
        else slept in
      match download_file (world attempt) url output_path true false with
      | inr r => {| sleeps := slept; attempts := attempt + 1; result := r |}
      | inl e => retry_loop config world url output_path k (attempt + 1) (Some e) slept
      end
  end.

(** [DownloadManager._download_with_retry]; [world attempt] is the
    outside world during the attempt of that number. *)
Definition _download_with_retry (config : ScraperConfig) (world : Z -> attempt_world)
    (url output_path : string) : retry_trace :=
  retry_loop config world url output_path (Z.to_nat (max_retries config)) 0 None [].

(** ** File names *)

(** the characters that [_extract_filename] replaces: the angle
    brackets, the colon, the double quote, the bar, the question mark, the
    star, the two slashes and NUL *)
Definition is_invalid_char (c : ascii) : bool :=
  existsb (Ascii.eqb c)
    ["<"; ">"; ":"; PyStr.chr 34; "|"; "?"; "*"; "\"; "/"; PyStr.chr 0]%char.

(** [for char in invalid_chars: filename = filename.replace(char, '_')] *)
Fixpoint sanitize (s : string) : string :=
  match s with
  | EmptyString => EmptyString
  | String c r => String (if is_invalid_char c then "_"%char else c) (sanitize r)
  end.

Section WithUnquote.

(** [urllib.parse.unquote] is outside the package, and [hash] of a string
    is salted anew in every process: both are taken as given. *)
Variable unquote : string -> string.
Variable url_hash : string -> Z.

(** [DownloadManager._extract_filename]; [None] when [urlparse] raises. *)
Definition _extract_filename (url : string) : option string :=
  match UrlParse.urlparse url with
  | None => None
  | Some parsed =>
      let path := unquote (UrlParse.path parsed) in
      let filename :=
        if PyStr.has_char "/" path then snd (UrlParse.last_segment_split path) else path in
      let filename :=
        if PyStr.has_char "." filename then filename
        else if PyStr.contains "pdf" (PyStr.lower url) then filename ++ ".pdf"
        else if PyStr.contains "mp4" (PyStr.lower url)
                || PyStr.contains "video" (PyStr.lower url)
        then filename ++ ".mp4"
        else filename ++ ".bin" in
      let filename := sanitize filename in
      Some (if String.eqb filename "" then "download_" ++ pretty (url_hash url `mod` 10000)
            else filename)
  end.

End WithUnquote.

End Downloader.

(* ===================================================================== *)
(** * session_manager.py *)
(* ===================================================================== *)

Module SessionManager.

(** [SessionMetrics]: counters and latencies by domain *)
Record SessionMetrics := {
  _requests : gmap string Z;
  _errors : gmap string Z;
  _bytes : gmap string Z;
  _latencies : gmap string (list Q)
}.

Definition new_metrics : SessionMetrics :=
  {| _requests := ∅; _errors := ∅; _bytes := ∅; _latencies := ∅ |}.

(** [l[-100:]] *)
Definition last_100 {A : Type} (l : list A) : list A := drop (length l - 100) l.

(** [SessionMetrics.record_request] *)
Definition record_request (self : SessionMetrics) (domain : string)
    (bytes_transferred : Z) (latency : Q) : SessionMetrics :=
  let latencies := (default [] (_latencies self !! domain) ++ [latency])%list in
  {| _requests := <[domain := default 0 (_requests self !! domain) + 1]> (_requests self);
     _errors := _errors self;
     _bytes := <[domain := default 0 (_bytes self !! domain) + bytes_transferred]>
                 (_bytes self);
     _latencies :=
       <[domain := if 100 <? Z.of_nat (length latencies) then last_100 latencies
                   else latencies]> (_latencies self) |}.

(** [SessionMetrics.record_error] *)
Definition record_error (self : SessionMetrics) (domain : string) : SessionMetrics :=
  {| _requests := _requests self;
     _errors := <[domain := default 0 (_errors self !! domain) + 1]> (_errors self);
     _bytes := _bytes self;
     _latencies := _latencies self |}.

(** [sum(latencies) / len(latencies) if latencies else 0] *)
Definition average (latencies : list Q) : Q :=
  match latencies with
  | [] => 0
  | _ => (foldl Qplus 0 latencies / inject_Z (Z.of_nat (length latencies)))%Q
  end.

Record domain_stats := {
  requests : Z;
  errors : Z;
  bytes : Z;
  avg_latency : Q
}.

(** [SessionMetrics.get_stats(domain)] for a domain name that is not
    empty (the branch [if domain:]) *)
Definition get_stats (self : SessionMetrics) (domain : string) : domain_stats :=
  {| requests := default 0 (_requests self !! domain);
     errors := default 0 (_errors self !! domain);
     bytes := default 0 (_bytes self !! domain);
     avg_latency := average (default [] (_latencies self !! domain)) |}.

(** [SessionMetrics.reset] *)
Definition reset (self : SessionMetrics) : SessionMetrics := new_metrics.

End SessionManager.

(* ===================================================================== *)
(** * async_scraper.py *)
(* ===================================================================== *)

Module AsyncScraper.
Import UrlParse Models Concurrency SessionManager.

(** The parts of an [AsyncScraper] that [_make_request] uses. *)
Record scraper := {
  max_retries : Z;
  circuit_breaker : AsyncCircuitBreaker;
  backoff : ExponentialBackoff;
  metrics : SessionMetrics
}.

(** What one turn of the retry loop meets: the value drawn for the
    jitter of the backoff, the fate of the request (an exception raised
    while the client is obtained, the request is sent or its status is
    checked, or a response with the length of its content and the latency
    measured), and the clock reading that [record_failure] takes when the
    turn fails. *)
Record attempt_world := {
  random : Q;
  answer : string + (Z * Q);
  failure_time : Q
}.

(** What a call of [_make_request] did: the exception it raised or the
    length of the response it returned, the number of turns of the loop,
    the backoff waits, and the scraper afterwards. *)
Record request_trace := {
  outcome : string + Z;
  attempts : Z;
  waits : list Q;
  after : scraper
}.

Definition with_breaker (self : scraper) (cb : AsyncCircuitBreaker) : scraper :=
  {| max_retries := max_retries self; circuit_breaker := cb;
     backoff := backoff self; metrics := metrics self |}.

(** the [except] block of the loop *)
Definition failed_attempt (self : scraper) (domain : string) (now : Q) : scraper :=
  {| max_retries := max_retries self;
     circuit_breaker := a_record_failure (circuit_breaker self) domain now;
     backoff := backoff self;
     metrics := record_error (metrics self) domain |}.

(** the [for attempt in range(max_retries)] loop, [n] turns left.  The
    backoff wait is made inside the [try] block, so an exception raised by
    it is handled like a failed request. *)
Fixpoint request_loop (world : Z -> attempt_world) (url domain : string) (n : nat)
    (attempt : Z) (last_error : option string) (waited : list Q) (self : scraper)
  : request_trace :=
  match n with
  | O =>
      {| outcome := inl (default ("Failed to fetch " ++ url) last_error);
         attempts := attempt; waits := waited; after := self |}
  | S k =>
      let w := world attempt in
      let delay :=
        if 0 <? attempt then get_delay (backoff self) attempt (random w) else Some 0%Q in
      match delay with
      | None =>
          request_loop world url domain k (attempt + 1)
            (Some "int too large to convert to float") waited
            (failed_attempt self domain (failure_time w))
      | Some d =>
          let waited := if 0 <? attempt then (waited ++ [d])%list else waited in
          match answer w with
          | inl message =>
              request_loop world url domain k (attempt + 1) (Some message) waited
                (failed_attempt self domain (failure_time w))
          | inr (content_length, latency) =>
              {| outcome := inr content_length;
                 attempts := attempt + 1;
                 waits := waited;
                 after :=
                   {| max_retries := max_retries self;
                      circuit_breaker := a_record_success (circuit_breaker self) domain;
                      backoff := backoff self;
                      metrics := record_request (metrics self) domain content_length
                                   latency |} |}
          end
      end
  end.

(** [AsyncScraper._make_request]; [now] is the clock reading taken by
    the check of the circuit breaker.  [None] is the [ValueError] of
    [urlparse], raised before anything else is done. *)
Definition _make_request (self : scraper) (world : Z -> attempt_world) (url : string)
    (now : Q) : option request_trace :=
  match urlparse url with
  | None => None
  | Some parsed =>
      let domain := netloc parsed in
      let '(open, cb) := a_is_open (circuit_breaker self) domain now in
      let self := with_breaker self cb in
      if open then
        Some {| outcome := inl ("Circuit breaker open for " ++ domain);
                attempts := 0; waits := []; after := self |}
      else
        Some (request_loop world url domain (Z.to_nat (max_retries self)) 0 None [] self)
  end.

(** What [scrape_course] meets: the outcome of the request for the
    course page (the exception of [_make_request], or the text of the
    response), what the content parser makes of the text (each call may
    raise; the course information is reduced to its [name] entry), the
    exception that setting up the course directory may raise, and for the
    file of each index what [asyncio.gather] collects for its download:
    an exception or the result of [_download_file]. *)
Record course_world := {
  page : string + string;
  parse_course_page : string -> string + string;
  extract_course_files : string -> string + list CourseFile;
  setup_course_directory : option string;
  download : nat -> CourseFile -> string + DownloadResult
}.

(** the loop over the collected downloads *)
Definition count_download (acc : ScrapeResult) (r : string + DownloadResult)
  : ScrapeResult :=
  match r with
  | inl exception =>
      {| sr_course_name := sr_course_name acc; sr_course_url := sr_course_url acc;
         files_found := files_found acc; files_downloaded := files_downloaded acc;
         files_failed := files_failed acc + 1;
         sr_errors := (sr_errors acc ++ [exception])%list |}
  | inr download_result =>
      if success download_result then
        {| sr_course_name := sr_course_name acc; sr_course_url := sr_course_url acc;
           files_found := files_found acc; files_downloaded := files_downloaded acc + 1;
           files_failed := files_failed acc; sr_errors := sr_errors acc |}
      else
        {| sr_course_name := sr_course_name acc; sr_course_url := sr_course_url acc;
           files_found := files_found acc; files_downloaded := files_downloaded acc;
           files_failed := files_failed acc + 1;
           sr_errors :=
             match error download_result with
             | Some message =>
                 if String.eqb message "" then sr_errors acc
                 else (sr_errors acc ++ [message])%list
             | None => sr_errors acc
             end |}
  end.

(** [AsyncScraper.scrape_course]: the whole flow runs inside one [try]
    block whose handler appends the message of the exception to the errors
    of the result built so far, and the result is returned in any case. *)
Definition scrape_course (w : course_world) (url : string) (organize : bool)
  : ScrapeResult :=
  let result :=
    {| sr_course_name := "Unknown Course"; sr_course_url := url; files_found := 0;
       files_downloaded := 0; files_failed := 0; sr_errors := [] |} in
  let raised (result : ScrapeResult) (message : string) : ScrapeResult :=
    {| sr_course_name := sr_course_name result; sr_course_url := sr_course_url result;
       files_found := files_found result; files_downloaded := files_downloaded result;
       files_failed := files_failed result;
       sr_errors := (sr_errors result ++ [message])%list |} in
  match page w with
  | inl message => raised result message
  | inr content =>
      match parse_course_page w content with
      | inl message => raised result message
      | inr name =>
          let result :=
            {| sr_course_name := name; sr_course_url := url;
               files_found := 0; files_downloaded := 0; files_failed := 0;
               sr_errors := [] |} in
          match extract_course_files w content with
          | inl message => raised result message
          | inr files =>
              let result :=
                {| sr_course_name := sr_course_name result; sr_course_url := url;
                   files_found := Z.of_nat (length files); files_downloaded := 0;
                   files_failed := 0; sr_errors := [] |} in
              match (if organize then setup_course_directory w else None) with
              | Some message => raised result message
              | None => foldl count_download result (imap (download w) files)
              end
          end
      end
  end.

End AsyncScraper.

(* ===================================================================== *)
(** * batch_processor.py *)
(* ===================================================================== *)

Module BatchProcessor.

(** [generate_worker_id(prefix)]: the prefix and the first eight
    hexadecimal digits of an MD5 digest of the prefix, the time of the
    call and a random number; the digits are supplied by the caller. *)
Definition generate_worker_id (prefix hash8 : string) : string :=
  prefix ++ "_" ++ hash8.

(** the content of a checkpoint file *)
Record checkpoint := {
  cp_batch_id : string;
  cp_started_at : string;
  cp_completed_tasks : list string
}.

(** the files on disk that matter here: checkpoint files by path *)
Record processor := {
  _checkpoint_file : option string;
  _checkpoint_data : checkpoint
}.

Definition checkpoint_path (output_dir batch_id : string) : string :=
  output_dir ++ "/.checkpoints/" ++ batch_id ++ ".json".

(** [BatchProcessor._setup_checkpoint] *)
Definition _setup_checkpoint (disk : gmap string checkpoint)
    (batch_id output_dir now : string) : processor :=
  let path := checkpoint_path output_dir batch_id in
  {| _checkpoint_file := Some path;
     _checkpoint_data :=
       match disk !! path with
       | Some data => data
       | None => {| cp_batch_id := batch_id; cp_started_at := now;
                    cp_completed_tasks := [] |}
       end |}.

(** [BatchProcessor._filter_completed_urls] *)
Definition _filter_completed_urls (self : processor) (urls : list string) : list string :=
  let completed : gset string := list_to_set (cp_completed_tasks (_checkpoint_data self)) in
  filter (fun url => url ∉ completed) urls.

(** [BatchProcessor._save_checkpoint] for a task with the given status *)
Definition _save_checkpoint (self : processor) (disk : gmap string checkpoint)
    (url status : string) : processor * gmap string checkpoint :=
  if String.eqb status "completed" then
    let data := {| cp_batch_id := cp_batch_id (_checkpoint_data self);
                   cp_started_at := cp_started_at (_checkpoint_data self);
                   cp_completed_tasks :=
                     (cp_completed_tasks (_checkpoint_data self) ++ [url])%list |} in
    ({| _checkpoint_file := _checkpoint_file self; _checkpoint_data := data |},
     match _checkpoint_file self with
     | Some path => <[path := data]> disk
     | None => disk
     end)
  else (self, disk).

(** What a run of [process_courses] did: the URLs it submitted for
    processing and the files it left on disk. *)
Record run := {
  submitted : list string;
  disk_after : gmap string checkpoint
}.

(** [BatchProcessor.process_courses] on the cooperative-task path.
    [hash8] and [now] feed the batch identifier and the start time;
    [finished] lists, in order of completion, the submitted URLs whose
    task completed before the run ended or was interrupted. *)
Definition process_courses (disk : gmap string checkpoint) (hash8 now : string)
    (urls : list string) (output_dir : string) (checkpoint_on : bool)
    (finished : list string) : run :=
  let batch_id := generate_worker_id "batch" hash8 in
  if checkpoint_on then
    let self := _setup_checkpoint disk batch_id output_dir now in
    let urls := _filter_completed_urls self urls in
    let done := filter (fun u => u ∈ urls) finished in
    {| submitted := urls;
       disk_after :=
         snd (foldl (fun '(s, d) u => _save_checkpoint s d u "completed") (self, disk) done) |}
  else {| submitted := urls; disk_after := disk |}.

(** ** Tasks *)

(** [BatchTask], reduced to the fields that the processing of a task
    reads or writes *)
Record BatchTask := {
  task_id : string;
  url : string;
  status : string;
  error : option string
}.

(** [BatchProcessor._process_single_course]: the exception that leaves
    the function or the result it returns, the task, the processor and the
    files afterwards.  [scrape_course] returns in any case; [write_error]
    is the exception raised when the checkpoint file cannot be opened for
    writing (the file is then left as it was). *)
Definition _process_single_course (self : processor) (disk : gmap string checkpoint)
    (w : AsyncScraper.course_world) (write_error : option string) (task : BatchTask)
    (organize : bool)
  : (string + Models.ScrapeResult) * BatchTask * processor * gmap string checkpoint :=
  let result := AsyncScraper.scrape_course w (url task) organize in
  let completed :=
    {| task_id := task_id task; url := url task; status := "completed";
       error := error task |} in
  match _checkpoint_file self with
  | Some _ =>
      let '(self', disk') := _save_checkpoint self disk (url task) "completed" in
      match write_error with
      | Some message =>
          (inl message,
           {| task_id := task_id task; url := url task; status := "failed";
              error := Some message |},
           self', disk)
      | None => (inr result, completed, self', disk')
      end
  | None => (inr result, completed, self, disk)
  end.

(** [BatchProcessor._process_and_update], from the increment of
    [in_progress_tasks] to its decrement in the [finally] block; the
    updates of the progress display are left out. *)
Definition _process_and_update (result : Models.BatchResult)
    (outcome : string + Models.ScrapeResult) : Models.BatchResult :=
  match outcome with
  | inr scrape_result =>
      {| Models.batch_id := Models.batch_id result;
         Models.total_tasks := Models.total_tasks result;
         Models.completed_tasks := Models.completed_tasks result + 1;
         Models.failed_tasks := Models.failed_tasks result;
         Models.in_progress_tasks := Models.in_progress_tasks result + 1 - 1;
         Models.total_files_downloaded :=
           Models.total_files_downloaded result + Models.files_downloaded scrape_result;
         Models.total_bytes_downloaded := Models.total_bytes_downloaded result;
         Models.errors := Models.errors result |}
  | inl message =>
      {| Models.batch_id := Models.batch_id result;
         Models.total_tasks := Models.total_tasks result;
         Models.completed_tasks := Models.completed_tasks result;
         Models.failed_tasks := Models.failed_tasks result + 1;
         Models.in_progress_tasks := Models.in_progress_tasks result + 1 - 1;
         Models.total_files_downloaded := Models.total_files_downloaded result;
         Models.total_bytes_downloaded := Models.total_bytes_downloaded result;
         Models.errors := (Models.errors result ++ [message])%list |}
  end.




End BatchProcessor.

(* ===================================================================== *)
(** * crawler/robots_parser.py *)
(* ===================================================================== *)

Module RobotsParser.
Import PyStr UrlParse.

(** [str.splitlines] boundaries among the ASCII characters: LF, VT, FF,
    CR, FS, GS and RS; CR LF counts as one boundary. *)
Definition is_linebreak (c : ascii) : bool :=
  let n := ord c in
  ((10 <=? n)%nat && (n <=? 13)%nat) || ((28 <=? n)%nat && (n <=? 30)%nat).

(** [s.splitlines()] *)
Fixpoint splitlines (s : string) : list string :=
  match s with
  | EmptyString => []
  | String c r =>
      if is_linebreak c then
        EmptyString ::
          match r with
          | String d r' =>
              if (ord c =? 13)%nat && (ord d =? 10)%nat then splitlines r' else splitlines r
          | EmptyString => []
          end
      else
        match splitlines r with
        | [] => [String c EmptyString]
        | l :: ls => String c l :: ls
        end
  end.

(** What [session.get(robots_url, timeout=10)] does. *)
Inductive http_result :=
| Raised (message : string)
| Response (status_code : Z) (text : string).

Section WithLibraries.

(** [urllib.robotparser.RobotFileParser] and [float] are outside the
    package: a parser is built from the lines of a robots.txt file and
    answers [can_fetch(user_agent, url)]; [py_float] is [None] where
    [float] raises [ValueError]. *)
Variable RobotFileParser : Type.
Variable rfp_parse : string -> list string -> RobotFileParser.
Variable rfp_can_fetch : RobotFileParser -> string -> string -> bool.
Variable py_float : string -> option Q.

Record robots := {
  robots_cache : gmap string RobotFileParser;
  sitemap_cache : gmap string (list string);
  crawl_delays : gmap string Q
}.

Definition new_robots : robots :=
  {| robots_cache := ∅; sitemap_cache := ∅; crawl_delays := ∅ |}.

(** [RobotsParser._get_robots_url]; [None] when [urlparse] raises. *)
Definition _get_robots_url (url : string) : option string :=
  match urlparse url with
  | None => None
  | Some parsed => Some (scheme parsed ++ "://" ++ netloc parsed ++ "/robots.txt")
  end.

(** [line.split(':', 1)[1].strip()] *)
Definition directive_value (line : string) : string :=
  strip (snd (split1 ":" line)).

(** one turn of the loop of [_parse_extended_directives] *)
Definition directive_step (domain user_agent : string)
    (acc : option string * robots) (raw_line : string) : option string * robots :=
  let '(current_user_agent, self) := acc in
  let line := strip raw_line in
  if String.eqb line "" || startswith line "#" then acc
  else if startswith (lower line) "user-agent:" then (Some (directive_value line), self)
  else
    let skip :=
      match current_user_agent with
      | Some agent =>
          negb (String.eqb agent "") && negb (String.eqb agent "*")
          && negb (String.eqb agent user_agent)
      | None => false
      end in
    if skip then acc
    else
      let self :=
        if startswith (lower line) "crawl-delay:" then
          match py_float (directive_value line) with
          | Some delay =>
              {| robots_cache := robots_cache self;
                 sitemap_cache := sitemap_cache self;
                 crawl_delays := <[domain := delay]> (crawl_delays self) |}
          | None => self
          end
        else self in
      let self :=
        if startswith (lower line) "sitemap:" then
          let sitemap_url := directive_value line in
          if startswith sitemap_url "http" then
            {| robots_cache := robots_cache self;
               sitemap_cache :=
                 <[domain := (default [] (sitemap_cache self !! domain) ++ [sitemap_url])%list]>
                   (sitemap_cache self);
               crawl_delays := crawl_delays self |}
          else self
        else self in
      (current_user_agent, self).

(** [RobotsParser._parse_extended_directives]; [None] when
    [urlparse(robots_url)] raises. *)
Definition _parse_extended_directives (self : robots)
    (robots_text robots_url user_agent : string) : option robots :=
  match urlparse robots_url with
  | None => None
  | Some parsed =>
      Some (snd (foldl (directive_step (netloc parsed) user_agent)
                       (None, self) (splitlines robots_text)))
  end.

(** [RobotsParser.fetch_robots]; the outer [None] is an exception
    leaving the function (from [_get_robots_url]). *)
Definition fetch_robots (self : robots) (net : string -> http_result)
    (url user_agent : string) : option (option RobotFileParser * robots) :=
  match _get_robots_url url with
  | None => None
  | Some robots_url =>
      match robots_cache self !! robots_url with
      | Some rp => Some (Some rp, self)
      | None =>
          match net robots_url with
          | Response status text =>
              if status =? 200 then
                let rp := rfp_parse robots_url (splitlines text) in
                let self :=
                  {| robots_cache := <[robots_url := rp]> (robots_cache self);
                     sitemap_cache := sitemap_cache self;
                     crawl_delays := crawl_delays self |} in
                match _parse_extended_directives self text robots_url user_agent with
                | Some self => Some (Some rp, self)
                | None => Some (None, self)
                end
              else Some (None, self)
          | Raised _ => Some (None, self)
          end
      end
  end.

(** [RobotsParser.can_fetch] *)
Definition can_fetch (self : robots) (net : string -> http_result)
    (url user_agent : string) : option (bool * robots) :=
  match _get_robots_url url with
  | None => None
  | Some robots_url =>
      let fetched :=
        match robots_cache self !! robots_url with
        | Some rp => Some (Some rp, self)
        | None => fetch_robots self net url user_agent
        end in
      match fetched with
      | None => None
      | Some (None, self) => Some (true, self)
      | Some (Some rp, self) => Some (rfp_can_fetch rp user_agent url, self)
      end
  end.

(** [RobotsParser.get_sitemaps] *)
Definition get_sitemaps (self : robots) (net : string -> http_result)
    (url : string) : option (list string * robots) :=
  match urlparse url with
  | None => None
  | Some parsed =>
      let domain := netloc parsed in
      let fetched :=
        match sitemap_cache self !! domain with
        | Some _ => Some self
        | None => snd <$> fetch_robots self net url "*"
        end in
      match fetched with
      | None => None
      | Some self => Some (default [] (sitemap_cache self !! domain), self)
      end
  end.

(** [RobotsParser.clear_cache] *)
Definition clear_cache (self : robots) : robots := new_robots.

(** The states a parser object can be in: the new object, and what
    the public operations make of a state, whatever the servers
    answer. *)
Inductive reachable : robots -> Prop :=
| reach_new : reachable new_robots
| reach_fetch self net url agent r self' :
    reachable self -> fetch_robots self net url agent = Some (r, self') ->
    reachable self'
| reach_can_fetch self net url agent b self' :
    reachable self -> can_fetch self net url agent = Some (b, self') ->
    reachable self'
| reach_sitemaps self net url l self' :
    reachable self -> get_sitemaps self net url = Some (l, self') ->
    reachable self'
| reach_clear self :
    reachable self -> reachable (clear_cache self).

(** a parser is cached for some robots.txt address of the host *)
Definition parser_cached_for_host (self : robots) (host : string) : Prop :=
  exists robots_url parsed,
    is_Some (robots_cache self !! robots_url)
    /\ urlparse robots_url = Some parsed /\ netloc parsed = host.

(** [RobotsParser.get_crawl_delay]; [None] when [urlparse] raises. *)
Definition get_crawl_delay (self : robots) (url : string) : option Q :=
  match urlparse url with
  | None => None
  | Some parsed => Some (default 0%Q (crawl_delays self !! netloc parsed))
  end.

(** [RobotsParser.apply_crawl_delay]: the time slept, if any; the outer
    [None] is the exception of [get_crawl_delay]. *)
Definition apply_crawl_delay (self : robots) (url : string) : option (option Q) :=
  match get_crawl_delay self url with
  | None => None
  | Some delay => Some (if Concurrency.Qltb 0 delay then Some delay else None)
  end.

End WithLibraries.

Arguments new_robots {RobotFileParser}.
Arguments robots_cache {RobotFileParser} _.
Arguments sitemap_cache {RobotFileParser} _.
Arguments crawl_delays {RobotFileParser} _.
Arguments directive_step {RobotFileParser} py_float domain user_agent acc raw_line.
Arguments _parse_extended_directives {RobotFileParser} py_float self robots_text robots_url
  user_agent.
Arguments fetch_robots {RobotFileParser} rfp_parse py_float self net url user_agent.
Arguments can_fetch {RobotFileParser} rfp_parse rfp_can_fetch py_float self net url user_agent.
Arguments get_sitemaps {RobotFileParser} rfp_parse py_float self net url.
Arguments clear_cache {RobotFileParser} self.
Arguments reachable {RobotFileParser} rfp_parse rfp_can_fetch py_float _.
Arguments parser_cached_for_host {RobotFileParser} self host.

Arguments get_crawl_delay {RobotFileParser} self url.
Arguments apply_crawl_delay {RobotFileParser} self url.

End RobotsParser.

(* ===================================================================== *)
(** * crawler/bfs_crawler.py *)
(* ===================================================================== *)

Module BFSCrawler.
Import PyStr UrlParse BaseCrawler RobotsParser.

(** What [_fetch_page] meets: an exception (of the request or of
    [raise_for_status]), a response that is not HTML, or the text of an
    HTML page. *)
Inductive page_result :=
| PageError (message : string)
| PageNotHtml
| PageHtml (text : string).

(** The outside world during a crawl; each address is answered the same
    way throughout.  The sets returned by [parse_sitemap] and
    [_extract_links] are given as lists, in the order in which the loops
    of the crawler iterate over them. *)
Record web := {
  robots_net : string -> http_result;
  parse_sitemap : string -> list string;
  find_sitemaps : string -> list string;
  page : string -> page_result;
  _extract_links : string -> string -> list string
}.

(** The state of a crawl: the queue of [(url, depth)] pairs, the sets of
    the crawler, the robots parser, the greatest depth reached, and, for
    the record, the addresses passed to [_fetch_page] and the crawl
    delays slept, latest first. *)
Record crawl_state {RobotFileParser : Type} := {
  queue : list (string * Z);
  sets : crawler;
  robots_parser : robots RobotFileParser;
  depth_reached : Z;
  fetched : list string;
  slept : list Q
}.
Arguments crawl_state RobotFileParser : clear implicits.

Section WithLibraries.

Variable RobotFileParser : Type.
Variable rfp_parse : string -> list string -> RobotFileParser.
Variable rfp_can_fetch : RobotFileParser -> string -> string -> bool.
Variable py_float : string -> option Q.

Variable config : crawler_config.
Variable w : web.

(** [BaseCrawler._fetch_page]: the text returned, and the sets afterwards *)
Definition _fetch_page (self : crawler) (url : string) : option string * crawler :=
  match page w url with
  | PageError message =>
      (None, {| visited := visited self; discovered := discovered self;
                failed := <[url := message]> (failed self) |})
  | PageNotHtml => (None, self)
  | PageHtml text => (Some text, self)
  end.

(** the loop [for url in sitemap_urls] of one sitemap *)
Definition add_sitemap_urls (st : crawl_state RobotFileParser) (urls : list string) : crawl_state RobotFileParser :=
  foldl (fun st url =>
           if _is_valid_url config url && negb (bool_decide (url ∈ discovered (sets st)))
           then {| queue := (queue st ++ [(url, 1)])%list;
                   sets := {| visited := visited (sets st);
                              discovered := {[url]} ∪ discovered (sets st);
                              failed := failed (sets st) |};
                   robots_parser := robots_parser st;
                   depth_reached := depth_reached st;
                   fetched := fetched st; slept := slept st |}
           else st) st urls.

(** the loop [for sitemap_url in sitemaps] *)
Definition add_sitemaps (st : crawl_state RobotFileParser) (sitemaps : list string) : crawl_state RobotFileParser :=
  foldl (fun st sitemap_url => add_sitemap_urls st (parse_sitemap w sitemap_url)) st sitemaps.

(** the loop [for link in links]; [None] when [_should_crawl_url] raises *)
Fixpoint add_links (st : crawl_state RobotFileParser) (depth : Z) (links : list string) : option (crawl_state RobotFileParser) :=
  match links with
  | [] => Some st
  | link :: rest =>
      if bool_decide (link ∈ discovered (sets st)) then add_links st depth rest
      else
        match _should_crawl_url config (sets st) link with
        | None => None
        | Some false => add_links st depth rest
        | Some true =>
            add_links
              {| queue := (queue st ++ [(link, depth + 1)])%list;
                 sets := {| visited := visited (sets st);
                            discovered := {[link]} ∪ discovered (sets st);
                            failed := failed (sets st) |};
                 robots_parser := robots_parser st;
                 depth_reached := depth_reached st;
                 fetched := fetched st; slept := slept st |}
              depth rest
        end
  end.

(** the part of a turn of the loop from [_fetch_page] on *)
Definition fetch_and_follow (st : crawl_state RobotFileParser) (current_url : string) (depth : Z) : option (crawl_state RobotFileParser) :=
  let '(html_content, self) := _fetch_page (sets st) current_url in
  let st := {| queue := queue st; sets := self; robots_parser := robots_parser st;
               depth_reached := depth_reached st;
               fetched := current_url :: fetched st; slept := slept st |} in
  match html_content with
  | Some (String c text) =>
      add_links
        {| queue := queue st;
           sets := {| visited := {[current_url]} ∪ visited (sets st);
                      discovered := discovered (sets st);
                      failed := failed (sets st) |};
           robots_parser := robots_parser st;
           depth_reached := depth_reached st;
           fetched := fetched st; slept := slept st |}
        depth (_extract_links w (String c text) current_url)
  | _ =>
      Some {| queue := queue st;
              sets := {| visited := visited (sets st);
                         discovered := discovered (sets st);
                         failed := match failed (sets st) !! current_url with
                                   | Some _ => failed (sets st)
                                   | None => <[current_url := "Failed to fetch"]>
                                               (failed (sets st))
                                   end |};
              robots_parser := robots_parser st;
              depth_reached := depth_reached st;
              fetched := fetched st; slept := slept st |}
  end.

(** One turn of the [while queue] loop on a state whose queue starts
    with [(current_url, depth)] and goes on with [rest]; the check of the
    limit has passed.  [None] is an exception. *)
Definition turn (st : crawl_state RobotFileParser) (current_url : string) (depth : Z) (rest : list (string * Z))
  : option (crawl_state RobotFileParser) :=
  let st := {| queue := rest; sets := sets st; robots_parser := robots_parser st;
               depth_reached := depth_reached st;
               fetched := fetched st; slept := slept st |} in
  if (0 <=? max_depth config) && (max_depth config <? depth) then Some st
  else
    let st := {| queue := queue st; sets := sets st; robots_parser := robots_parser st;
                 depth_reached := Z.max (depth_reached st) depth;
                 fetched := fetched st; slept := slept st |} in
    if bool_decide (current_url ∈ visited (sets st)) then Some st
    else if respect_robots config then
      match can_fetch rfp_parse rfp_can_fetch py_float (robots_parser st) (robots_net w)
              current_url "*" with
      | None => None
      | Some (false, rp) =>
          Some {| queue := queue st;
                  sets := {| visited := visited (sets st);
                             discovered := discovered (sets st);
                             failed := <[current_url := "Disallowed by robots.txt"]>
                                         (failed (sets st)) |};
                  robots_parser := rp;
                  depth_reached := depth_reached st;
                  fetched := fetched st; slept := slept st |}
      | Some (true, rp) =>
          match apply_crawl_delay rp current_url with
          | None => None
          | Some delay =>
              fetch_and_follow
                {| queue := queue st; sets := sets st; robots_parser := rp;
                   depth_reached := depth_reached st;
                   fetched := fetched st;
                   slept := match delay with
                            | Some d => d :: slept st
                            | None => slept st
                            end |}
                current_url depth
          end
      end
    else fetch_and_follow st current_url depth.

(** The [while queue] loop with at most [fuel] turns: the state
    reached, and whether the loop has ended (by an empty queue or by the
    limit on the visited URLs); [None] is an exception. *)
Fixpoint crawl_loop (fuel : nat) (st : crawl_state RobotFileParser) : option (crawl_state RobotFileParser * bool) :=
  match queue st with
  | [] => Some (st, true)
  | (current_url, depth) :: rest =>
      if (0 <? max_urls config) && (max_urls config <=? Z.of_nat (size (visited (sets st))))
      then Some (st, true)
      else
        match fuel with
        | O => Some (st, false)
        | S k =>
            match turn st current_url depth rest with
            | None => None
            | Some st' => crawl_loop k st'
            end
        end
  end.

(** What a call of [crawl] comes to: an exception, a result, or a loop
    still running after [fuel] turns. *)
Inductive crawl_outcome :=
| CrawlRaised
| CrawlReturned (result : CrawlResult) (final : crawl_state RobotFileParser)
| CrawlRunning (current : crawl_state RobotFileParser).

(** [BFSCrawler.crawl]; the crawler is reset first, so its earlier sets
    play no part, but the robots parser keeps its cache. *)
Definition crawl (robots0 : robots RobotFileParser) (start_url : string)
    (use_sitemap : bool) (fuel : nat) : crawl_outcome :=
  match _normalize_url start_url with
  | None => CrawlRaised
  | Some start_url =>
      let st :=
        {| queue := [(start_url, 0)];
           sets := {| visited := ∅; discovered := {[start_url]}; failed := ∅ |};
           robots_parser := robots0; depth_reached := 0; fetched := []; slept := [] |} in
      let after_robots
        : option (crawl_state RobotFileParser
                  + CrawlResult * crawl_state RobotFileParser) :=
        if respect_robots config then
          match can_fetch rfp_parse rfp_can_fetch py_float robots0 (robots_net w)
                  start_url "*" with
          | None => None
          | Some (false, rp) =>
              Some (inr ({| BaseCrawler.start_url := start_url; discovered_urls := ∅;
                            visited_urls := ∅;
                            failed_urls := {[start_url := "Disallowed by robots.txt"]};
                            max_depth_reached := 0 |},
                         {| queue := queue st; sets := sets st; robots_parser := rp;
                            depth_reached := 0; fetched := []; slept := [] |}))
          | Some (true, rp) =>
              let st := {| queue := queue st; sets := sets st; robots_parser := rp;
                           depth_reached := 0; fetched := []; slept := [] |} in
              if use_sitemap then
                match get_sitemaps rfp_parse py_float rp (robots_net w) start_url with
                | None => None
                | Some (sitemaps, rp) =>
                    Some (inl (add_sitemaps
                                 {| queue := queue st; sets := sets st; robots_parser := rp;
                                    depth_reached := 0; fetched := []; slept := [] |}
                                 sitemaps))
                end
              else Some (inl st)
          end
        else Some (inl st) in
      match after_robots with
      | None => CrawlRaised
      | Some (inr (result, st)) => CrawlReturned result st
      | Some (inl st) =>
          let st :=
            if use_sitemap && bool_decide (discovered (sets st) = ∅)
            then add_sitemaps st (find_sitemaps w start_url)
            else st in
          match crawl_loop fuel st with
          | None => CrawlRaised
          | Some (st, false) => CrawlRunning st
          | Some (st, true) =>
              CrawlReturned
                {| BaseCrawler.start_url := start_url;
                   discovered_urls := discovered (sets st);
                   visited_urls := visited (sets st);
                   failed_urls := failed (sets st);
                   max_depth_reached := depth_reached st |}
                st
          end
      end
  end.

End WithLibraries.

Arguments add_sitemap_urls {RobotFileParser} config st urls.
Arguments add_sitemaps {RobotFileParser} config w st sitemaps.
Arguments add_links {RobotFileParser} config st depth links.
Arguments fetch_and_follow {RobotFileParser} config w st current_url depth.
Arguments turn {RobotFileParser} rfp_parse rfp_can_fetch py_float config w st current_url
  depth rest.
Arguments crawl_loop {RobotFileParser} rfp_parse rfp_can_fetch py_float config w fuel st.
Arguments CrawlRaised {RobotFileParser}.
Arguments CrawlReturned {RobotFileParser} result final.
Arguments CrawlRunning {RobotFileParser} current.
Arguments crawl {RobotFileParser} rfp_parse rfp_can_fetch py_float config w robots0 start_url
  use_sitemap fuel.

End BFSCrawler.

(* ===================================================================== *)
(** * Vocabulary of the properties *)
(* ===================================================================== *)

Section Vocabulary.
Import PyStr UrlParse Concurrency RobotsParser.

(** the last character of a string *)
Fixpoint last_char (s : string) : option ascii :=
  match s with
  | EmptyString => None
  | String c EmptyString => Some c
  | String _ r => last_char r
  end.

(** a character class that does not tell a letter from its lower case *)
Definition lower_invariant (p : ascii -> bool) : Prop :=
  forall c, p (lower_char c) = p c.

(** the parts of a parse result, each in lower case *)
Definition lower_result (r : ParseResult) : ParseResult :=
  {| scheme := lower (scheme r); netloc := lower (netloc r); path := lower (path r);
     params := lower (params r); query := lower (query r);
     fragment := lower (fragment r) |}.

(** [s] without one trailing slash, when [s] has more than one character *)
Definition strip_slash (s : string) : string :=
  if endswith s "/" && (1 <? len s) then drop_last s else s.

(** what is known of the scheme and the network location of a parsed URL *)
Record clean_parts (r : ParseResult) : Prop := {
  clean_scheme :
    scheme r = "" \/
    exists c0 rest, scheme r = String c0 rest /\ is_alpha c0 = true
                    /\ all_chars is_scheme_char (scheme r) = true;
  clean_netloc_delim : all_chars (fun c => negb (is_netloc_delim c)) (netloc r) = true;
  clean_netloc_unsafe : all_chars (fun c => negb (is_unsafe c)) (netloc r) = true;
  clean_brackets : brackets_ok (netloc r) = true
}.

Section QueueVocabulary.
Context {A : Type}.
Local Open Scope list_scope.

(** The order a priority queue owes its callers: [out] lists the items of
    [xs], the [(item, priority)] pairs in the order they were put, by
    descending priority, and items of equal priority keep the order in
    which they were put. *)
Definition priority_fifo_order (xs : list (A * Z)) (out : list A) : Prop :=
  exists ys : list (A * Z),
    out = ys.*1
    /\ ys ≡ₚ xs
    /\ StronglySorted (fun a b => b.2 <= a.2) ys
    /\ forall p, filter (fun x => x.2 = p) ys = filter (fun x => x.2 = p) xs.

Definition swap_entry (e : Z * A) : A * Z := (e.2, e.1).
Definition swap_pair (x : A * Z) : Z * A := (x.2, x.1).

(** the list held by the blocking queue after a list of puts *)
Definition insert_all (q : list (Z * A)) (xs : list (A * Z)) : list (Z * A) :=
  foldl (fun q x => insert_by_priority x.2 x.1 q) q xs.

Definition entry_pair (e : Z * Z * A) : A * Z := (e.2, - e.1.1).

(** the entries that putting [xs] adds when the counter stands at [c] *)
Fixpoint tagged (c : Z) (xs : list (A * Z)) : list (Z * Z * A) :=
  match xs with
  | [] => []
  | x :: rest => (- x.2, c + 1, x.1) :: tagged (c + 1) rest
  end.

(** what [get] takes out of a list of entries, one after the other *)
Fixpoint pop_all (n : nat) (l : list (Z * Z * A)) : list (Z * Z * A) :=
  match n with
  | O => []
  | S k =>
      match pop_least l with
      | None => []
      | Some (m, rest) => m :: pop_all k rest
      end
  end.

End QueueVocabulary.

Section RobotsVocabulary.
Variable RobotFileParser : Type.

(** Sitemaps are only ever recorded for a host together with a parser
    for a robots.txt address of that host. *)
Definition sitemaps_have_parser (self : robots RobotFileParser) : Prop :=
  forall d, is_Some (sitemap_cache self !! d) -> parser_cached_for_host self d.

End RobotsVocabulary.

End Vocabulary.

Arguments sitemaps_have_parser {RobotFileParser} self.

Section RunVocabulary.
Import Concurrency.

(** A run of acquires for one key on the cooperative rate limiter, the
    first at the clock reading [current]: each call is a pair of its own
    overhead [lag] and of the time [gap] the caller lets pass after it
    before calling again.  The result lists the clock readings at which
    the calls complete. *)
Fixpoint async_acquire_run (L : RateLimiter) (domain : option string) (current : Q)
    (calls : list (Q * Q)) : list Q :=
  match calls with
  | [] => []
  | (lag, gap) :: rest =>
      let r := async_acquire L domain current lag in
      snd r :: async_acquire_run (fst r) domain (snd r + gap)%Q rest
  end.

End RunVocabulary.

Section MetricsVocabulary.
Import SessionManager.


End MetricsVocabulary.

Section HostVocabulary.
Import PyStr UrlParse.

(** the characters a host name is made of here: none that ends the
    network location, none that [urlsplit] removes, no square bracket *)
Definition host_char (c : ascii) : bool :=
  negb (is_netloc_delim c) && negb (is_unsafe c)
  && negb (Ascii.eqb "[" c) && negb (Ascii.eqb "]" c).

End HostVocabulary.

Section RobotsVocabulary.
Import PyStr RobotsParser.
Context {RobotFileParser : Type}.

(** the sitemap addresses that a robots parser has recorded all start
    with [http] *)
Definition http_only (self : robots RobotFileParser) : Prop :=
  forall d l, sitemap_cache self !! d = Some l ->
              Forall (fun u => startswith u "http" = true) l.

End RobotsVocabulary.

Section CrawlVocabulary.
Import BaseCrawler BFSCrawler.
Context {RobotFileParser : Type}.

(** What holds of the state of a breadth-first crawl at every turn of its
    loop: the visited URLs are discovered ones and respect the limit; the
    URLs waiting in the queue are discovered, distinct, not yet requested
    and at a depth that is not negative; no URL was requested twice, the
    requested URLs are discovered ones and the visited URLs are among
    them; the greatest depth reached respects the limit on the depth. *)
Record crawl_invariant (config : crawler_config) (st : crawl_state RobotFileParser)
  : Prop := {
  inv_visited : visited (sets st) ⊆ discovered (sets st);
  inv_limit :
    0 < max_urls config -> Z.of_nat (size (visited (sets st))) <= max_urls config;
  inv_queue :
    forall u d, (u, d) ∈ queue st ->
                u ∈ discovered (sets st) /\ (u ∉ fetched st) /\ 0 <= d;
  inv_queue_distinct : NoDup (queue st).*1;
  inv_fetched_once : NoDup (fetched st);
  inv_fetched_discovered : forall u, u ∈ fetched st -> u ∈ discovered (sets st);
  inv_visited_fetched : forall u, u ∈ visited (sets st) -> u ∈ fetched st;
  inv_depth :
    0 <= depth_reached st
    /\ (0 <= max_depth config -> depth_reached st <= max_depth config)
}.

(** the number of turns that the loop can still make, when a page
    yields at most [bound] links and the limit on the visited URLs is set *)
Definition turns_left (config : crawler_config) (bound : nat)
    (st : crawl_state RobotFileParser) : nat :=
  length (queue st) + (Z.to_nat (max_urls config) - size (visited (sets st))) * bound.

End CrawlVocabulary.

(* ===================================================================== *)
(** * Properties *)
(* ===================================================================== *)

(** ** Strings *)

Section StringFacts.
Import PyStr.

Lemma append_nil (t : string) : "" ++ t = t.
Proof. reflexivity. Qed.

Lemma append_cons (c : ascii) (s t : string) : String c s ++ t = String c (s ++ t).
Proof. reflexivity. Qed.

Lemma append_empty_r (s : string) : s ++ "" = s.
Proof.
  induction s as [|c s IH]; [reflexivity | now rewrite append_cons, IH].
Qed.

Lemma append_assoc (a b c : string) : (a ++ b) ++ c = a ++ (b ++ c).
Proof.
  induction a as [|x a IH]; [reflexivity | now rewrite !append_cons, IH].
Qed.

Lemma prefix_app (p s : string) :
  String.prefix p s = true <-> exists v, s = p ++ v.
Proof.
  revert s. induction p as [|c p IH]; intros s.
  - split; [intros _; now exists s | intros _; now destruct s].
  - destruct s as [|d s]; simpl.
    + split; [discriminate | intros [v Hv]; discriminate].
    + destruct (Ascii.ascii_dec c d) as [->|Hne].
      * rewrite IH. split; intros [v Hv]; exists v.
        -- now rewrite append_cons, Hv.
        -- rewrite append_cons in Hv. now inversion Hv.
      * split; [discriminate |].
        intros [v Hv]. rewrite append_cons in Hv. congruence.
Qed.

(** [sub in s] holds exactly when [s] is [u ++ sub ++ v]. *)
Lemma contains_app (sub s : string) :
  contains sub s = true <-> exists u v, s = u ++ sub ++ v.
Proof.
  induction s as [|c s IH]; cbn [contains].
  - rewrite orb_false_r, prefix_app. split.
    + intros [v Hv]. now exists "", v.
    + intros [u [v Huv]]. destruct u; [now exists v | discriminate].
  - rewrite orb_true_iff, IH, prefix_app. split.
    + intros [[v Hv] | [u [v Huv]]].
      * now exists "", v.
      * exists (String c u), v. now rewrite append_cons, Huv.
    + intros [u [v Huv]]. destruct u as [|d u].
      * left. now exists v.
      * right. exists u, v. rewrite append_cons in Huv. now inversion Huv.
Qed.

Lemma contains_trans (small big s : string) :
  contains small big = true -> contains big s = true -> contains small s = true.
Proof.
  rewrite !contains_app. intros [a [b ->]] [u [v ->]].
  exists (u ++ a), (b ++ v). now rewrite !append_assoc.
Qed.

Lemma endswith_nil (suf : string) : endswith "" suf = true -> suf = "".
Proof.
  cbn [endswith]. rewrite orb_false_r. intros H. apply String.eqb_eq in H. congruence.
Qed.

Lemma endswith_last_char (s suf : string) :
  endswith s suf = true -> suf <> "" -> last_char s = last_char suf.
Proof.
  induction s as [|c s IH]; intros H Hne.
  - apply endswith_nil in H. contradiction.
  - cbn [endswith] in H. apply orb_true_iff in H as [H|H].
    + apply String.eqb_eq in H. now rewrite H.
    + specialize (IH H Hne). destruct s as [|d s]; [|exact IH].
      apply endswith_nil in H. contradiction.
Qed.

Lemma endswith_other_last (s a b : string) :
  endswith s a = true -> a <> "" -> b <> "" -> last_char a <> last_char b ->
  endswith s b = false.
Proof.
  intros Ha Hna Hnb Hdiff. destruct (endswith s b) eqn:Hb; [|reflexivity].
  apply endswith_last_char in Ha; [|assumption].
  apply endswith_last_char in Hb; [|assumption]. congruence.
Qed.

End StringFacts.

(** ** models.py: the success rate of a batch *)

Section BatchResultFacts.
Import Models.

(** C9. For every BatchResult, [success_rate] returns a value (the
    division by zero is never reached): 0 when [total_tasks] is 0, and
    [completed_tasks / total_tasks] otherwise, in particular when
    [total_tasks > 0]; with 10 tasks of which 7 completed it is 0.7. *)
Theorem success_rate_defined (r : BatchResult) :
  (total_tasks r = 0 -> success_rate r = Some 0%Q)
  /\ (0 < total_tasks r ->
      success_rate r = Some (inject_Z (completed_tasks r) / inject_Z (total_tasks r))%Q)
  /\ success_rate r <> None
  /\ (total_tasks r = 10 -> completed_tasks r = 7 ->
      exists q, success_rate r = Some q /\ (q == 0.7)%Q).
Proof.
  unfold success_rate, truediv. repeat split.
  - intros ->. reflexivity.
  - intros Hpos. destruct (Z.eqb_spec (total_tasks r) 0); [lia | reflexivity].
  - destruct (Z.eqb_spec (total_tasks r) 0); discriminate.
  - intros -> ->. simpl. eexists; split; reflexivity.
Qed.

End BatchResultFacts.

(** ** parser.py: the type of a file *)

Section FileTypeFacts.
Import PyStr Models UrlParse Parser.

(** C10, as the claim states it, fails: the path of this URL ends in
    [.pdf], no file name and no link element are given, and the result
    is [other], because the whole URL string, query included, is what is
    tested for the extension. *)
Lemma pdf_path_with_query_is_other :
  (path <$> urlparse "http://a.com/f.pdf?v=2") = Some "/f.pdf"
  /\ endswith "/f.pdf" ".pdf" = true
  /\ detect_file_type "http://a.com/f.pdf?v=2" None None = OTHER.
Proof. repeat split; vm_compute; reflexivity. Qed.

(** C10, amended. For every URL string that itself ends in [.pdf], in any
    letter case (so with no query or fragment after the path), given no
    file name and no link element, [detect_file_type] returns
    [lecture_slide]: the table is read in its order of declaration and
    [.pdf] is met first in the entry of [lecture_slide]. *)
Theorem pdf_url_is_lecture_slide (url : string) :
  endswith (lower url) ".pdf" = true ->
  detect_file_type url None None = LECTURE_SLIDE.
Proof.
  intros H. unfold detect_file_type. simpl default. rewrite append_empty_r.
  assert (Hno : forall ext, ext <> "" -> last_char ".pdf" <> last_char ext ->
                            endswith (lower url) ext = false).
  { intros ext Hne Hl. apply (endswith_other_last _ ".pdf"); try assumption. discriminate. }
  unfold FILE_TYPE_EXTENSIONS. cbn [by_extension existsb].
  rewrite !Hno by (simpl; discriminate). cbn [orb].
  rewrite H. reflexivity.
Qed.

Lemma pdf_url_is_lecture_slide_witness :
  detect_file_type "https://cs.example.edu/Week3/Notes.PDF" None None = LECTURE_SLIDE.
Proof. apply pdf_url_is_lecture_slide. vm_compute. reflexivity. Defined.

End FileTypeFacts.

(** ** scraper/js_renderer.py: the dynamic-content score *)

Section JSDetectorFacts.
Import PyStr JSRenderer.

Variable body_text : string -> option string.

(** C8. For any HTML document that holds exactly 7 [<script] tags, an
    [onclick=] handler and a [<div id="root">] element, no AJAX
    indicator ([XMLHttpRequest], [fetch(]), no initial-state global
    ([__INITIAL_DATA__], [window.__]) and at least 100 characters of body
    text, [detect_javascript] computes the score
    [min(7*5, 30) + 10 + 20 = 60] and, 60 being above the threshold of 50,
    reports that rendering is required. *)
Theorem seven_scripts_score_60 (html_content text : string) :
  count html_content "<script" = 7 ->
  contains "onclick=" html_content = true ->
  contains ("<div " ++ id_root ++ ">") html_content = true ->
  contains "XMLHttpRequest" html_content = false ->
  contains "fetch(" html_content = false ->
  contains "__INITIAL_DATA__" html_content = false ->
  contains "window.__" html_content = false ->
  body_text html_content = Some text ->
  100 <= len (strip text) ->
  _calculate_js_score body_text html_content = Some (Z.min (7 * 5) 30 + 10 + 20)
  /\ exists d,
       detect_javascript body_text html_content = Some d
       /\ dynamic_content_score d = 60
       /\ requires_js_rendering d = true.
Proof.
  intros Hscripts Hclick Hroot Hxhr Hfetch Hdata Hwin Hbody Hlen.
  assert (Hid : contains id_root html_content = true).
  { apply (contains_trans _ ("<div " ++ id_root ++ ">")); [vm_compute; reflexivity | exact Hroot]. }
  assert (Hscore : _calculate_js_score body_text html_content = Some 60).
  { unfold _calculate_js_score. cbn [existsb].
    rewrite Hscripts, Hclick, Hxhr, Hfetch, Hdata, Hwin, Hid, Hbody.
    rewrite !orb_true_r. cbn [orb].
    destruct (Z.ltb_spec (len (strip text)) 100); [lia | reflexivity]. }
  split; [exact Hscore |].
  unfold detect_javascript. rewrite Hscore. cbn [Z.ltb Z.compare Pos.compare Pos.compare_cont].
  eexists. split; [reflexivity | split; reflexivity].
Qed.

End JSDetectorFacts.

Lemma seven_scripts_score_60_witness :
  exists d,
    JSRenderer.detect_javascript
      (fun _ =>
         Some "Course notes, weekly readings, problem sets and past examinations are all listed on this page for enrolled students.")
      ("<html><head><script></script><script></script><script></script><script></script>"
       ++ "<script></script><script></script><script></script></head><body>"
       ++ "<div " ++ JSRenderer.id_root ++ "><a onclick=go()>open</a></div></body></html>")
    = Some d
    /\ JSRenderer.dynamic_content_score d = 60
    /\ JSRenderer.requires_js_rendering d = true.
Proof.
  eapply (seven_scripts_score_60 _ _ _); vm_compute; first [reflexivity | discriminate].
Defined.

(** ** concurrency.py: the circuit breakers *)

Section CircuitBreakerFacts.
Import Concurrency.

Lemma Qltb_true (a b : Q) : Qltb a b = true <-> (a < b)%Q.
Proof.
  unfold Qltb. rewrite negb_true_iff. split.
  - intros H. apply Qnot_le_lt. intros Hle. apply Qle_bool_iff in Hle. congruence.
  - intros H. destruct (Qle_bool b a) eqn:E; [|reflexivity].
    apply Qle_bool_iff in E. lra.
Qed.

Lemma Qltb_false (a b : Q) : Qltb a b = false <-> (b <= a)%Q.
Proof.
  unfold Qltb. rewrite negb_false_iff. apply Qle_bool_iff.
Qed.

Lemma dd_get_lookup {V : Type} (dflt : V) (d : gmap string V) (k : string) :
  snd (dd_get dflt d k) !! k = Some (fst (dd_get dflt d k)).
Proof.
  unfold dd_get. destruct (d !! k) eqn:E; simpl; [exact E | apply lookup_insert_eq].
Qed.

Lemma dd_get_insert {V : Type} (dflt v : V) (d : gmap string V) (k : string) :
  fst (dd_get dflt (<[k := v]> d) k) = v.
Proof. unfold dd_get. now rewrite lookup_insert_eq. Qed.

Lemma dd_get_snd_fst {V : Type} (dflt : V) (d : gmap string V) (k : string) :
  fst (dd_get dflt (snd (dd_get dflt d k)) k) = fst (dd_get dflt d k).
Proof. unfold dd_get at 1. now rewrite dd_get_lookup. Qed.

(** *** The blocking variant *)

Lemma record_failure_count cb X t :
  failures_of (record_failure cb X t) X = failures_of cb X + 1.
Proof.
  unfold failures_of, record_failure.
  destruct (dd_get 0 (_failures cb) X) as [n fs] eqn:E. cbn [_failures fst].
  now rewrite dd_get_insert.
Qed.

Lemma record_failure_config cb X t :
  failure_threshold (record_failure cb X t) = failure_threshold cb
  /\ timeout (record_failure cb X t) = timeout cb
  /\ half_open_max (record_failure cb X t) = half_open_max cb.
Proof.
  unfold record_failure. destruct (dd_get 0 (_failures cb) X). now cbn.
Qed.

Lemma record_failure_last cb X t :
  _last_failure (record_failure cb X t) !! X = Some t.
Proof.
  unfold record_failure. destruct (dd_get 0 (_failures cb) X). cbn.
  apply lookup_insert_eq.
Qed.

Lemma record_failure_trips cb X t :
  failure_threshold cb <= failures_of cb X + 1 ->
  get_state (record_failure cb X t) X = "open".
Proof.
  unfold failures_of, get_state, record_failure.
  destruct (dd_get 0 (_failures cb) X) as [n fs]. cbn [fst _state]. intros H.
  destruct (Z.leb_spec (failure_threshold cb) (n + 1)); [|lia].
  apply dd_get_insert.
Qed.

Lemma is_open_within_timeout cb X now t :
  get_state cb X = "open" ->
  _last_failure cb !! X = Some t ->
  (now - t <= timeout cb)%Q ->
  exists cb',
    is_open cb X now = (true, cb')
    /\ get_state cb' X = "open"
    /\ _last_failure cb' = _last_failure cb
    /\ timeout cb' = timeout cb
    /\ half_open_max cb' = half_open_max cb.
Proof.
  unfold get_state, is_open. intros Hst Hlast Hle.
  pose proof (dd_get_snd_fst "closed" (_state cb) X) as Hagain.
  destruct (dd_get "closed" (_state cb) X) as [st states]. cbn [fst snd] in *.
  subst st. cbn [String.eqb Ascii.eqb Bool.eqb]. rewrite Hlast. change (default 0%Q (Some t)) with t.
  destruct (Qltb (timeout cb) (now - t)) eqn:E.
  - apply Qltb_true in E. lra.
  - eexists. split; [reflexivity |]. cbn. repeat split. exact Hagain.
Qed.

Lemma is_open_after_timeout cb X now t :
  get_state cb X = "open" ->
  _last_failure cb !! X = Some t ->
  (timeout cb < now - t)%Q ->
  exists cb',
    is_open cb X now = (false, cb')
    /\ get_state cb' X = "half_open"
    /\ _half_open_count cb' !! X = Some 0
    /\ half_open_max cb' = half_open_max cb.
Proof.
  unfold get_state, is_open. intros Hst Hlast Hlt.
  destruct (dd_get "closed" (_state cb) X) as [st states]. cbn [fst snd] in *.
  subst st. cbn [String.eqb Ascii.eqb Bool.eqb]. rewrite Hlast. change (default 0%Q (Some t)) with t.
  destruct (Qltb (timeout cb) (now - t)) eqn:E.
  - eexists. split; [reflexivity |]. cbn. repeat split.
    + apply dd_get_insert.
    + apply lookup_insert_eq.
  - apply Qltb_false in E. lra.
Qed.

Lemma record_success_closes cb X n :
  get_state cb X = "half_open" ->
  _half_open_count cb !! X = Some n ->
  half_open_max cb <= n + 1 ->
  failures_of (record_success cb X) X = 0
  /\ get_state (record_success cb X) X = "closed".
Proof.
  unfold get_state, failures_of, record_success. intros Hst Hcount Hmax.
  destruct (dd_get "closed" (_state cb) X) as [st states]. cbn [fst] in Hst.
  subst st. cbn [String.eqb Ascii.eqb Bool.eqb].
  destruct (dd_get 0 (_half_open_count cb) X) as [m counts] eqn:Ec.
  unfold dd_get in Ec. rewrite Hcount in Ec. injection Ec as <- <-.
  destruct (Z.leb_spec (half_open_max cb) (n + 1)); [|lia].
  cbn [_failures _state]. split; apply dd_get_insert.
Qed.

(** *** The cooperative variant *)

Lemma a_record_failure_count cb X t :
  a_failures_of (a_record_failure cb X t) X = a_failures_of cb X + 1.
Proof.
  unfold a_failures_of, a_record_failure.
  destruct (dd_get 0 (a_failures cb) X) as [n fs] eqn:E. cbn [a_failures fst].
  now rewrite dd_get_insert.
Qed.

Lemma a_record_failure_config cb X t :
  a_failure_threshold (a_record_failure cb X t) = a_failure_threshold cb
  /\ a_timeout (a_record_failure cb X t) = a_timeout cb.
Proof.
  unfold a_record_failure. destruct (dd_get 0 (a_failures cb) X). now cbn.
Qed.

Lemma a_record_failure_last cb X t :
  a_last_failure (a_record_failure cb X t) !! X = Some t.
Proof.
  unfold a_record_failure. destruct (dd_get 0 (a_failures cb) X). cbn.
  apply lookup_insert_eq.
Qed.

Lemma a_record_failure_trips cb X t :
  a_failure_threshold cb <= a_failures_of cb X + 1 ->
  a_get_state (a_record_failure cb X t) X = "open".
Proof.
  unfold a_failures_of, a_get_state, a_record_failure.
  destruct (dd_get 0 (a_failures cb) X) as [n fs]. cbn [fst a_state]. intros H.
  destruct (Z.leb_spec (a_failure_threshold cb) (n + 1)); [|lia].
  apply dd_get_insert.
Qed.

Lemma a_is_open_within_timeout cb X now t :
  a_get_state cb X = "open" ->
  a_last_failure cb !! X = Some t ->
  (now - t <= a_timeout cb)%Q ->
  exists cb',
    a_is_open cb X now = (true, cb')
    /\ a_get_state cb' X = "open"
    /\ a_last_failure cb' = a_last_failure cb
    /\ a_timeout cb' = a_timeout cb.
Proof.
  unfold a_get_state, a_is_open. intros Hst Hlast Hle.
  pose proof (dd_get_snd_fst "closed" (a_state cb) X) as Hagain.
  destruct (dd_get "closed" (a_state cb) X) as [st states]. cbn [fst snd] in *.
  subst st. cbn [String.eqb Ascii.eqb Bool.eqb]. rewrite Hlast. change (default 0%Q (Some t)) with t.
  destruct (Qltb (a_timeout cb) (now - t)) eqn:E.
  - apply Qltb_true in E. lra.
  - eexists. split; [reflexivity |]. cbn. repeat split. exact Hagain.
Qed.

Lemma a_is_open_after_timeout cb X now t :
  a_get_state cb X = "open" ->
  a_last_failure cb !! X = Some t ->
  (a_timeout cb < now - t)%Q ->
  exists cb',
    a_is_open cb X now = (false, cb')
    /\ a_get_state cb' X = "half_open".
Proof.
  unfold a_get_state, a_is_open. intros Hst Hlast Hlt.
  destruct (dd_get "closed" (a_state cb) X) as [st states]. cbn [fst snd] in *.
  subst st. cbn [String.eqb Ascii.eqb Bool.eqb]. rewrite Hlast. change (default 0%Q (Some t)) with t.
  destruct (Qltb (a_timeout cb) (now - t)) eqn:E.
  - eexists. split; [reflexivity |]. cbn. apply dd_get_insert.
  - apply Qltb_false in E. lra.
Qed.

Lemma a_record_success_closes cb X :
  a_get_state cb X = "half_open" ->
  a_failures_of (a_record_success cb X) X = 0
  /\ a_get_state (a_record_success cb X) X = "closed".
Proof.
  unfold a_get_state, a_failures_of, a_record_success. intros Hst.
  destruct (dd_get "closed" (a_state cb) X) as [st states]. cbn [fst] in Hst.
  subst st. cbn [String.eqb Ascii.eqb Bool.eqb].
  cbn [a_failures a_state]. split; apply dd_get_insert.
Qed.

(** C5. With [failure_threshold = 5] and [timeout = 60] seconds, for any
    service [X] that starts closed: five consecutive [record_failure]
    calls make [is_open X] return true (while no more than 60 seconds have
    passed since the last failure); once more than 60 seconds have
    passed since the last recorded failure, the next [is_open X] returns
    false and moves [X] to [half_open]; a following [record_success X]
    (one success is enough with [half_open_max = 1]) sets the failure
    count of [X] to 0 and returns [X] to [closed].  This holds for the
    blocking and for the cooperative breaker. *)
Theorem circuit_breaker_cycle
    (cb : CircuitBreaker) (acb : AsyncCircuitBreaker) (X : string)
    (t1 t2 t3 t4 t5 now1 now2 : Q) :
  failure_threshold cb = 5 -> (timeout cb == 60)%Q -> half_open_max cb = 1 ->
  get_state cb X = "closed" -> 0 <= failures_of cb X ->
  a_failure_threshold acb = 5 -> (a_timeout acb == 60)%Q ->
  a_get_state acb X = "closed" -> 0 <= a_failures_of acb X ->
  (now1 - t5 <= 60)%Q -> (60 < now2 - t5)%Q ->
  (let cb5 := foldl (fun c t => record_failure c X t) cb [t1; t2; t3; t4; t5] in
   let r1 := is_open cb5 X now1 in
   let r2 := is_open (snd r1) X now2 in
   let cb8 := record_success (snd r2) X in
   fst r1 = true /\ fst r2 = false /\ get_state (snd r2) X = "half_open"
   /\ failures_of cb8 X = 0 /\ get_state cb8 X = "closed")
  /\
  (let cb5 := foldl (fun c t => a_record_failure c X t) acb [t1; t2; t3; t4; t5] in
   let r1 := a_is_open cb5 X now1 in
   let r2 := a_is_open (snd r1) X now2 in
   let cb8 := a_record_success (snd r2) X in
   fst r1 = true /\ fst r2 = false /\ a_get_state (snd r2) X = "half_open"
   /\ a_failures_of cb8 X = 0 /\ a_get_state cb8 X = "closed").
Proof.
  intros Hth Hto Hmax _ Hf Hath Hato _ Haf Hn1 Hn2. split; cbn [foldl].
  - set (cb4 := record_failure (record_failure (record_failure (record_failure cb X t1) X t2) X t3) X t4).
    assert (Hc4 : failures_of cb4 X = failures_of cb X + 4).
    { unfold cb4. rewrite !record_failure_count. lia. }
    assert (Hcfg4 : failure_threshold cb4 = 5 /\ timeout cb4 = timeout cb
                    /\ half_open_max cb4 = 1).
    { unfold cb4.
      repeat match goal with
             | |- context [record_failure ?c X ?t] =>
                 destruct (record_failure_config c X t) as (-> & -> & ->)
             end.
      auto. }
    destruct Hcfg4 as (Hth4 & Hto4 & Hmax4).
    destruct (record_failure_config cb4 X t5) as (Hth5 & Hto5 & Hmax5).
    destruct (is_open_within_timeout (record_failure cb4 X t5) X now1 t5)
      as (cb6 & E6 & Hst6 & Hlast6 & Hto6 & Hmax6).
    { apply record_failure_trips. lia. }
    { apply record_failure_last. }
    { rewrite Hto5, Hto4. lra. }
    rewrite E6. cbn [fst snd].
    destruct (is_open_after_timeout cb6 X now2 t5) as (cb7 & E7 & Hst7 & Hcnt7 & Hmax7).
    { exact Hst6. }
    { rewrite Hlast6. apply record_failure_last. }
    { rewrite Hto6, Hto5, Hto4. lra. }
    rewrite E7. cbn [fst snd].
    destruct (record_success_closes cb7 X 0 Hst7 Hcnt7) as (Hz & Hcl).
    { rewrite Hmax7, Hmax6, Hmax5, Hmax4. lia. }
    auto.
  - set (cb4 := a_record_failure (a_record_failure (a_record_failure (a_record_failure acb X t1) X t2) X t3) X t4).
    assert (Hc4 : a_failures_of cb4 X = a_failures_of acb X + 4).
    { unfold cb4. rewrite !a_record_failure_count. lia. }
    assert (Hcfg4 : a_failure_threshold cb4 = 5 /\ a_timeout cb4 = a_timeout acb).
    { unfold cb4.
      repeat match goal with
             | |- context [a_record_failure ?c X ?t] =>
                 destruct (a_record_failure_config c X t) as (-> & ->)
             end.
      auto. }
    destruct Hcfg4 as (Hth4 & Hto4).
    destruct (a_record_failure_config cb4 X t5) as (Hth5 & Hto5).
    destruct (a_is_open_within_timeout (a_record_failure cb4 X t5) X now1 t5)
      as (cb6 & E6 & Hst6 & Hlast6 & Hto6).
    { apply a_record_failure_trips. lia. }
    { apply a_record_failure_last. }
    { rewrite Hto5, Hto4. lra. }
    rewrite E6. cbn [fst snd].
    destruct (a_is_open_after_timeout cb6 X now2 t5) as (cb7 & E7 & Hst7).
    { exact Hst6. }
    { rewrite Hlast6. apply a_record_failure_last. }
    { rewrite Hto6, Hto5, Hto4. lra. }
    rewrite E7. cbn [fst snd].
    destruct (a_record_success_closes cb7 X Hst7) as (Hz & Hcl).
    auto.
Qed.

End CircuitBreakerFacts.

Lemma circuit_breaker_cycle_witness :
  let cb5 := foldl (fun c t => Concurrency.record_failure c "X" t) Concurrency.new_breaker
                   [1; 2; 3; 4; 5]%Q in
  let r1 := Concurrency.is_open cb5 "X" 6%Q in
  let r2 := Concurrency.is_open (snd r1) "X" 66%Q in
  let cb8 := Concurrency.record_success (snd r2) "X" in
  fst r1 = true /\ fst r2 = false /\ Concurrency.get_state (snd r2) "X" = "half_open"
  /\ Concurrency.failures_of cb8 "X" = 0 /\ Concurrency.get_state cb8 "X" = "closed".
Proof.
  refine (proj1 (circuit_breaker_cycle Concurrency.new_breaker Concurrency.new_async_breaker
                   "X" 1 2 3 4 5 6 66 _ _ _ _ _ _ _ _ _ _ _));
    vm_compute; first [reflexivity | discriminate].
Defined.

(** ** concurrency.py: the rate limiters *)

Section RateLimiterFacts.
Import Concurrency.

Lemma new_limiter_interval (cps : Q) (L : RateLimiter) :
  new_limiter cps = Some L ->
  (min_interval L == 1 / cps)%Q /\ _last_call L = ∅.
Proof.
  unfold new_limiter. destruct (Qeq_bool cps 0); [discriminate |].
  intros [= <-]. split; reflexivity.
Qed.

Lemma async_acquire_records (L : RateLimiter) (domain : option string) (c lag : Q) :
  _last_call (fst (async_acquire L domain c lag)) !! key_of domain
  = Some (snd (async_acquire L domain c lag))
  /\ min_interval (fst (async_acquire L domain c lag)) = min_interval L.
Proof. unfold async_acquire. cbn. split; [apply lookup_insert_eq | reflexivity]. Qed.

(** The cooperative limiter keeps the spacing: when an acquire for a key
    starts no earlier than the previous acquire for that key completed,
    it completes at least [min_interval] later. *)
Lemma async_acquire_spacing (L : RateLimiter) (domain : option string)
    (c1 lag1 c2 lag2 : Q) :
  (0 <= lag2)%Q ->
  let r1 := async_acquire L domain c1 lag1 in
  (snd r1 <= c2)%Q ->
  let r2 := async_acquire (fst r1) domain c2 lag2 in
  (snd r1 + min_interval L <= snd r2)%Q.
Proof.
  intros Hlag r1 Hnext r2.
  destruct (async_acquire_records L domain c1 lag1) as [Hrec Hmin].
  fold r1 in Hrec, Hmin. unfold r2, async_acquire at 1. cbn [snd].
  rewrite Hrec, Hmin. change (default 0%Q (Some r1.2)) with (r1.2).
  destruct (Qltb (c2 - r1.2) (min_interval L)) eqn:E.
  - lra.
  - apply Qltb_false in E. lra.
Qed.

(** An acquire leaves the time stamps of the other keys alone, so the
    wait of a later acquire for another key does not depend on it. *)
Lemma acquire_other_key (L : RateLimiter) (d1 d2 : option string) (c lag : Q) :
  key_of d1 <> key_of d2 ->
  _last_call (fst (async_acquire L d1 c lag)) !! key_of d2 = _last_call L !! key_of d2
  /\ _last_call (fst (thread_acquire L d1 c lag)) !! key_of d2 = _last_call L !! key_of d2.
Proof.
  intros Hne. unfold async_acquire, thread_acquire. cbn.
  split; apply lookup_insert_ne; exact Hne.
Qed.

Lemma thread_acquire_result (L : RateLimiter) (key : option string) (c lag : Q) :
  _last_call (fst (thread_acquire L key c lag)) !! key_of key = Some c
  /\ min_interval (fst (thread_acquire L key c lag)) = min_interval L
  /\ snd (thread_acquire L key c lag)
     = (if Qltb (c - default 0%Q (_last_call L !! key_of key)) (min_interval L)
        then c + (min_interval L - (c - default 0%Q (_last_call L !! key_of key))) + lag
        else c + lag)%Q.
Proof.
  unfold thread_acquire. cbn. split; [apply lookup_insert_eq | split; reflexivity].
Qed.

(** C3 fails for the blocking limiter. Three acquires for one key on a
    new limiter of rate [cps], started at a clock reading [c >= 1/cps],
    each called as soon as the previous one has returned; [l1], [l2], [l3]
    are the small overheads of the three calls.  The second call returns
    at [c + 1/cps + l2], but the third returns at most [l1 + l3] later,
    less than [1/cps] after the second: the second call stored the
    reading taken before its sleep, so the third sees the interval as
    already elapsed. *)
Theorem thread_acquire_spacing_lost (cps c l1 l2 l3 : Q) (key : option string)
    (L : RateLimiter) :
  (0 < cps)%Q -> new_limiter cps = Some L -> (1 / cps <= c)%Q ->
  (0 <= l1)%Q -> (0 <= l2)%Q -> (0 <= l3)%Q -> (l1 + l3 < 1 / cps)%Q ->
  let r1 := thread_acquire L key c l1 in
  let r2 := thread_acquire (fst r1) key (snd r1) l2 in
  let r3 := thread_acquire (fst r2) key (snd r2) l3 in
  (snd r2 == c + 1 / cps + l2)%Q
  /\ (snd r3 - snd r2 <= l1 + l3)%Q
  /\ (snd r3 - snd r2 < 1 / cps)%Q.
Proof.
  intros Hpos Hnew Hc H1 H2 H3 Hsmall.
  destruct (new_limiter_interval cps L Hnew) as [Hm Hempty].
  remember (1 / cps)%Q as m eqn:Em. clear Em.
  intros r1.
  destruct (thread_acquire_result L key c l1) as (Hl1 & Hm1 & Hf1). fold r1 in Hl1, Hm1, Hf1.
  rewrite Hempty, lookup_empty in Hf1. change (default 0%Q None) with 0%Q in Hf1.
  intros r2.
  destruct (thread_acquire_result (fst r1) key (snd r1) l2) as (Hl2 & Hm2 & Hf2).
  fold r2 in Hl2, Hm2, Hf2. rewrite Hl1, Hm1 in Hf2. change (default 0%Q (Some c)) with c in Hf2.
  intros r3.
  destruct (thread_acquire_result (fst r2) key (snd r2) l3) as (_ & _ & Hf3).
  fold r3 in Hf3. rewrite Hl2, Hm2, Hm1 in Hf3.
  change (default 0%Q (Some (snd r1))) with (snd r1) in Hf3.
  rewrite Hf3, Hf2, Hf1. clear Hf3 Hf2 Hf1 Hl1 Hl2 Hm1 Hm2. clearbody r1 r2 r3. clear r1 r2 r3.
  destruct (Qltb (c - 0) (min_interval L)) eqn:E1;
    [apply Qltb_true in E1; lra | clear E1].
  destruct (Qltb (c + l1 - c) (min_interval L)) eqn:E2;
    [clear E2 | apply Qltb_false in E2; lra].
  destruct (Qltb (c + l1 + (min_interval L - (c + l1 - c)) + l2 - (c + l1)) (min_interval L)) eqn:E3;
    [apply Qltb_true in E3 | apply Qltb_false in E3]; repeat split; lra.
Qed.

End RateLimiterFacts.

Lemma thread_acquire_spacing_lost_witness :
  exists L,
    Concurrency.new_limiter 2 = Some L
    /\ let r1 := Concurrency.thread_acquire L (Some "a.edu") 1000 0 in
       let r2 := Concurrency.thread_acquire (fst r1) (Some "a.edu") (snd r1) 0 in
       let r3 := Concurrency.thread_acquire (fst r2) (Some "a.edu") (snd r2) 0 in
       (snd r2 == 1000 + 1 / 2 + 0)%Q
       /\ (snd r3 - snd r2 <= 0 + 0)%Q
       /\ (snd r3 - snd r2 < 1 / 2)%Q.
Proof.
  eexists. split; [reflexivity |].
  apply (thread_acquire_spacing_lost 2 1000 0 0 0 (Some "a.edu")); vm_compute;
    first [reflexivity | discriminate].
Defined.

(** ** downloader.py: the retry loop *)

Section DownloaderFacts.
Import Models Downloader.

(** Inside its [try] block [download_file] turns every failure into a
    returned, unsuccessful result. *)
Lemma download_file_returns (w : attempt_world) (url output_path : string)
    (resume verify : bool) :
  setup_error w = None ->
  exists r, download_file w url output_path resume verify = inr r.
Proof.
  intros H. unfold download_file. rewrite H.
  destruct (fetch w resume verify); eexists; reflexivity.
Qed.

(** C2 fails on the code. Whenever the first call of [download_file]
    returns (nothing is raised before its [try] block), whatever it
    returns, a failed download included, is returned at once by
    [_download_with_retry]: one attempt is made, no backoff sleep, no
    retry. *)
Theorem returned_failure_is_not_retried (config : ScraperConfig)
    (world : Z -> attempt_world) (url output_path : string) :
  0 < max_retries config ->
  setup_error (world 0) = None ->
  let t := _download_with_retry config world url output_path in
  attempts t = 1 /\ sleeps t = []
  /\ download_file (world 0) url output_path true false = inr (result t).
Proof.
  intros Hpos Hsetup. unfold _download_with_retry.
  destruct (Z.to_nat (max_retries config)) as [|k] eqn:E; [lia |].
  cbn [retry_loop]. cbn [Z.ltb Z.compare].
  destruct (download_file_returns (world 0) url output_path true false Hsetup) as [r Hr].
  rewrite Hr. cbn. auto.
Qed.

(** The loop itself does retry, with the backoff [retry_delay * 2^attempt],
    when the exception leaves [download_file]: here three attempts fail
    before the [try] block is entered. *)
Example raising_download_is_retried :
  let w := {| setup_error := Some "Permission denied"; size_on_disk := 0;
              first_get := ConnectionError ""; second_get := ConnectionError "";
              elapsed := 0 |} in
  let t := _download_with_retry {| max_retries := 3; retry_delay := 1 |} (fun _ => w)
             "http://a.edu/f.pdf" "out/f.pdf" in
  attempts t = 3 /\ sleeps t = [(1 * inject_Z 2)%Q; (1 * inject_Z 4)%Q]
  /\ success (result t) = false /\ error (result t) = Some "Permission denied".
Proof. vm_compute. repeat split. Qed.

End DownloaderFacts.

Lemma returned_failure_is_not_retried_witness :
  let w := {| Downloader.setup_error := None; Downloader.size_on_disk := 0;
              Downloader.first_get := Downloader.ConnectionError "Connection refused";
              Downloader.second_get := Downloader.ConnectionError "Connection refused";
              Downloader.elapsed := 0 |} in
  let t := Downloader._download_with_retry
             {| Downloader.max_retries := 3; Downloader.retry_delay := 1 |} (fun _ => w)
             "http://a.edu/f.pdf" "out/f.pdf" in
  Downloader.attempts t = 1 /\ Downloader.sleeps t = []
  /\ Downloader.download_file w "http://a.edu/f.pdf" "out/f.pdf" true false
     = inr (Downloader.result t).
Proof.
  apply (returned_failure_is_not_retried
           {| Downloader.max_retries := 3; Downloader.retry_delay := 1 |}
           (fun _ => {| Downloader.setup_error := None; Downloader.size_on_disk := 0;
                        Downloader.first_get := Downloader.ConnectionError "Connection refused";
                        Downloader.second_get := Downloader.ConnectionError "Connection refused";
                        Downloader.elapsed := 0 |}));
    [reflexivity | reflexivity].
Defined.

(** ** batch_processor.py: checkpoints *)

Section CheckpointFacts.
Import BatchProcessor.

Lemma filter_nothing_completed (self : processor) (urls : list string) :
  cp_completed_tasks (_checkpoint_data self) = [] ->
  _filter_completed_urls self urls = urls.
Proof.
  intros H. unfold _filter_completed_urls. rewrite H. cbn [list_to_set foldr].
  induction urls as [|u urls IH]; [reflexivity |].
  rewrite filter_cons_True by set_solver. now rewrite IH.
Qed.

(** When the checkpoint file of a batch identifier is on disk, the URLs
    it records as completed are not submitted again. *)
Lemma known_batch_id_skips_completed (disk : gmap string checkpoint)
    (hash8 now output_dir : string) (urls finished : list string) (data : checkpoint) :
  disk !! checkpoint_path output_dir (generate_worker_id "batch" hash8) = Some data ->
  forall url,
    url ∈ submitted (process_courses disk hash8 now urls output_dir true finished) ->
    url ∉ cp_completed_tasks data.
Proof.
  intros Hdisk url. unfold process_courses, _setup_checkpoint. cbn [submitted].
  unfold _filter_completed_urls. cbn [_checkpoint_data]. rewrite Hdisk.
  rewrite list_elem_of_filter. intros [Hnot _]. set_solver.
Qed.

(** C1 fails on the code. [process_courses] draws a new batch identifier
    on every call and names the checkpoint file after it, so whenever no
    file of that name is on disk (whatever other checkpoint files are), it
    starts from an empty list of completed tasks and submits every URL it
    is given. *)
Theorem new_batch_id_resubmits_all (disk : gmap string checkpoint)
    (hash8 now output_dir : string) (urls finished : list string) :
  disk !! checkpoint_path output_dir (generate_worker_id "batch" hash8) = None ->
  submitted (process_courses disk hash8 now urls output_dir true finished) = urls.
Proof.
  intros Hdisk. unfold process_courses. cbn [submitted].
  apply filter_nothing_completed. unfold _setup_checkpoint. cbn [_checkpoint_data].
  now rewrite Hdisk.
Qed.

End CheckpointFacts.

Lemma new_batch_id_resubmits_all_witness :
  let urls := ["http://a.edu/c1"; "http://a.edu/c2"; "http://a.edu/c3"] in
  let first_run :=
    BatchProcessor.process_courses ∅ "0a1b2c3d" "t0" urls "out" true
      ["http://a.edu/c1"; "http://a.edu/c2"] in
  let disk := BatchProcessor.disk_after first_run in
  (BatchProcessor.cp_completed_tasks <$>
     disk !! BatchProcessor.checkpoint_path "out" "batch_0a1b2c3d")
  = Some ["http://a.edu/c1"; "http://a.edu/c2"]
  /\ BatchProcessor.submitted
       (BatchProcessor.process_courses disk "4e5f6a7b" "t1" urls "out" true []) = urls.
Proof.
  split; [vm_compute; reflexivity |].
  apply new_batch_id_resubmits_all. vm_compute. reflexivity.
Defined.

(** ** concurrency.py: the priority task queues *)

Section QueueFacts.
Import Concurrency.
Context {A : Type}.
Local Open Scope list_scope.

Lemma filter_fmap_list {B C : Type} (f : B -> C) (P : C -> Prop)
    `{!forall c, Decision (P c)} (l : list B) :
  filter P (f <$> l) = f <$> filter (fun b => P (f b)) l.
Proof.
  induction l as [|b l IH]; [reflexivity |]. cbn [fmap list_fmap].
  destruct (decide (P (f b))) as [Hp|Hp].
  - rewrite !filter_cons_True by assumption. cbn [fmap list_fmap]. now rewrite IH.
  - rewrite !filter_cons_False by assumption. exact IH.
Qed.

Lemma StronglySorted_filter {B : Type} (R : relation B) (P : B -> Prop)
    `{!forall b, Decision (P b)} (l : list B) :
  StronglySorted R l -> StronglySorted R (filter P l).
Proof.
  induction 1 as [|b l Hl IH Hb]; [constructor |].
  destruct (decide (P b)).
  - rewrite filter_cons_True by assumption. constructor; [exact IH |].
    apply Forall_forall. intros y Hy. apply list_elem_of_filter in Hy as [_ Hy].
    rewrite Forall_forall in Hb. auto.
  - now rewrite filter_cons_False.
Qed.

Lemma StronglySorted_weaken {B : Type} (R S : relation B) (l : list B) :
  (forall a b, R a b -> S a b) -> StronglySorted R l -> StronglySorted S l.
Proof.
  intros HRS. induction 1 as [|b l Hl IH Hb]; constructor; [exact IH |].
  eapply Forall_impl; [exact Hb | auto].
Qed.

Lemma filter_none {B : Type} (P : B -> Prop) `{!forall b, Decision (P b)} (l : list B) :
  Forall (fun b => ~ P b) l -> filter P l = [].
Proof.
  induction 1 as [|b l Hb Hl IH]; [reflexivity |].
  now rewrite filter_cons_False.
Qed.

(** *** The blocking queue *)

Lemma insert_by_priority_perm (p : Z) (x : A) (q : list (Z * A)) :
  insert_by_priority p x q ≡ₚ (p, x) :: q.
Proof.
  induction q as [|[p0 x0] q IH]; cbn [insert_by_priority]; [reflexivity |].
  destruct (p0 <? p); [reflexivity |]. rewrite IH. apply perm_swap.
Qed.

Lemma insert_by_priority_sorted (p : Z) (x : A) (q : list (Z * A)) :
  StronglySorted (fun a b => b.1 <= a.1) q ->
  StronglySorted (fun a b => b.1 <= a.1) (insert_by_priority p x q).
Proof.
  induction 1 as [|[p0 x0] q Hq IH Hall]; cbn [insert_by_priority].
  - repeat constructor.
  - destruct (Z.ltb_spec p0 p) as [Hlt|Hge].
    + constructor; [now constructor |]. constructor; [cbn; lia |].
      eapply Forall_impl; [exact Hall |]. cbn. intros; lia.
    + constructor; [exact IH |].
      rewrite insert_by_priority_perm. constructor; [cbn; lia | exact Hall].
Qed.

Lemma insert_by_priority_filter (p p' : Z) (x : A) (q : list (Z * A)) :
  StronglySorted (fun a b => b.1 <= a.1) q ->
  filter (fun e => e.1 = p') (insert_by_priority p x q)
  = filter (fun e => e.1 = p') q ++ filter (fun e => e.1 = p') [(p, x)].
Proof.
  induction 1 as [|[p0 x0] q Hq IH Hall]; cbn [insert_by_priority]; [reflexivity |].
  destruct (Z.ltb_spec p0 p) as [Hlt|Hge].
  - assert (Hbelow : Forall (fun e : Z * A => e.1 <> p) ((p0, x0) :: q)).
    { constructor; [cbn; lia |]. eapply Forall_impl; [exact Hall |]. cbn. intros; lia. }
    destruct (decide (p = p')) as [<-|Hne].
    + rewrite (filter_cons_True _ (p, x) ((p0, x0) :: q)) by reflexivity.
      rewrite (filter_none _ _ Hbelow).
      rewrite (filter_cons_True _ (p, x) []) by reflexivity. reflexivity.
    + rewrite (filter_cons_False _ (p, x) ((p0, x0) :: q)) by (cbn; congruence).
      rewrite (filter_cons_False _ (p, x) []) by (cbn; congruence).
      now rewrite app_nil_r.
  - destruct (decide (p0 = p')) as [<-|Hne].
    + rewrite !(filter_cons_True _ (p0, x0)) by reflexivity. rewrite IH. reflexivity.
    + rewrite !(filter_cons_False _ (p0, x0)) by (cbn; congruence). exact IH.
Qed.

Lemma put_all_result (xs : list (A * Z)) (q : TaskQueue A) :
  match put_all q xs with
  | Some q' => _queue q' = insert_all (_queue q) xs /\ maxsize q' = maxsize q
  | None => 0 < maxsize q < Z.of_nat (length (_queue q) + length xs)
  end.
Proof.
  revert q. induction xs as [|[x p] xs IH]; intros q; [now cbn |].
  cbn [put_all]. unfold put.
  destruct (Z.ltb_spec 0 (maxsize q)) as [Hpos|Hnot];
    destruct (Z.leb_spec (maxsize q) (Z.of_nat (length (_queue q)))) as [Hfull|Hroom];
    cbn [andb]; try (cbn [length]; lia).
  all: match goal with |- context [put_all ?q1 _] => specialize (IH q1) end.
  all: destruct (put_all _ xs) as [q'|]; cbn [_queue maxsize] in IH.
  all: try (destruct IH as [-> ->]; split; reflexivity).
  all: pose proof (Permutation_length (insert_by_priority_perm p x (_queue q))) as Hlen.
  all: cbn [length] in *; lia.
Qed.

Lemma drain_all (l : list (Z * A)) (m : Z) :
  drain {| _queue := l; maxsize := m |} = l.*2.
Proof.
  unfold drain. cbn [_queue]. induction l as [|[p x] l IH]; [reflexivity |].
  cbn. now rewrite IH.
Qed.

Lemma insert_all_spec (xs : list (A * Z)) (q : list (Z * A)) :
  StronglySorted (fun a b => b.1 <= a.1) q ->
  insert_all q xs ≡ₚ q ++ (swap_pair <$> xs)
  /\ StronglySorted (fun a b => b.1 <= a.1) (insert_all q xs)
  /\ forall p, filter (fun e => e.1 = p) (insert_all q xs)
               = filter (fun e => e.1 = p) q ++ filter (fun e => e.1 = p) (swap_pair <$> xs).
Proof.
  revert q. induction xs as [|[x p] xs IH]; intros q Hq.
  - cbn. rewrite app_nil_r. split; [reflexivity |]. split; [assumption |].
    intros. now rewrite app_nil_r.
  - cbn [insert_all foldl fst snd].
    destruct (IH _ (insert_by_priority_sorted p x q Hq)) as (Hperm & Hsort & Hfilter).
    fold (insert_all (insert_by_priority p x q) xs).
    repeat split.
    + rewrite Hperm, insert_by_priority_perm. cbn. apply Permutation_middle.
    + exact Hsort.
    + intros p'. rewrite Hfilter, insert_by_priority_filter by assumption.
      rewrite <- app_assoc. f_equal. now rewrite <- filter_app.
Qed.

Lemma swap_entry_pair (l : list (A * Z)) : swap_entry <$> (swap_pair <$> l) = l.
Proof.
  induction l as [|[x p] l IH]; [reflexivity |]. cbn [fmap list_fmap] in *. now rewrite IH.
Qed.

Lemma filter_swap (p : Z) (xs : list (A * Z)) :
  swap_entry <$> filter (fun e => e.1 = p) (swap_pair <$> xs)
  = filter (fun x => x.2 = p) xs.
Proof.
  induction xs as [|[x p0] xs IH]; [reflexivity |]. cbn [fmap list_fmap] in *.
  destruct (decide (p0 = p)) as [Heq|Hne].
  - rewrite !filter_cons_True by exact Heq. cbn [fmap list_fmap]. now rewrite IH.
  - rewrite !filter_cons_False by exact Hne. exact IH.
Qed.

Lemma task_queue_order (size : Z) (xs : list (A * Z)) :
  match put_all (new_queue size) xs with
  | Some q => priority_fifo_order xs (drain q)
  | None => 0 < size < Z.of_nat (length xs)
  end.
Proof.
  pose proof (put_all_result xs (new_queue size)) as Hput.
  destruct (put_all (new_queue size) xs) as [[l m]|]; [|exact Hput].
  cbn [new_queue _queue maxsize] in Hput. destruct Hput as [-> _]. rewrite drain_all.
  destruct (insert_all_spec xs [] (SSorted_nil _)) as (Hperm & Hsort & Hfilter).
  exists (swap_entry <$> insert_all [] xs). repeat split.
  - rewrite <- list_fmap_compose. reflexivity.
  - rewrite Hperm. cbn [app]. now rewrite swap_entry_pair.
  - eapply StronglySorted_fmap; [|exact Hsort]. now intros [] [].
  - intros p. rewrite filter_fmap_list.
    change (filter (fun b : Z * A => (swap_entry b).2 = p) (insert_all [] xs))
      with (filter (fun e : Z * A => e.1 = p) (insert_all [] xs)).
    rewrite Hfilter. apply filter_swap.
Qed.

(** *** The cooperative queue *)

Lemma entry_lt_spec (a b : Z * Z * A) :
  entry_lt a b = true <-> a.1.1 < b.1.1 \/ (a.1.1 = b.1.1 /\ a.1.2 < b.1.2).
Proof.
  destruct a as [[p1 c1] x1], b as [[p2 c2] x2]. cbn.
  rewrite orb_true_iff, andb_true_iff, !Z.ltb_lt, Z.eqb_eq. reflexivity.
Qed.

Lemma entry_lt_false (a b : Z * Z * A) :
  entry_lt a b = false <-> b.1.1 < a.1.1 \/ (a.1.1 = b.1.1 /\ b.1.2 <= a.1.2).
Proof.
  destruct (entry_lt a b) eqn:E.
  - apply entry_lt_spec in E. split; [discriminate | lia].
  - split; [intros _ | reflexivity].
    assert (H : ~ (a.1.1 < b.1.1 \/ (a.1.1 = b.1.1 /\ a.1.2 < b.1.2))).
    { rewrite <- entry_lt_spec. congruence. }
    lia.
Qed.

Lemma tagged_entry_pair (c : Z) (xs : list (A * Z)) : entry_pair <$> tagged c xs = xs.
Proof.
  revert c. induction xs as [|[x p] xs IH]; intros c; [reflexivity |].
  cbn [tagged fmap list_fmap] in *. rewrite IH. unfold entry_pair. cbn.
  now rewrite Z.opp_involutive.
Qed.

Lemma tagged_counters (c : Z) (xs : list (A * Z)) :
  Forall (fun e => c < e.1.2) (tagged c xs)
  /\ StronglySorted (fun a b => a.1.2 < b.1.2) (tagged c xs).
Proof.
  revert c. induction xs as [|[x p] xs IH]; intros c; cbn [tagged].
  - split; constructor.
  - destruct (IH (c + 1)) as [Hall Hsort]. split.
    + constructor; [cbn; lia |]. eapply Forall_impl; [exact Hall |]. cbn. intros; lia.
    + constructor; [exact Hsort |]. eapply Forall_impl; [exact Hall |]. cbn. intros; lia.
Qed.

Lemma tagged_NoDup (c : Z) (xs : list (A * Z)) :
  NoDup ((fun e => e.1.2) <$> tagged c xs).
Proof.
  revert c. induction xs as [|[x p] xs IH]; intros c; cbn [tagged fmap list_fmap].
  - constructor.
  - constructor; [| apply IH]. intros Hin. apply list_elem_of_fmap in Hin as [e [He Hin]].
    destruct (tagged_counters (c + 1) xs) as [Hall _].
    rewrite Forall_forall in Hall. specialize (Hall e Hin). cbn in He. lia.
Qed.

Lemma a_put_all_result (xs : list (A * Z)) (q : AsyncTaskQueue A) :
  match a_put_all q xs with
  | Some q' => entries q' ≡ₚ tagged (_counter q) xs ++ entries q
  | None => 0 < a_maxsize q < Z.of_nat (length (entries q) + length xs)
  end.
Proof.
  revert q. induction xs as [|[x p] xs IH]; intros q; [now cbn |].
  cbn [a_put_all]. unfold a_put.
  destruct (Z.ltb_spec 0 (a_maxsize q)) as [Hpos|Hnot];
    destruct (Z.leb_spec (a_maxsize q) (Z.of_nat (length (entries q)))) as [Hfull|Hroom];
    cbn [andb]; try (cbn [length]; lia).
  all: match goal with |- context [a_put_all ?q1 _] => specialize (IH q1) end.
  all: destruct (a_put_all _ xs) as [q'|]; cbn [entries _counter a_maxsize] in IH.
  all: try (rewrite IH; cbn [tagged fst snd]; symmetry; apply Permutation_middle).
  all: cbn [length] in *; lia.
Qed.

Lemma pop_least_none (l : list (Z * Z * A)) : pop_least l = None -> l = [].
Proof.
  destruct l as [|x l]; [reflexivity |]. cbn [pop_least].
  destruct (pop_least l) as [[m rest]|]; [|discriminate].
  destruct (entry_lt m x); discriminate.
Qed.

Lemma pop_least_spec (l : list (Z * Z * A)) (m : Z * Z * A) (rest : list (Z * Z * A)) :
  pop_least l = Some (m, rest) ->
  l ≡ₚ m :: rest /\ Forall (fun e => entry_lt e m = false) rest.
Proof.
  revert m rest. induction l as [|x l IH]; intros m rest; [discriminate |].
  cbn [pop_least]. destruct (pop_least l) as [[m' rest']|] eqn:E.
  - destruct (IH m' rest' eq_refl) as [Hperm Hmin].
    destruct (entry_lt m' x) eqn:Hlt; intros [= <- <-].
    + split; [rewrite Hperm; apply perm_swap |].
      constructor; [|exact Hmin]. apply entry_lt_spec in Hlt. apply entry_lt_false. lia.
    + split; [reflexivity |]. rewrite Hperm. constructor; [exact Hlt |].
      eapply Forall_impl; [exact Hmin |]. cbn beta. intros e He.
      apply entry_lt_false in He, Hlt. apply entry_lt_false. lia.
  - intros [= <- <-]. apply pop_least_none in E. subst l. split; [reflexivity | constructor].
Qed.

Lemma pop_all_spec (n : nat) (l : list (Z * Z * A)) :
  length l = n ->
  NoDup ((fun e => e.1.2) <$> l) ->
  pop_all n l ≡ₚ l /\ StronglySorted (fun a b => entry_lt a b = true) (pop_all n l).
Proof.
  revert l. induction n as [|n IH]; intros l Hlen Hnd.
  - destruct l; [|discriminate]. split; [reflexivity | constructor].
  - cbn [pop_all]. destruct (pop_least l) as [[m rest]|] eqn:E.
    + destruct (pop_least_spec l m rest E) as [Hperm Hmin].
      rewrite Hperm in Hnd. cbn [fmap list_fmap] in Hnd. apply NoDup_cons in Hnd as [Hfresh Hnd].
      assert (Hlen' : length rest = n).
      { apply Permutation_length in Hperm. cbn in Hperm. lia. }
      destruct (IH rest Hlen' Hnd) as [Hp Hs]. split.
      * rewrite Hp. now symmetry.
      * constructor; [exact Hs |]. rewrite Hp.
        apply Forall_forall. intros e He. rewrite Forall_forall in Hmin.
        specialize (Hmin e He). apply entry_lt_false in Hmin. apply entry_lt_spec.
        assert (e.1.2 <> m.1.2).
        { intros Heq. apply Hfresh. rewrite <- Heq.
          apply list_elem_of_fmap. exists e. split; [reflexivity | exact He]. }
        lia.
    + apply pop_least_none in E. subst l. discriminate.
Qed.

Lemma a_drain_pop_all (q : AsyncTaskQueue A) :
  a_drain q = snd <$> pop_all (length (entries q)) (entries q).
Proof.
  unfold a_drain. generalize (length (entries q)) as n. intros n. revert q.
  induction n as [|n IH]; intros q; [reflexivity |].
  cbn [a_drain_n pop_all]. unfold a_get.
  destruct (pop_least (entries q)) as [[[[np c] x] rest]|]; [|reflexivity].
  cbn [fmap list_fmap snd]. now rewrite IH.
Qed.

Lemma sorted_by_counter_within (p : Z) (l : list (Z * Z * A)) :
  StronglySorted (fun a b => a.1.2 < b.1.2) l ->
  Forall (fun e => e.1.1 = p) l ->
  StronglySorted (fun a b => entry_lt a b = true) l.
Proof.
  induction 1 as [|a l Hl IH Ha]; intros Hall; [constructor |].
  apply Forall_cons in Hall as [Hp Hall]. constructor; [now apply IH |].
  rewrite Forall_forall in *. intros e He. apply entry_lt_spec.
  specialize (Ha e He). specialize (Hall e He). cbn beta in *. lia.
Qed.

Lemma async_queue_order (size : Z) (xs : list (A * Z)) :
  match a_put_all (new_async_queue size) xs with
  | Some q => priority_fifo_order xs (a_drain q)
  | None => 0 < size < Z.of_nat (length xs)
  end.
Proof.
  pose proof (a_put_all_result xs (new_async_queue size)) as Hperm.
  destruct (a_put_all (new_async_queue size) xs) as [q|]; [|exact Hperm].
  cbn [new_async_queue entries _counter] in Hperm. rewrite app_nil_r in Hperm.
  destruct (pop_all_spec (length (entries q)) (entries q) eq_refl) as [Hp Hs].
  { rewrite Hperm. apply tagged_NoDup. }
  rewrite a_drain_pop_all. set (es := pop_all (length (entries q)) (entries q)) in *.
  exists (entry_pair <$> es). repeat split.
  - rewrite <- list_fmap_compose. reflexivity.
  - rewrite Hp, Hperm. now rewrite tagged_entry_pair.
  - eapply StronglySorted_fmap; [|exact Hs]. intros a b Hab.
    apply entry_lt_spec in Hab. cbn. lia.
  - intros p. rewrite <- (tagged_entry_pair 0 xs) at 1. rewrite !filter_fmap_list. f_equal.
    apply (StronglySorted_unique_strong (fun a b => entry_lt a b = true)).
    + intros a b _ _ Hab Hba. apply entry_lt_spec in Hab, Hba. lia.
    + now apply StronglySorted_filter.
    + apply (sorted_by_counter_within (- p)).
      * apply StronglySorted_filter, tagged_counters.
      * apply Forall_forall. intros e He. apply list_elem_of_filter in He as [He _].
        cbn in He. lia.
    + now rewrite Hp, Hperm.
Qed.

(** C6. For the blocking and for the cooperative queue, of any bound:
    when the items [xs] have been put, in order, and the queue is then
    drained, the items come out by descending priority, and items of equal
    priority come out in the order they were put (a bounded queue that is
    too small for [xs] blocks the producer instead; an unbounded one never
    does). In particular, priorities 1, 3, 2, 3 yield the two items of
    priority 3 in their order, then the one of priority 2, then the one of
    priority 1. *)
Theorem queues_serve_by_priority_then_fifo (size : Z) (xs : list (A * Z)) (a b c d : A) :
  match put_all (new_queue size) xs with
  | Some q => priority_fifo_order xs (drain q)
  | None => 0 < size < Z.of_nat (length xs)
  end
  /\ match a_put_all (new_async_queue size) xs with
     | Some q => priority_fifo_order xs (a_drain q)
     | None => 0 < size < Z.of_nat (length xs)
     end
  /\ (drain <$> put_all (new_queue 0) [(a, 1); (b, 3); (c, 2); (d, 3)]) = Some [b; d; c; a]
  /\ (a_drain <$> a_put_all (new_async_queue 0) [(a, 1); (b, 3); (c, 2); (d, 3)])
     = Some [b; d; c; a].
Proof.
  split; [apply task_queue_order |]. split; [apply async_queue_order |].
  split; reflexivity.
Qed.

End QueueFacts.

(** ** crawler/base_crawler.py: URL normalization *)

(** a property of all 256 characters, checked one by one *)
Ltac each_char c := destruct c as [[] [] [] [] [] [] [] []]; vm_compute; reflexivity.

Section UrlFacts.
Import PyStr UrlParse BaseCrawler.

Lemma lower_char_idem (c : ascii) : lower_char (lower_char c) = lower_char c.
Proof. each_char c. Qed.

Lemma c0_lower : lower_invariant is_c0_or_space.
Proof. intros c. each_char c. Qed.

Lemma unsafe_lower : lower_invariant is_unsafe.
Proof. intros c. each_char c. Qed.

Lemma alpha_lower : lower_invariant is_alpha.
Proof. intros c. each_char c. Qed.

Lemma scheme_char_lower : lower_invariant is_scheme_char.
Proof. intros c. each_char c. Qed.

Lemma delim_lower : lower_invariant is_netloc_delim.
Proof. intros c. each_char c. Qed.

Lemma colon_lower : lower_invariant (Ascii.eqb ":").
Proof. intros c. each_char c. Qed.

Lemma hash_lower : lower_invariant (Ascii.eqb "#").
Proof. intros c. each_char c. Qed.

Lemma question_lower : lower_invariant (Ascii.eqb "?").
Proof. intros c. each_char c. Qed.

Lemma semicolon_lower : lower_invariant (Ascii.eqb ";").
Proof. intros c. each_char c. Qed.

Lemma slash_lower : lower_invariant (Ascii.eqb "/").
Proof. intros c. each_char c. Qed.

Lemma slash_lower_r (c : ascii) : Ascii.eqb (lower_char c) "/" = Ascii.eqb c "/".
Proof. each_char c. Qed.

Lemma lbracket_lower : lower_invariant (Ascii.eqb "[").
Proof. intros c. each_char c. Qed.

Lemma rbracket_lower : lower_invariant (Ascii.eqb "]").
Proof. intros c. each_char c. Qed.

Lemma lower_idem (s : string) : lower (lower s) = lower s.
Proof.
  induction s as [|c s IH]; [reflexivity |]. cbn [lower]. now rewrite lower_char_idem, IH.
Qed.

Lemma lower_app (a b : string) : lower (a ++ b) = lower a ++ lower b.
Proof.
  induction a as [|c a IH]; [reflexivity |].
  rewrite append_cons. cbn [lower]. now rewrite append_cons, IH.
Qed.

Lemma tail_lower (s : string) : tail (lower s) = lower (tail s).
Proof. now destruct s. Qed.

Lemma break_lower (p : ascii -> bool) (s : string) :
  lower_invariant p ->
  break p (lower s) = (lower (break p s).1, lower (break p s).2).
Proof.
  intros Hp. induction s as [|c s IH]; [reflexivity |].
  cbn [lower break]. rewrite Hp. destruct (p c); [reflexivity |].
  rewrite IH. now destruct (break p s).
Qed.

Lemma lstrip_lower (p : ascii -> bool) (s : string) :
  lower_invariant p -> lstrip_class p (lower s) = lower (lstrip_class p s).
Proof.
  intros Hp. induction s as [|c s IH]; [reflexivity |].
  cbn [lower lstrip_class]. rewrite Hp. now destruct (p c).
Qed.

Lemma remove_lower (p : ascii -> bool) (s : string) :
  lower_invariant p -> remove_class p (lower s) = lower (remove_class p s).
Proof.
  intros Hp. induction s as [|c s IH]; [reflexivity |].
  cbn [lower remove_class]. rewrite Hp, IH. now destruct (p c).
Qed.

Lemma all_chars_lower (p : ascii -> bool) (s : string) :
  lower_invariant p -> all_chars p (lower s) = all_chars p s.
Proof.
  intros Hp. induction s as [|c s IH]; [reflexivity |].
  cbn [lower all_chars]. now rewrite Hp, IH.
Qed.

Lemma has_char_lower (d : ascii) (s : string) :
  lower_invariant (Ascii.eqb d) -> has_char d (lower s) = has_char d s.
Proof.
  intros Hp. induction s as [|c s IH]; [reflexivity |].
  cbn [lower has_char]. now rewrite Hp, IH.
Qed.

Lemma split_scheme_lower (s : string) :
  split_scheme (lower s) = ((split_scheme s).1, lower (split_scheme s).2).
Proof.
  unfold split_scheme. rewrite (break_lower _ s colon_lower).
  destruct (break (Ascii.eqb ":") s) as [pre rest]. cbn [fst snd].
  destruct rest as [|r0 rest]; [reflexivity |]. destruct pre as [|c0 pre]; [reflexivity |].
  cbn [lower]. change (String (lower_char c0) (lower pre)) with (lower (String c0 pre)).
  rewrite alpha_lower, (all_chars_lower _ _ scheme_char_lower).
  destruct (is_alpha c0 && all_chars is_scheme_char (String c0 pre)); [|reflexivity].
  cbn [lower fst snd]. now rewrite lower_char_idem, lower_idem.
Qed.

Lemma split_netloc_lower (s : string) :
  split_netloc (lower s) = (lower (split_netloc s).1, lower (split_netloc s).2).
Proof.
  destruct s as [|a [|b s]]; try reflexivity.
  unfold split_netloc. cbn [lower]. rewrite !slash_lower_r.
  destruct (Ascii.eqb a "/" && Ascii.eqb b "/"); [|reflexivity].
  apply (break_lower _ s delim_lower).
Qed.

Lemma brackets_ok_lower (s : string) : brackets_ok (lower s) = brackets_ok s.
Proof.
  unfold brackets_ok.
  now rewrite (has_char_lower _ _ lbracket_lower), (has_char_lower _ _ rbracket_lower).
Qed.

Lemma split1_lower (d : ascii) (s : string) :
  lower_invariant (Ascii.eqb d) ->
  split1 d (lower s) = (lower (split1 d s).1, lower (split1 d s).2).
Proof.
  intros Hd. unfold split1. rewrite (break_lower _ s Hd).
  destruct (break (Ascii.eqb d) s) as [a b]. cbn [fst snd]. now rewrite tail_lower.
Qed.

Lemma split_scheme_lowercase (s : string) : lower (split_scheme s).1 = (split_scheme s).1.
Proof.
  unfold split_scheme. destruct (break (Ascii.eqb ":") s) as [pre rest].
  destruct rest as [|r0 rest]; [reflexivity |]. destruct pre as [|c0 pre]; [reflexivity |].
  destruct (is_alpha c0 && all_chars is_scheme_char (String c0 pre)); [|reflexivity].
  apply lower_idem.
Qed.

Lemma urlsplit_lower (url : string) :
  urlsplit (lower url) = lower_result <$> urlsplit url.
Proof.
  unfold urlsplit.
  rewrite (lstrip_lower _ _ c0_lower), (remove_lower _ _ unsafe_lower), split_scheme_lower.
  pose proof (split_scheme_lowercase (remove_class is_unsafe (lstrip_class is_c0_or_space url)))
    as Hsch.
  destruct (split_scheme (remove_class is_unsafe (lstrip_class is_c0_or_space url)))
    as [sch rest]. cbn [fst snd] in *.
  rewrite split_netloc_lower. destruct (split_netloc rest) as [loc rest']. cbn [fst snd].
  rewrite brackets_ok_lower. destruct (brackets_ok loc); [|reflexivity].
  rewrite (split1_lower _ _ hash_lower). destruct (split1 "#" rest') as [u frag]. cbn [fst snd].
  rewrite (split1_lower _ _ question_lower). destruct (split1 "?" u) as [u' qry]. cbn [fst snd].
  cbn. unfold lower_result. cbn. now rewrite Hsch.
Qed.

Lemma last_segment_split_lower (s : string) :
  last_segment_split (lower s)
  = (lower (last_segment_split s).1, lower (last_segment_split s).2).
Proof.
  induction s as [|c s IH]; [reflexivity |].
  cbn [lower last_segment_split]. rewrite IH, (has_char_lower _ _ slash_lower), slash_lower_r.
  destruct (last_segment_split s) as [h t]. cbn [fst snd].
  destruct (has_char "/" s); [reflexivity |]. now destruct (Ascii.eqb c "/").
Qed.

Lemma splitparams_lower (s : string) :
  _splitparams (lower s) = (lower (_splitparams s).1, lower (_splitparams s).2).
Proof.
  unfold _splitparams. rewrite last_segment_split_lower.
  destruct (last_segment_split s) as [h t]. cbn [fst snd].
  rewrite (break_lower _ t semicolon_lower).
  destruct (break (Ascii.eqb ";") t) as [a b]. cbn [fst snd].
  destruct b as [|b0 b]; [reflexivity |]. cbn [lower fst snd]. now rewrite lower_app.
Qed.

(** the scheme of a parsed URL is in lower case *)
Lemma urlsplit_scheme_lowercase (url : string) (r : ParseResult) :
  urlsplit url = Some r -> lower (scheme r) = scheme r.
Proof.
  unfold urlsplit. intros E.
  pose proof (split_scheme_lowercase (remove_class is_unsafe (lstrip_class is_c0_or_space url)))
    as Hs.
  destruct (split_scheme _) as [sch rest]. destruct (split_netloc rest) as [loc rest'].
  destruct (brackets_ok loc); [|discriminate].
  destruct (split1 "#" rest') as [u frag]. destruct (split1 "?" u) as [u' qry].
  injection E as <-. exact Hs.
Qed.

Lemma urlparse_scheme_lowercase (url : string) (p : ParseResult) :
  urlparse url = Some p -> lower (scheme p) = scheme p.
Proof.
  unfold urlparse. destruct (urlsplit url) as [r|] eqn:E; [|discriminate].
  pose proof (urlsplit_scheme_lowercase url r E) as Hs.
  destruct (existsb (String.eqb (scheme r)) uses_params && has_char ";" (path r)).
  - destruct (_splitparams (path r)). intros [= <-]. exact Hs.
  - intros [= <-]. exact Hs.
Qed.

(** [urlparse] of the lower-cased URL gives the parts of the URL in lower
    case. *)
Lemma urlparse_lower (url : string) :
  urlparse (lower url) = lower_result <$> urlparse url.
Proof.
  unfold urlparse. rewrite urlsplit_lower.
  destruct (urlsplit url) as [r|] eqn:E; [|reflexivity]. cbn [fmap option_fmap option_map].
  pose proof (urlsplit_scheme_lowercase url r E) as Hsch.
  cbn [lower_result scheme path]. rewrite Hsch, (has_char_lower _ _ semicolon_lower).
  destruct (existsb (String.eqb (scheme r)) uses_params && has_char ";" (path r)).
  - rewrite splitparams_lower. destruct (_splitparams (path r)) as [p prm]. cbn.
    unfold lower_result. cbn. now rewrite Hsch.
  - cbn. unfold lower_result. now rewrite Hsch.
Qed.

(** the last character decides [endswith] for a one-character suffix *)
Lemma endswith_char (s : string) (d : ascii) :
  endswith s (String d "") = match last_char s with
                             | Some c => Ascii.eqb c d
                             | None => false
                             end.
Proof.
  induction s as [|c s IH]; [reflexivity |].
  cbn [endswith]. rewrite IH. destruct s as [|c' s].
  - cbn. now destruct (Ascii.eqb c d).
  - cbn [String.eqb last_char]. destruct (Ascii.eqb c d); reflexivity.
Qed.

Lemma last_char_app (a b : string) : b <> "" -> last_char (a ++ b) = last_char b.
Proof.
  intros Hb. induction a as [|c a IH]; [reflexivity |].
  rewrite append_cons. cbn [last_char]. rewrite IH.
  destruct (a ++ b) eqn:E; [|reflexivity].
  destruct a; [rewrite append_nil in E; congruence | discriminate].
Qed.

Lemma last_char_lower (s : string) : last_char (lower s) = lower_char <$> last_char s.
Proof.
  induction s as [|c s IH]; [reflexivity |].
  cbn [lower last_char]. rewrite IH. now destruct s.
Qed.

Lemma drop_last_app (a b : string) : b <> "" -> drop_last (a ++ b) = a ++ drop_last b.
Proof.
  intros Hb. induction a as [|c a IH]; [reflexivity |].
  rewrite !append_cons. cbn [drop_last]. rewrite IH.
  destruct (a ++ b) eqn:E; [|reflexivity].
  destruct a; [rewrite append_nil in E; congruence | discriminate].
Qed.

Lemma endswith_slash_app (a b : string) :
  b <> "" -> endswith (a ++ b) "/" = endswith b "/".
Proof. intros Hb. now rewrite !endswith_char, last_char_app. Qed.

Lemma endswith_slash_lower (s : string) : endswith (lower s) "/" = endswith s "/".
Proof.
  rewrite !endswith_char, last_char_lower.
  destruct (last_char s); [apply slash_lower_r | reflexivity].
Qed.

(** C4, as the claim states it, fails: the query string is not kept
    unchanged, it is put in lower case with the rest of the URL. *)
Lemma normalize_url_changes_query :
  (query <$> urlparse "http://a.com/p?Q=A") = Some "Q=A"
  /\ _normalize_url "http://a.com/p?Q=A" = Some "http://a.com/p?q=a".
Proof. split; vm_compute; reflexivity. Qed.

(** C4, amended. For every URL that [urlparse] accepts, with the parts
    [urlparse] gives: the normalized URL is the (lower-case) scheme,
    ["://"], the host in lower case and the path in lower case, followed
    by ["?"] and the query string in lower case when there is one; the
    fragment is dropped.  When there is no query string, a single
    trailing slash is stripped from a path of more than one character.  A
    query string that does not end in a slash is kept but for its letter
    case. *)
Theorem normalize_url_lowercases_all (url : string) (p : ParseResult) :
  urlparse url = Some p ->
  lower (scheme p) = scheme p
  /\ (query p = "" ->
      _normalize_url url
      = Some (scheme p ++ "://" ++ lower (netloc p) ++ strip_slash (lower (path p))))
  /\ (query p <> "" -> endswith (query p) "/" = false ->
      _normalize_url url
      = Some (scheme p ++ "://" ++ lower (netloc p) ++ lower (path p)
              ++ "?" ++ lower (query p))).
Proof.
  intros Hp. pose proof (urlparse_scheme_lowercase url p Hp) as Hsch.
  split; [exact Hsch |].
  unfold _normalize_url. rewrite urlparse_lower, Hp.
  cbn [fmap option_fmap option_map lower_result scheme netloc path query]. rewrite Hsch.
  split.
  - intros ->. cbn [lower String.eqb]. f_equal. unfold strip_slash.
    destruct (lower (path p)) as [|c rest] eqn:E.
    + cbn [len String.length Z.of_nat Z.ltb Z.compare]. now rewrite !andb_false_r.
    + rewrite <- !append_assoc. rewrite endswith_slash_app by discriminate.
      destruct (endswith (String c rest) "/" && (1 <? len (String c rest))); [|reflexivity].
      now rewrite drop_last_app by discriminate.
  - intros Hq Hslash.
    assert (Hlq : lower (query p) <> "") by (destruct (query p); [congruence | discriminate]).
    destruct (String.eqb_spec (lower (query p)) ""); [contradiction |]. f_equal.
    rewrite <- !append_assoc. rewrite endswith_slash_app by exact Hlq.
    rewrite endswith_slash_lower, Hslash. cbn [andb].
    now rewrite !append_assoc.
Qed.

End UrlFacts.

Lemma normalize_url_lowercases_all_witness :
  BaseCrawler._normalize_url "HTTP://Example.COM/Courses/?Week=3#Top"
  = Some "http://example.com/courses/?week=3".
Proof.
  pose proof (normalize_url_lowercases_all "HTTP://Example.COM/Courses/?Week=3#Top"
                {| UrlParse.scheme := "http"; UrlParse.netloc := "Example.COM";
                   UrlParse.path := "/Courses/"; UrlParse.params := "";
                   UrlParse.query := "Week=3"; UrlParse.fragment := "Top" |} eq_refl)
    as (_ & _ & H).
  apply H; [discriminate | reflexivity].
Defined.

(** ** crawler/robots_parser.py: a host without robots.txt *)

Section UrlRoundTrip.
Import PyStr UrlParse.

Lemma all_chars_app (q : ascii -> bool) (a b : string) :
  all_chars q (a ++ b) = all_chars q a && all_chars q b.
Proof.
  induction a as [|c a IH]; [reflexivity |].
  rewrite append_cons. cbn [all_chars]. now rewrite IH, andb_assoc.
Qed.

Lemma all_chars_tail (q : ascii -> bool) (s : string) :
  all_chars q s = true -> all_chars q (tail s) = true.
Proof. destruct s as [|c s]; [auto |]. cbn. now intros [_ H]%andb_true_iff. Qed.

Lemma all_chars_break (q p : ascii -> bool) (s : string) :
  all_chars q s = true ->
  all_chars q (break p s).1 = true /\ all_chars q (break p s).2 = true.
Proof.
  induction s as [|c s IH]; [auto |]. cbn [all_chars break].
  intros [Hc Hs]%andb_true_iff. destruct (p c).
  - cbn. rewrite Hc, Hs. auto.
  - destruct (IH Hs) as [H1 H2]. destruct (break p s) as [a b]. cbn in *.
    rewrite Hc, H1. auto.
Qed.

Lemma break_fst_clean (p : ascii -> bool) (s : string) :
  all_chars (fun c => negb (p c)) (break p s).1 = true.
Proof.
  induction s as [|c s IH]; [reflexivity |]. cbn [break].
  destruct (p c) eqn:E; [reflexivity |].
  destruct (break p s) as [a b]. cbn in *. now rewrite E, IH.
Qed.

Lemma break_at (p : ascii -> bool) (a : string) (c : ascii) (b : string) :
  all_chars (fun c => negb (p c)) a = true -> p c = true ->
  break p (a ++ String c b) = (a, String c b).
Proof.
  intros Ha Hc. induction a as [|d a IH].
  - rewrite append_nil. cbn [break]. now rewrite Hc.
  - cbn [all_chars] in Ha. apply andb_true_iff in Ha as [Hd Ha].
    rewrite append_cons. cbn [break]. apply negb_true_iff in Hd. rewrite Hd.
    now rewrite (IH Ha).
Qed.

Lemma remove_class_clean (p : ascii -> bool) (s : string) :
  all_chars (fun c => negb (p c)) (remove_class p s) = true.
Proof.
  induction s as [|c s IH]; [reflexivity |]. cbn [remove_class].
  destruct (p c) eqn:E; [exact IH |]. cbn. now rewrite E, IH.
Qed.

Lemma remove_class_id (p : ascii -> bool) (s : string) :
  all_chars (fun c => negb (p c)) s = true -> remove_class p s = s.
Proof.
  induction s as [|c s IH]; [reflexivity |]. cbn [all_chars remove_class].
  intros [Hc Hs]%andb_true_iff. apply negb_true_iff in Hc. now rewrite Hc, IH.
Qed.

Lemma all_chars_weaken (q q' : ascii -> bool) (s : string) :
  (forall c, q c = true -> q' c = true) -> all_chars q s = true -> all_chars q' s = true.
Proof.
  intros Hqq. induction s as [|c s IH]; [auto |]. cbn [all_chars].
  intros [Hc Hs]%andb_true_iff. now rewrite (Hqq c Hc), IH.
Qed.

Lemma scheme_char_plain (c : ascii) :
  is_scheme_char c = true ->
  negb (is_unsafe c) = true /\ negb (Ascii.eqb ":" c) = true /\ is_c0_or_space c = false.
Proof. destruct c as [[] [] [] [] [] [] [] []]; vm_compute; auto; discriminate. Qed.

Lemma split_scheme_parts (s : string) :
  ((split_scheme s).1 = "" \/
   exists c0 rest, (split_scheme s).1 = String c0 rest /\ is_alpha c0 = true
                   /\ all_chars is_scheme_char (split_scheme s).1 = true)
  /\ forall q, all_chars q s = true -> all_chars q (split_scheme s).2 = true.
Proof.
  unfold split_scheme. pose proof (fun q => all_chars_break q (Ascii.eqb ":") s) as Hb.
  destruct (break (Ascii.eqb ":") s) as [pre rest]. cbn [fst snd] in Hb.
  destruct rest as [|r0 rest]; [cbn; auto |]. destruct pre as [|c0 pre]; [cbn; auto |].
  destruct (is_alpha c0 && all_chars is_scheme_char (String c0 pre)) eqn:E; [|cbn; auto].
  apply andb_true_iff in E as [Ha Hs]. cbn [fst snd]. split.
  - right. exists (lower_char c0), (lower pre). split; [reflexivity |].
    rewrite alpha_lower. split; [exact Ha |].
    change (String (lower_char c0) (lower pre)) with (lower (String c0 pre)).
    rewrite <- (all_chars_lower _ (String c0 pre) scheme_char_lower) in Hs. exact Hs.
  - intros q Hq. destruct (Hb q Hq) as [_ H2]. cbn [all_chars] in H2.
    now apply andb_true_iff in H2 as [_ H2].
Qed.

Lemma split_netloc_parts (s : string) :
  all_chars (fun c => negb (is_netloc_delim c)) (split_netloc s).1 = true
  /\ forall q, all_chars q s = true -> all_chars q (split_netloc s).1 = true.
Proof.
  unfold split_netloc. destruct s as [|a [|b s]]; [cbn; auto | cbn; auto |].
  destruct (Ascii.eqb a "/" && Ascii.eqb b "/"); [|cbn; auto]. split.
  - apply break_fst_clean.
  - intros q Hq. cbn [all_chars] in Hq.
    apply andb_true_iff in Hq as [_ Hq]. apply andb_true_iff in Hq as [_ Hq].
    now apply all_chars_break.
Qed.

Lemma urlsplit_clean (url : string) (r : ParseResult) :
  urlsplit url = Some r -> clean_parts r.
Proof.
  unfold urlsplit.
  set (u := remove_class is_unsafe (lstrip_class is_c0_or_space url)).
  assert (Hu : all_chars (fun c => negb (is_unsafe c)) u = true) by apply remove_class_clean.
  destruct (split_scheme_parts u) as [Hsch Hrest].
  destruct (split_scheme u) as [sch rest]. cbn [fst snd] in *.
  destruct (split_netloc_parts rest) as [Hdelim Hloc].
  destruct (split_netloc rest) as [loc rest']. cbn [fst snd] in *.
  destruct (brackets_ok loc) eqn:Hbr; [|discriminate].
  destruct (split1 "#" rest') as [v frag]. destruct (split1 "?" v) as [v' qry].
  intros [= <-]. constructor; cbn; auto.
Qed.

Lemma urlparse_clean (url : string) (p : ParseResult) :
  urlparse url = Some p -> clean_parts p.
Proof.
  unfold urlparse. destruct (urlsplit url) as [r|] eqn:E; [|discriminate].
  destruct (urlsplit_clean url r E) as [H1 H2 H3 H4].
  destruct (existsb (String.eqb (scheme r)) uses_params && has_char ";" (path r)).
  - destruct (_splitparams (path r)). intros [= <-]. constructor; assumption.
  - intros [= <-]. constructor; assumption.
Qed.

Lemma split_scheme_of (c0 : ascii) (r rest : string) :
  is_alpha c0 = true -> all_chars is_scheme_char (String c0 r) = true ->
  lower (String c0 r) = String c0 r ->
  split_scheme (String c0 r ++ String ":" rest) = (String c0 r, rest).
Proof.
  intros Halpha Hchars Hlow. unfold split_scheme.
  rewrite (break_at (Ascii.eqb ":") (String c0 r) ":" rest).
  - rewrite Halpha, Hchars. cbn [andb]. now rewrite Hlow.
  - eapply all_chars_weaken; [|exact Hchars]. intros c Hc. now apply scheme_char_plain in Hc.
  - reflexivity.
Qed.

(** The robots.txt address built from the scheme and the network location
    of a URL parses back to the same network location. *)
Lemma robots_url_netloc (url : string) (p : ParseResult) :
  urlparse url = Some p -> scheme p <> "" ->
  exists parsed,
    urlparse (scheme p ++ "://" ++ netloc p ++ "/robots.txt") = Some parsed
    /\ netloc parsed = netloc p.
Proof.
  intros Hp Hne. destruct (urlparse_clean url p Hp) as [Hsch Hdelim Hunsafe Hbr].
  destruct Hsch as [He | (c0 & rest & Hs & Halpha & Hchars)]; [contradiction |].
  assert (Hc0 : is_c0_or_space c0 = false).
  { rewrite Hs in Hchars. cbn [all_chars] in Hchars.
    apply andb_true_iff in Hchars as [Hc _]. now apply scheme_char_plain in Hc. }
  assert (Hsu : all_chars (fun c => negb (is_unsafe c)) (scheme p) = true).
  { eapply all_chars_weaken; [|exact Hchars]. intros c Hc. now apply scheme_char_plain in Hc. }
  exists {| scheme := scheme p; netloc := netloc p; path := "/robots.txt";
            params := ""; query := ""; fragment := "" |}.
  split; [|reflexivity].
  unfold urlparse, urlsplit.
  assert (Hstrip : lstrip_class is_c0_or_space (scheme p ++ "://" ++ netloc p ++ "/robots.txt")
                   = scheme p ++ "://" ++ netloc p ++ "/robots.txt").
  { rewrite Hs, append_cons. cbn [lstrip_class]. now rewrite Hc0. }
  rewrite Hstrip. rewrite remove_class_id.
  2:{ rewrite !all_chars_app, Hsu, Hunsafe. reflexivity. }
  assert (Hss : split_scheme (scheme p ++ "://" ++ netloc p ++ "/robots.txt")
                = (scheme p, "//" ++ netloc p ++ "/robots.txt")).
  { change (scheme p ++ "://" ++ netloc p ++ "/robots.txt")
      with (scheme p ++ String ":" ("//" ++ netloc p ++ "/robots.txt")).
    pose proof (urlparse_scheme_lowercase url p Hp) as Hlow.
    rewrite Hs in *. now apply split_scheme_of. }
  rewrite Hss.
  assert (Hsn : split_netloc ("//" ++ netloc p ++ "/robots.txt")
                = (netloc p, "/robots.txt")).
  { change ("//" ++ netloc p ++ "/robots.txt")
      with (String "/" (String "/" (netloc p ++ String "/" "robots.txt"))).
    unfold split_netloc. cbn [Ascii.eqb Bool.eqb andb].
    apply (break_at is_netloc_delim (netloc p) "/" _ Hdelim eq_refl). }
  rewrite Hsn, Hbr. cbn. rewrite andb_false_r. reflexivity.
Qed.

End UrlRoundTrip.

Section RobotsFacts.
Import PyStr UrlParse RobotsParser.

Variable RobotFileParser : Type.
Variable rfp_parse : string -> list string -> RobotFileParser.
Variable rfp_can_fetch : RobotFileParser -> string -> string -> bool.
Variable py_float : string -> option Q.

Lemma directive_step_frame (domain agent : string)
    (acc : option string * robots RobotFileParser) (line : string) :
  robots_cache (directive_step py_float domain agent acc line).2 = robots_cache acc.2
  /\ forall d, d <> domain ->
       sitemap_cache (directive_step py_float domain agent acc line).2 !! d
       = sitemap_cache acc.2 !! d.
Proof.
  unfold directive_step. destruct acc as [cur self]. cbn [snd].
  destruct (String.eqb (strip line) "" || startswith (strip line) "#"); [auto |].
  destruct (startswith (lower (strip line)) "user-agent:"); [auto |].
  destruct (match cur with Some _ => _ | None => _ end); [auto |].
  cbn [snd].
  destruct (startswith (lower (strip line)) "crawl-delay:");
    [destruct (py_float (directive_value (strip line)))|];
    (destruct (startswith (lower (strip line)) "sitemap:");
     [destruct (startswith (directive_value (strip line)) "http")|]);
    cbn; split; try reflexivity; intros d Hd; try reflexivity;
    now rewrite lookup_insert_ne.
Qed.

Lemma directives_frame (domain agent : string) (lines : list string)
    (acc : option string * robots RobotFileParser) :
  robots_cache (foldl (directive_step py_float domain agent) acc lines).2 = robots_cache acc.2
  /\ forall d, d <> domain ->
       sitemap_cache (foldl (directive_step py_float domain agent) acc lines).2 !! d
       = sitemap_cache acc.2 !! d.
Proof.
  revert acc. induction lines as [|l lines IH]; intros acc; [auto |].
  cbn [foldl]. destruct (IH (directive_step py_float domain agent acc l)) as [Hc Hs].
  destruct (directive_step_frame domain agent acc l) as [Hc' Hs'].
  split; [congruence |]. intros d Hd. now rewrite Hs, Hs'.
Qed.

Lemma cached_for_host_insert (self self' : robots RobotFileParser) (host : string) :
  (forall k, is_Some (robots_cache self !! k) -> is_Some (robots_cache self' !! k)) ->
  parser_cached_for_host self host -> parser_cached_for_host self' host.
Proof.
  intros Hmono (ru & parsed & Hin & Hparse & Hhost). exists ru, parsed. auto.
Qed.

Lemma fetch_robots_keeps (self self' : robots RobotFileParser)
    (net : string -> http_result) (url agent : string) (r : option RobotFileParser) :
  sitemaps_have_parser self ->
  fetch_robots rfp_parse py_float self net url agent = Some (r, self') ->
  sitemaps_have_parser self'.
Proof.
  intros Hinv. unfold fetch_robots.
  destruct (_get_robots_url url) as [ru|]; [|discriminate].
  destruct (robots_cache self !! ru) as [rp|] eqn:Ecache; [now intros [= <- <-] |].
  destruct (net ru) as [m | status text]; [now intros [= <- <-] |].
  destruct (status =? 200); [|now intros [= <- <-]].
  set (self1 := {| robots_cache := <[ru := rfp_parse ru (splitlines text)]> (robots_cache self);
                   sitemap_cache := sitemap_cache self;
                   crawl_delays := crawl_delays self |}).
  assert (Hmono : forall k, is_Some (robots_cache self !! k) ->
                            is_Some (robots_cache self1 !! k)).
  { intros k Hk. cbn. destruct (decide (ru = k)) as [->|Hne].
    - rewrite lookup_insert_eq. eauto.
    - now rewrite lookup_insert_ne. }
  unfold _parse_extended_directives.
  destruct (urlparse ru) as [parsed|] eqn:Eparse.
  - intros [= <- <-]. intros d Hd.
    destruct (directives_frame (netloc parsed) agent (splitlines text) (None, self1))
      as [Hc Hs]. cbn [snd] in Hc, Hs.
    destruct (decide (d = netloc parsed)) as [->|Hne].
    + exists ru, parsed. rewrite Hc. cbn. rewrite lookup_insert_eq. eauto.
    + rewrite (Hs d Hne) in Hd. cbn in Hd.
      eapply cached_for_host_insert; [|exact (Hinv d Hd)].
      intros k Hk. rewrite Hc. now apply Hmono.
  - intros [= <- <-]. intros d Hd.
    eapply cached_for_host_insert; [exact Hmono | exact (Hinv d Hd)].
Qed.

Lemma reachable_sitemaps_have_parser (self : robots RobotFileParser) :
  reachable rfp_parse rfp_can_fetch py_float self -> sitemaps_have_parser self.
Proof.
  induction 1 as [| self net url agent r self' _ IH Hf
                  | self net url agent b self' _ IH Hc
                  | self net url l self' _ IH Hs
                  | self _ IH].
  - intros d [l Hd]. cbn in Hd. now rewrite lookup_empty in Hd.
  - exact (fetch_robots_keeps _ _ _ _ _ _ IH Hf).
  - unfold can_fetch in Hc. destruct (_get_robots_url url) as [ru|]; [|discriminate].
    destruct (robots_cache self !! ru) as [rp|].
    + now injection Hc as _ <-.
    + destruct (fetch_robots rfp_parse py_float self net url agent) as [[[rp|] s]|] eqn:E;
        [| |discriminate]; injection Hc as _ <-; exact (fetch_robots_keeps _ _ _ _ _ _ IH E).
  - unfold get_sitemaps in Hs. destruct (urlparse url) as [parsed|]; [|discriminate].
    destruct (sitemap_cache self !! netloc parsed).
    + now injection Hs as _ <-.
    + destruct (fetch_robots rfp_parse py_float self net url "*") as [[r s]|] eqn:E;
        [|discriminate]. cbn in Hs. injection Hs as _ <-.
      exact (fetch_robots_keeps _ _ _ _ _ _ IH E).
  - intros d [l Hd]. cbn in Hd. now rewrite lookup_empty in Hd.
Qed.

(** C7. When no parser is cached for a host and the request for the
    host's robots.txt is answered with 404, [can_fetch] returns true for
    every URL on that host and every user agent, and [get_sitemaps]
    returns the empty list for it; the parser object is left as it was. *)
Theorem robots_absent_allows_all (self : robots RobotFileParser)
    (net : string -> http_result) (url user_agent body : string) (p : ParseResult) :
  reachable rfp_parse rfp_can_fetch py_float self ->
  urlparse url = Some p -> scheme p <> "" ->
  ~ parser_cached_for_host self (netloc p) ->
  net (scheme p ++ "://" ++ netloc p ++ "/robots.txt") = Response 404 body ->
  can_fetch rfp_parse rfp_can_fetch py_float self net url user_agent = Some (true, self)
  /\ get_sitemaps rfp_parse py_float self net url = Some ([], self).
Proof.
  intros Hreach Hp Hscheme Hnone Hnet.
  pose proof (reachable_sitemaps_have_parser self Hreach) as Hinv.
  assert (Hcache : robots_cache self !! (scheme p ++ "://" ++ netloc p ++ "/robots.txt") = None).
  { destruct (robots_cache self !! _) as [rp|] eqn:E; [|reflexivity].
    exfalso. apply Hnone.
    destruct (robots_url_netloc url p Hp Hscheme) as (parsed & Hparse & Hhost).
    exists (scheme p ++ "://" ++ netloc p ++ "/robots.txt"), parsed. rewrite E. eauto. }
  assert (Hfetch : forall agent,
             fetch_robots rfp_parse py_float self net url agent = Some (None, self)).
  { intros agent. unfold fetch_robots, _get_robots_url. rewrite Hp, Hcache, Hnet. reflexivity. }
  split.
  - unfold can_fetch, _get_robots_url. rewrite Hp, Hcache, Hfetch. reflexivity.
  - unfold get_sitemaps. rewrite Hp.
    destruct (sitemap_cache self !! netloc p) as [l|] eqn:E.
    + exfalso. apply Hnone, Hinv. rewrite E. eauto.
    + rewrite Hfetch. cbn. now rewrite E.
Qed.

End RobotsFacts.

Lemma robots_absent_allows_all_witness :
  RobotsParser.can_fetch (fun _ _ => tt) (fun _ _ _ => false) (fun _ => None)
    RobotsParser.new_robots (fun _ => RobotsParser.Response 404 "Not Found")
    "https://cs.example.edu/courses/cs101" "hw-scraper"
  = Some (true, RobotsParser.new_robots)
  /\ RobotsParser.get_sitemaps (fun _ _ => tt) (fun _ => None)
       RobotsParser.new_robots (fun _ => RobotsParser.Response 404 "Not Found")
       "https://cs.example.edu/courses/cs101"
     = Some ([], RobotsParser.new_robots).
Proof.
  apply (robots_absent_allows_all unit (fun _ _ => tt) (fun _ _ _ => false) (fun _ => None)
           RobotsParser.new_robots (fun _ => RobotsParser.Response 404 "Not Found")
           "https://cs.example.edu/courses/cs101" "hw-scraper" "Not Found"
           {| UrlParse.scheme := "https"; UrlParse.netloc := "cs.example.edu";
              UrlParse.path := "/courses/cs101"; UrlParse.params := "";
              UrlParse.query := ""; UrlParse.fragment := "" |}).
  - constructor.
  - reflexivity.
  - discriminate.
  - intros (ru & parsed & [rp Hin] & _). cbn in Hin. now rewrite lookup_empty in Hin.
  - reflexivity.
Defined.

(** ** concurrency.py: lists in chunks *)

Section ChunkFacts.
Import Concurrency.
Context {A : Type}.
Local Open Scope list_scope.

Lemma chunks_concat (n m : nat) (l : list A) :
  (length l <= m * n)%nat ->
  concat ((fun k => take n (drop (k * n) l)) <$> seq 0 m) = l.
Proof.
  revert l. induction m as [|m IH]; intros l Hl.
  - destruct l; [reflexivity | simpl in Hl; lia].
  - rewrite <- cons_seq, fmap_cons, <- fmap_S_seq, <- list_fmap_compose. simpl concat.
    change (drop (0 * n) l) with l.
    transitivity (take n l ++ drop n l); [|apply take_drop]. f_equal.
    etransitivity; [|apply (IH (drop n l)); rewrite length_drop; lia].
    f_equal. apply list_fmap_ext. intros _ k _. simpl. by rewrite drop_drop.
Qed.

Lemma range_count (len n : nat) :
  (0 < n)%nat ->
  (len <= (len + n - 1) / n * n)%nat
  /\ forall k, (k < (len + n - 1) / n)%nat -> (k * n < len)%nat.
Proof.
  intros Hn.
  pose proof (Nat.div_mod_eq (len + n - 1) n) as E.
  pose proof (Nat.mod_upper_bound (len + n - 1) n) as U.
  split; [|intros k Hk]; nia.
Qed.

(** X1. [chunk_list] with a positive chunk size cuts the list into
    consecutive pieces: joined again they give the list back, no piece is
    empty, none is longer than the chunk size, and every piece but the
    last has exactly that size. *)
Theorem chunk_list_partitions (lst : list A) (chunk_size : Z) :
  0 < chunk_size ->
  exists chunks,
    chunk_list lst chunk_size = Some chunks
    /\ concat chunks = lst
    /\ Forall (fun c => 1 <= Z.of_nat (length c) <= chunk_size) chunks
    /\ forall i c, chunks !! i = Some c -> (S i < length chunks)%nat ->
                   Z.of_nat (length c) = chunk_size.
Proof.
  intros Hn. unfold chunk_list.
  destruct (chunk_size =? 0) eqn:E0; [lia|].
  destruct (chunk_size <? 0) eqn:E1; [lia|].
  eexists. split; [reflexivity|].
  set (n := Z.to_nat chunk_size). assert (Hn' : (0 < n)%nat) by lia.
  destruct (range_count (length lst) n Hn') as [Hlen Hk].
  unfold range_step. rewrite <- list_fmap_compose.
  split; [|split].
  - apply chunks_concat, Hlen.
  - apply Forall_fmap, Forall_forall. intros k Hin.
    apply elem_of_seq in Hin. simpl.
    rewrite length_take, length_drop. specialize (Hk k). lia.
  - intros i c Hi Hlt. rewrite length_fmap, length_seq in Hlt.
    rewrite list_lookup_fmap in Hi.
    destruct (seq 0 ((length lst + n - 1) / n) !! i) as [k|] eqn:Ek; [|discriminate].
    apply lookup_seq in Ek as [-> _]. simpl in Hi. injection Hi as <-.
    rewrite length_take, length_drop. specialize (Hk (S i) Hlt). lia.
Qed.

End ChunkFacts.

Lemma chunk_list_partitions_witness :
  exists chunks,
    Concurrency.chunk_list ["a"; "b"; "c"; "d"; "e"] 2 = Some chunks
    /\ concat chunks = ["a"; "b"; "c"; "d"; "e"]
    /\ Forall (fun c => 1 <= Z.of_nat (length c) <= 2) chunks
    /\ forall i c, chunks !! i = Some c -> (S i < length chunks)%nat ->
                   Z.of_nat (length c) = 2.
Proof. apply (chunk_list_partitions ["a"; "b"; "c"; "d"; "e"] 2). lia. Defined.

(** ** concurrency.py: exponential backoff *)

Section BackoffFacts.
Import Concurrency.

Lemma py_min_spec (a b : Q) :
  (py_min a b <= b)%Q /\ (py_min a b <= a)%Q
  /\ ((a <= b)%Q -> py_min a b = a) /\ ((b < a)%Q -> py_min a b = b).
Proof.
  unfold py_min. destruct (Qltb b a) eqn:E.
  - apply Qltb_true in E. repeat split; intros; try lra; reflexivity.
  - apply Qltb_false in E. repeat split; intros; try lra; reflexivity.
Qed.

Lemma py_min_mono (a a' b : Q) : (a <= a')%Q -> (py_min a b <= py_min a' b)%Q.
Proof.
  intros H. unfold py_min.
  destruct (Qltb b a) eqn:E, (Qltb b a') eqn:E';
    try apply Qltb_true in E; try apply Qltb_false in E;
    try apply Qltb_true in E'; try apply Qltb_false in E'; lra.
Qed.

(** X2. Without jitter the delay of [ExponentialBackoff.get_delay]
    is [base_delay * 2 ** attempt] as long as that does not exceed
    [max_delay], never exceeds [max_delay], and does not decrease when the
    attempt number grows (for a non-negative base delay and attempt numbers
    below 1024, from which the conversion to a float overflows). *)
Theorem backoff_capped_and_monotone (b : ExponentialBackoff) (a a' : Z) (r r' : Q) :
  jitter b = false -> (0 <= base_delay b)%Q -> a <= a' -> a' < 1024 ->
  exists d d',
    get_delay b a r = Some d /\ get_delay b a' r' = Some d'
    /\ (d <= d')%Q /\ (d' <= max_delay b)%Q
    /\ ((base_delay b * 2 ^ a <= max_delay b)%Q -> d = (base_delay b * 2 ^ a)%Q).
Proof.
  intros Hj Hb Ha Ha'. unfold get_delay. rewrite Hj.
  destruct (1024 <=? a) eqn:E; [lia|]. destruct (1024 <=? a') eqn:E'; [lia|].
  eexists _, _. split; [reflexivity|]. split; [reflexivity|].
  split; [|split].
  - apply py_min_mono.
    assert (H2 : (2 ^ a <= 2 ^ a')%Q) by (apply Qpower_le_compat_l; [exact Ha | lra]).
    assert (H0 : (0 <= 2 ^ a)%Q) by (apply Qpower_0_le; lra).
    nra.
  - apply py_min_spec.
  - apply py_min_spec.
Qed.

(** X3. With jitter the delay is the capped delay times a factor
    in [0.5, 1.5): it lies between half and one and a half times the
    capped delay, and [max_delay] is no upper bound any more: once the
    cap is reached, every draw above one half gives a longer delay. *)
Theorem backoff_jitter_bounds (b : ExponentialBackoff) (a : Z) (r : Q) :
  jitter b = true -> (0 <= base_delay b)%Q -> (0 < max_delay b)%Q -> a < 1024 ->
  (0 <= r)%Q -> (r < 1)%Q ->
  exists d0 d,
    get_delay {| base_delay := base_delay b; max_delay := max_delay b; jitter := false |} a r
    = Some d0
    /\ get_delay b a r = Some d
    /\ ((1 # 2) * d0 <= d)%Q /\ (d <= (3 # 2) * d0)%Q /\ (d <= (3 # 2) * max_delay b)%Q
    /\ ((max_delay b <= base_delay b * 2 ^ a)%Q -> ((1 # 2) < r)%Q -> (max_delay b < d)%Q).
Proof.
  intros Hj Hb Hm Ha Hr0 Hr1. unfold get_delay. rewrite Hj. simpl.
  destruct (1024 <=? a) eqn:E; [lia|].
  eexists _, _. split; [reflexivity|]. split; [reflexivity|].
  set (d0 := py_min (base_delay b * 2 ^ a) (max_delay b)).
  assert (H0 : (0 <= 2 ^ a)%Q) by (apply Qpower_0_le; lra).
  assert (Hd0 : (0 <= d0)%Q).
  { unfold d0, py_min. destruct (Qltb _ _); [lra | nra]. }
  assert (Hd1 : (d0 <= max_delay b)%Q) by apply py_min_spec.
  assert (Hcases : (max_delay b <= base_delay b * 2 ^ a)%Q -> (d0 == max_delay b)%Q).
  { intros Hcap. unfold d0, py_min. destruct (Qltb _ _) eqn:El; [reflexivity|].
    apply Qltb_false in El. lra. }
  clearbody d0.
  assert (Hx0 : (0 <= d0 * r)%Q) by (apply Qmult_le_0_compat; assumption).
  assert (Hx1 : (d0 * r <= d0 * 1)%Q) by (apply Qmult_le_compat_nonneg; split; lra).
  assert (Hx2 : ((1 # 2) < r)%Q -> (0 < d0)%Q -> (d0 * (1 # 2) < d0 * r)%Q).
  { intros. apply Qmult_lt_l; assumption. }
  assert (He : (d0 * (0.5 + r) == (1 # 2) * d0 + d0 * r)%Q) by ring.
  assert (H1 : (d0 * 1 == d0)%Q) by ring.
  assert (H2 : (d0 * (1 # 2) == (1 # 2) * d0)%Q) by ring.
  revert Hx0 Hx1 Hx2 He H1 H2.
  generalize (d0 * (0.5 + r))%Q (d0 * r)%Q (d0 * 1)%Q (d0 * (1 # 2))%Q.
  intros y x x1 xh Hx0 Hx1 Hx2 He H1 H2.
  split; [lra|]. split; [clear - Hx0 Hx1 He H1; lra|].
  split; [clear - Hx0 Hx1 He H1 Hd1; lra|].
  intros Hcap Hr. specialize (Hcases Hcap). specialize (Hx2 Hr).
  clear - Hx2 Hcases Hm He H2. lra.
Qed.

End BackoffFacts.

Lemma backoff_capped_and_monotone_witness :
  exists d d',
    Concurrency.get_delay {| Concurrency.base_delay := 1; Concurrency.max_delay := 60;
                             Concurrency.jitter := false |} 3 0 = Some d
    /\ Concurrency.get_delay {| Concurrency.base_delay := 1; Concurrency.max_delay := 60;
                                Concurrency.jitter := false |} 10 0 = Some d'
    /\ (d <= d')%Q /\ (d' <= 60)%Q
    /\ ((1 * 2 ^ 3 <= 60)%Q -> d = (1 * 2 ^ 3)%Q).
Proof.
  apply (backoff_capped_and_monotone
           {| Concurrency.base_delay := 1; Concurrency.max_delay := 60;
              Concurrency.jitter := false |} 3 10 0 0);
    [reflexivity | simpl; lra | lia | lia].
Defined.

Lemma backoff_jitter_bounds_witness :
  exists d0 d,
    Concurrency.get_delay {| Concurrency.base_delay := 1; Concurrency.max_delay := 60;
                             Concurrency.jitter := false |} 10 (3 # 4) = Some d0
    /\ Concurrency.get_delay Concurrency.new_backoff 10 (3 # 4) = Some d
    /\ ((1 # 2) * d0 <= d)%Q /\ (d <= (3 # 2) * d0)%Q /\ (d <= (3 # 2) * 60)%Q
    /\ ((60 <= 1 * 2 ^ 10)%Q -> ((1 # 2) < (3 # 4))%Q -> (60 < d)%Q).
Proof.
  apply (backoff_jitter_bounds Concurrency.new_backoff 10 (3 # 4));
    [reflexivity | simpl; lra | simpl; lra | lia | lra | lra].
Defined.

(** ** concurrency.py: the states of the blocking circuit breaker *)

Section BreakerInvariant.
Import Concurrency.

Lemma dd_get_fst {V : Type} (dflt : V) (d : gmap string V) (k : string) :
  fst (dd_get dflt d k) = default dflt (d !! k).
Proof. unfold dd_get. by destruct (d !! k). Qed.

Lemma dd_get_snd {V : Type} (dflt : V) (d : gmap string V) (k k' : string) :
  default dflt (snd (dd_get dflt d k) !! k') = default dflt (d !! k').
Proof.
  unfold dd_get. destruct (d !! k) eqn:E; [reflexivity|]. simpl.
  destruct (decide (k = k')) as [->|Hne].
  - by rewrite lookup_insert_eq, E.
  - by rewrite lookup_insert_ne.
Qed.

Lemma default_insert {V : Type} (dflt v : V) (d : gmap string V) (k k' : string) :
  default dflt (<[k := v]> d !! k') = if decide (k = k') then v else default dflt (d !! k').
Proof.
  destruct (decide (k = k')) as [->|Hne].
  - by rewrite lookup_insert_eq.
  - by rewrite lookup_insert_ne.
Qed.

(** what the three operations do to the state and the count of a service *)
Lemma is_open_effect cb X now Y :
  failures_of (snd (is_open cb X now)) Y = failures_of cb Y
  /\ failure_threshold (snd (is_open cb X now)) = failure_threshold cb
  /\ (get_state (snd (is_open cb X now)) Y = get_state cb Y
      \/ (Y = X /\ get_state cb X = "open"
          /\ get_state (snd (is_open cb X now)) X = "half_open")).
Proof.
  unfold is_open, failures_of, get_state. rewrite !dd_get_fst.
  destruct (dd_get "closed" (_state cb) X) as [st states] eqn:E.
  assert (Hst : st = default "closed" (_state cb !! X)).
  { by rewrite <- dd_get_fst, E. }
  assert (Hstates : forall k, default "closed" (states !! k) = default "closed" (_state cb !! k)).
  { intros k. rewrite <- (dd_get_snd "closed" (_state cb) X k). by rewrite E. }
  destruct (String.eqb st "open") eqn:Eo.
  - apply String.eqb_eq in Eo.
    destruct (Qltb _ _); simpl; rewrite ?dd_get_fst.
    + split; [reflexivity|]. split; [reflexivity|].
      rewrite default_insert. destruct (decide (X = Y)) as [->|Hne].
      * right. repeat split; [congruence | by rewrite default_insert, decide_True].
      * left. apply Hstates.
    + split; [reflexivity|]. split; [reflexivity|]. left. apply Hstates.
  - simpl. rewrite ?dd_get_fst. split; [reflexivity|]. split; [reflexivity|].
    left. apply Hstates.
Qed.

Lemma record_success_effect cb X Y :
  failure_threshold (record_success cb X) = failure_threshold cb
  /\ ((failures_of (record_success cb X) Y = failures_of cb Y
       /\ get_state (record_success cb X) Y = get_state cb Y)
      \/ (Y = X /\ get_state cb X = "half_open"
          /\ failures_of (record_success cb X) X = 0
          /\ get_state (record_success cb X) X = "closed")).
Proof.
  unfold record_success, failures_of, get_state. rewrite !dd_get_fst.
  destruct (dd_get "closed" (_state cb) X) as [st states] eqn:E.
  assert (Hst : st = default "closed" (_state cb !! X)).
  { by rewrite <- dd_get_fst, E. }
  assert (Hstates : forall k, default "closed" (states !! k) = default "closed" (_state cb !! k)).
  { intros k. rewrite <- (dd_get_snd "closed" (_state cb) X k). by rewrite E. }
  destruct (String.eqb st "half_open") eqn:Eo.
  - apply String.eqb_eq in Eo.
    destruct (dd_get 0 (_half_open_count cb) X) as [n counts].
    destruct (half_open_max cb <=? n + 1); simpl; rewrite ?dd_get_fst.
    + split; [reflexivity|]. rewrite !default_insert.
      destruct (decide (X = Y)) as [->|Hne].
      * right. repeat split; [congruence | | ]; by rewrite ?default_insert, ?decide_True.
      * left. split; [reflexivity | apply Hstates].
    + split; [reflexivity|]. left. split; [reflexivity | apply Hstates].
  - simpl. rewrite ?dd_get_fst. split; [reflexivity|].
    left. split; [reflexivity | apply Hstates].
Qed.

Lemma record_failure_effect cb X now Y :
  failure_threshold (record_failure cb X now) = failure_threshold cb
  /\ (Y <> X ->
      failures_of (record_failure cb X now) Y = failures_of cb Y
      /\ get_state (record_failure cb X now) Y = get_state cb Y)
  /\ failures_of (record_failure cb X now) X = failures_of cb X + 1
  /\ get_state (record_failure cb X now) X
     = if failure_threshold cb <=? failures_of cb X + 1 then "open" else get_state cb X.
Proof.
  unfold record_failure, failures_of, get_state. rewrite !dd_get_fst.
  destruct (dd_get 0 (_failures cb) X) as [n failures] eqn:E.
  assert (Hn : n = default 0 (_failures cb !! X)).
  { by rewrite <- dd_get_fst, E. }
  assert (Hf : forall k, default 0 (failures !! k) = default 0 (_failures cb !! k)).
  { intros k. rewrite <- (dd_get_snd 0 (_failures cb) X k). by rewrite E. }
  simpl. rewrite ?dd_get_fst, <- ?Hn. split; [reflexivity|]. split; [|split].
  - intros Hne. rewrite default_insert, decide_False by congruence.
    split; [apply Hf|].
    destruct (failure_threshold cb <=? n + 1); [|reflexivity].
    by rewrite default_insert, decide_False by congruence.
  - by rewrite default_insert, decide_True.
  - destruct (failure_threshold cb <=? n + 1); [|reflexivity].
    by rewrite default_insert, decide_True.
Qed.

(** the invariant: a circuit is closed exactly while the count of its
    service is below the threshold *)
Lemma breaker_invariant (threshold : Z) (tm : Q) (hmax : Z) (cb : CircuitBreaker) :
  0 < threshold ->
  breaker_reachable threshold tm hmax cb ->
  failure_threshold cb = threshold
  /\ forall Y,
       0 <= failures_of cb Y
       /\ ((get_state cb Y = "closed" /\ failures_of cb Y < threshold)
           \/ ((get_state cb Y = "open" \/ get_state cb Y = "half_open")
               /\ threshold <= failures_of cb Y)).
Proof.
  intros HT. induction 1 as [|cb X now _ [IHt IH]|cb X _ [IHt IH]|cb X now _ [IHt IH]].
  - split; [reflexivity|]. intros Y. unfold failures_of, get_state, dd_get. simpl.
    rewrite !lookup_empty. simpl. split; [lia|]. left. split; [reflexivity | lia].
  - destruct (is_open_effect cb X now X) as (_ & Ht & _).
    split; [congruence|]. intros Y.
    destruct (is_open_effect cb X now Y) as (Hf & _ & Hs). specialize (IH Y).
    rewrite Hf. destruct Hs as [Hs | (-> & Ho & Hh)].
    + rewrite Hs. exact IH.
    + rewrite Hh. destruct IH as [H0 [[Hc _] | [_ Hge]]]; [congruence|].
      split; [exact H0|]. right. split; [by right | exact Hge].
  - destruct (record_success_effect cb X X) as (Ht & _).
    split; [congruence|]. intros Y.
    destruct (record_success_effect cb X Y) as (_ & [[Hf Hs] | (-> & Hh & Hf & Hs)]).
    + rewrite Hf, Hs. apply IH.
    + rewrite Hf, Hs. split; [lia|]. left. split; [reflexivity | lia].
  - destruct (record_failure_effect cb X now X) as (Ht & _ & Hf & Hs).
    split; [congruence|]. intros Y. destruct (decide (Y = X)) as [->|Hne].
    + rewrite Hf, Hs, IHt. specialize (IH X).
      destruct (threshold <=? failures_of cb X + 1) eqn:E.
      * split; [lia|]. right. split; [by left | lia].
      * destruct IH as [H0 [[Hc Hlt] | [Hoh Hge]]]; [|lia].
        split; [lia|]. left. split; [exact Hc | lia].
    + destruct (record_failure_effect cb X now Y) as (_ & Hy & _).
      destruct (Hy Hne) as [Hf' Hs']. rewrite Hf', Hs'. apply IH.
Qed.

(** X4. In every state that a blocking circuit breaker with a
    positive threshold can reach, the circuit of a service is closed
    exactly while its failure count is below the threshold, and is open or
    half-open otherwise; the count is never negative and no other state
    name occurs. *)
Theorem breaker_closed_iff_below_threshold (threshold : Z) (tm : Q) (hmax : Z)
    (cb : CircuitBreaker) (service : string) :
  0 < threshold ->
  breaker_reachable threshold tm hmax cb ->
  0 <= failures_of cb service
  /\ (get_state cb service = "closed" <-> failures_of cb service < threshold)
  /\ (get_state cb service = "closed" \/ get_state cb service = "open"
      \/ get_state cb service = "half_open").
Proof.
  intros HT Hr. destruct (breaker_invariant _ _ _ _ HT Hr) as [_ H].
  destruct (H service) as [H0 [[Hc Hlt] | [[Ho | Ho] Hge]]]; rewrite ?Hc, ?Ho;
    (split; [exact H0|]);
    (split; [split; [intros; (lia || discriminate) | intros; (reflexivity || lia)] |]);
    auto.
Qed.

(** X5. A failure reported while the circuit is half-open
    (the trial request failed) opens it again at once, whatever the
    threshold: the count was not reset when the circuit became half-open. *)
Theorem failed_probe_reopens (threshold : Z) (tm : Q) (hmax : Z)
    (cb : CircuitBreaker) (service : string) (now : Q) :
  0 < threshold ->
  breaker_reachable threshold tm hmax cb ->
  get_state cb service = "half_open" ->
  get_state (record_failure cb service now) service = "open"
  /\ _last_failure (record_failure cb service now) !! service = Some now.
Proof.
  intros HT Hr Hh. destruct (breaker_invariant _ _ _ _ HT Hr) as [Ht H].
  destruct (record_failure_effect cb service now service) as (_ & _ & _ & Hs).
  split; [|apply record_failure_last].
  rewrite Hs, Ht. destruct (H service) as [H0 [[Hc _] | [_ Hge]]]; [congruence|].
  destruct (threshold <=? failures_of cb service + 1) eqn:E; [reflexivity | lia].
Qed.

(** X6. The count that trips the breaker is not a count of
    consecutive failures: successes reported while the circuit is closed
    leave the count as it is, so a failure that brings the total to the
    threshold opens the circuit however many successes came in between. *)
Theorem successes_do_not_reset_count (cb : CircuitBreaker) (service : string)
    (successes : nat) (now : Q) :
  get_state cb service = "closed" ->
  failure_threshold cb <= failures_of cb service + 1 ->
  let cb' := Nat.iter successes (fun c => record_success c service) cb in
  failures_of cb' service = failures_of cb service
  /\ get_state cb' service = "closed"
  /\ get_state (record_failure cb' service now) service = "open".
Proof.
  intros Hc Hge cb'.
  assert (H : failures_of cb' service = failures_of cb service
              /\ get_state cb' service = "closed"
              /\ failure_threshold cb' = failure_threshold cb).
  { subst cb'. induction successes as [|k (IHf & IHs & IHt)]; [auto|]. simpl.
    destruct (record_success_effect (Nat.iter k (fun c => record_success c service) cb)
                service service) as (Ht & [[Hf Hs] | (_ & Hh & _)]); [|congruence].
    rewrite Hf, Hs, Ht. auto. }
  destruct H as (Hf & Hs & Ht). split; [exact Hf|]. split; [exact Hs|].
  apply record_failure_trips. rewrite Ht, Hf. exact Hge.
Qed.

End BreakerInvariant.

Lemma breaker_closed_iff_below_threshold_witness :
  let cb := Concurrency.record_failure
              {| Concurrency.failure_threshold := 5; Concurrency.timeout := 60;
                 Concurrency.half_open_max := 1; Concurrency._failures := ∅;
                 Concurrency._last_failure := ∅; Concurrency._state := ∅;
                 Concurrency._half_open_count := ∅ |} "a.edu" 10 in
  0 <= Concurrency.failures_of cb "a.edu"
  /\ (Concurrency.get_state cb "a.edu" = "closed" <-> Concurrency.failures_of cb "a.edu" < 5)
  /\ (Concurrency.get_state cb "a.edu" = "closed" \/ Concurrency.get_state cb "a.edu" = "open"
      \/ Concurrency.get_state cb "a.edu" = "half_open").
Proof.
  apply (breaker_closed_iff_below_threshold 5 60 1); [lia|].
  apply Concurrency.breaker_failure, Concurrency.breaker_new.
Defined.

Lemma failed_probe_reopens_witness :
  let cb0 := {| Concurrency.failure_threshold := 1; Concurrency.timeout := 60;
                Concurrency.half_open_max := 1; Concurrency._failures := ∅;
                Concurrency._last_failure := ∅; Concurrency._state := ∅;
                Concurrency._half_open_count := ∅ |} in
  let cb := snd (Concurrency.is_open (Concurrency.record_failure cb0 "a.edu" 10) "a.edu" 100) in
  Concurrency.get_state (Concurrency.record_failure cb "a.edu" 101) "a.edu" = "open"
  /\ Concurrency._last_failure (Concurrency.record_failure cb "a.edu" 101) !! "a.edu"
     = Some 101%Q.
Proof.
  apply (failed_probe_reopens 1 60 1); [lia | | reflexivity].
  apply Concurrency.breaker_is_open, Concurrency.breaker_failure, Concurrency.breaker_new.
Defined.

Lemma successes_do_not_reset_count_witness :
  let cb := foldl (fun c t => Concurrency.record_failure c "a.edu" t) Concurrency.new_breaker
                  [1; 2; 3; 4]%Q in
  let cb' := Nat.iter 3 (fun c => Concurrency.record_success c "a.edu") cb in
  Concurrency.failures_of cb' "a.edu" = Concurrency.failures_of cb "a.edu"
  /\ Concurrency.get_state cb' "a.edu" = "closed"
  /\ Concurrency.get_state (Concurrency.record_failure cb' "a.edu" 9) "a.edu" = "open".
Proof.
  apply (successes_do_not_reset_count
           (foldl (fun c t => Concurrency.record_failure c "a.edu" t) Concurrency.new_breaker
                  [1; 2; 3; 4]%Q) "a.edu" 3 9); [reflexivity | vm_compute; discriminate].
Defined.

(** ** concurrency.py: the task queues under interleaved puts and gets *)

Section QueueInvariants.
Import Concurrency.
Context {A : Type}.
Local Open Scope list_scope.

Lemma queue_invariant (size : Z) (q : TaskQueue A) :
  queue_reachable size q ->
  maxsize q = size
  /\ StronglySorted (fun a b => b.1 <= a.1) (_queue q)
  /\ (0 < size -> Z.of_nat (length (_queue q)) <= size).
Proof.
  induction 1 as [|q item priority q' _ (IHm & IHs & IHb) Hput
                  |q item q' _ (IHm & IHs & IHb) Hget].
  - simpl. split; [reflexivity|]. split; [constructor | simpl; lia].
  - unfold put in Hput.
    destruct ((0 <? maxsize q) && (maxsize q <=? Z.of_nat (length (_queue q)))) eqn:E;
      [discriminate|].
    injection Hput as <-. simpl. split; [exact IHm|].
    split; [by apply insert_by_priority_sorted|].
    intros Hpos. rewrite (Permutation_length (insert_by_priority_perm priority item (_queue q))).
    simpl length. rewrite IHm in E. lia.
  - unfold get in Hget. destruct (_queue q) as [|[p x] rest] eqn:E; [discriminate|].
    injection Hget as <- <-. simpl. split; [exact IHm|].
    apply StronglySorted_inv in IHs as [IHs _]. split; [exact IHs|].
    intros Hpos. specialize (IHb Hpos). simpl in IHb. lia.
Qed.

(** X7. However puts and gets are interleaved on a
    [TaskQueue], a bounded queue never holds more items than its bound,
    and [get] hands out the head of the list, whose priority no item
    left in the queue exceeds. *)
Theorem task_queue_get_is_highest (size : Z) (q : TaskQueue A) :
  queue_reachable size q ->
  (0 < size -> Z.of_nat (length (_queue q)) <= size)
  /\ forall item q',
       get q = Some (item, q') ->
       exists p, _queue q = (p, item) :: _queue q'
                 /\ Forall (fun e => e.1 <= p) (_queue q').
Proof.
  intros Hr. destruct (queue_invariant size q Hr) as (_ & Hs & Hb).
  split; [exact Hb|]. intros item q' Hget.
  unfold get in Hget. destruct (_queue q) as [|[p x] rest] eqn:E; [discriminate|].
  injection Hget as <- <-. exists p. split; [reflexivity|].
  apply StronglySorted_inv in Hs as [_ Hall]. exact Hall.
Qed.

Lemma async_queue_invariant (size : Z) (q : AsyncTaskQueue A) :
  async_queue_reachable size q ->
  a_maxsize q = size
  /\ NoDup ((fun e => e.1.2) <$> entries q)
  /\ Forall (fun e => e.1.2 <= _counter q) (entries q)
  /\ (0 < size -> Z.of_nat (length (entries q)) <= size).
Proof.
  induction 1 as [|q item priority q' _ (IHm & IHn & IHc & IHb) Hput
                  |q item q' _ (IHm & IHn & IHc & IHb) Hget].
  - simpl. split; [reflexivity|]. split; [constructor|]. split; [constructor | simpl; lia].
  - unfold a_put in Hput.
    destruct ((0 <? a_maxsize q) && (a_maxsize q <=? Z.of_nat (length (entries q)))) eqn:E;
      [discriminate|].
    injection Hput as <-. simpl. split; [exact IHm|]. split; [|split].
    + constructor; [|exact IHn]. intros Hin.
      apply list_elem_of_fmap in Hin as (e & He & Hin).
      rewrite Forall_forall in IHc. specialize (IHc e Hin). lia.
    + constructor; [simpl; lia|]. eapply Forall_impl; [exact IHc|]. simpl. intros; lia.
    + intros Hpos. rewrite IHm in E. lia.
  - unfold a_get in Hget.
    destruct (pop_least (entries q)) as [[[[p c] x] rest]|] eqn:E; [|discriminate].
    injection Hget as <- <-. simpl.
    destruct (pop_least_spec _ _ _ E) as [Hperm _].
    split; [exact IHm|]. split; [|split].
    + assert (Hp : (fun e : Z * Z * A => e.1.2) <$> entries q
                   ≡ₚ c :: ((fun e : Z * Z * A => e.1.2) <$> rest)).
      { by rewrite Hperm. }
      rewrite Hp in IHn. by apply NoDup_cons in IHn as [_ ?].
    + rewrite Hperm in IHc. by apply Forall_cons in IHc as [_ ?].
    + intros Hpos. specialize (IHb Hpos).
      rewrite (Permutation_length Hperm) in IHb. simpl in IHb. lia.
Qed.

(** X8. However puts and gets are interleaved on an
    [AsyncTaskQueue], a bounded queue never holds more items than its
    bound, and [get] takes out an entry such that every entry left has a
    lower priority, or the same priority and a later put (a greater
    counter). *)
Theorem async_queue_get_is_highest (size : Z) (q : AsyncTaskQueue A) :
  async_queue_reachable size q ->
  (0 < size -> Z.of_nat (length (entries q)) <= size)
  /\ forall item q',
       a_get q = Some (item, q') ->
       exists priority counter,
         entries q ≡ₚ (- priority, counter, item) :: entries q'
         /\ Forall (fun e => - e.1.1 < priority
                             \/ (- e.1.1 = priority /\ counter < e.1.2)) (entries q').
Proof.
  intros Hr. destruct (async_queue_invariant size q Hr) as (_ & Hn & _ & Hb).
  split; [exact Hb|]. intros item q' Hget.
  unfold a_get in Hget.
  destruct (pop_least (entries q)) as [[[[p c] x] rest]|] eqn:E; [|discriminate].
  injection Hget as <- <-. simpl.
  destruct (pop_least_spec _ _ _ E) as [Hperm Hall].
  exists (- p), c. replace (- - p) with p by lia. split; [exact Hperm|].
  assert (Hp : (fun e : Z * Z * A => e.1.2) <$> entries q
               ≡ₚ c :: ((fun e : Z * Z * A => e.1.2) <$> rest)).
  { by rewrite Hperm. }
  rewrite Hp in Hn. apply NoDup_cons in Hn as [Hnotin _].
  rewrite Forall_forall in Hall |- *. intros e He.
  specialize (Hall e He). apply entry_lt_false in Hall. simpl in Hall.
  assert (e.1.2 <> c).
  { intros <-. apply Hnotin, list_elem_of_fmap. by exists e. }
  lia.
Qed.

End QueueInvariants.

Lemma task_queue_get_is_highest_witness :
  let q := {| Concurrency._queue := [(3, "b"); (1, "a")]; Concurrency.maxsize := 2 |} in
  (0 < 2 -> Z.of_nat (length (Concurrency._queue q)) <= 2)
  /\ forall item q',
       Concurrency.get q = Some (item, q') ->
       exists p, Concurrency._queue q = (p, item) :: Concurrency._queue q'
                 /\ Forall (fun e => e.1 <= p) (Concurrency._queue q').
Proof.
  apply (task_queue_get_is_highest 2).
  apply (Concurrency.queue_put 2
           {| Concurrency._queue := [(1, "a")]; Concurrency.maxsize := 2 |} "b" 3);
    [|reflexivity].
  apply (Concurrency.queue_put 2 (Concurrency.new_queue 2) "a" 1); [|reflexivity].
  apply Concurrency.queue_new.
Defined.

Lemma async_queue_get_is_highest_witness :
  let q := {| Concurrency.entries := [(-3, 2, "b"); (-1, 1, "a")];
              Concurrency._counter := 2; Concurrency.a_maxsize := 2 |} in
  (0 < 2 -> Z.of_nat (length (Concurrency.entries q)) <= 2)
  /\ forall item q',
       Concurrency.a_get q = Some (item, q') ->
       exists priority counter,
         Concurrency.entries q ≡ₚ (- priority, counter, item) :: Concurrency.entries q'
         /\ Forall (fun e => - e.1.1 < priority
                             \/ (- e.1.1 = priority /\ counter < e.1.2))
                   (Concurrency.entries q').
Proof.
  apply (async_queue_get_is_highest 2).
  apply (Concurrency.async_queue_put 2
           {| Concurrency.entries := [(-1, 1, "a")]; Concurrency._counter := 1;
              Concurrency.a_maxsize := 2 |} "b" 3); [|reflexivity].
  apply (Concurrency.async_queue_put 2 (Concurrency.new_async_queue 2) "a" 1); [|reflexivity].
  apply Concurrency.async_queue_new.
Defined.

(** ** concurrency.py: the rate limiters over a run of calls *)

Section RateLimiterRuns.
Import Concurrency.
Local Open Scope list_scope.

Lemma async_acquire_run_head (L : RateLimiter) (domain : option string) (c : Q)
    (calls : list (Q * Q)) (t : Q) :
  Forall (fun call => (0 <= call.1)%Q /\ (0 <= call.2)%Q) calls ->
  async_acquire_run L domain c calls !! 0%nat = Some t ->
  forall t0, _last_call L !! key_of domain = Some t0 -> (t0 <= c)%Q ->
  (t0 + min_interval L <= t)%Q.
Proof.
  intros Hall Ht t0 Hlast Hc. destruct calls as [|[lag gap] rest]; [discriminate|].
  apply Forall_cons in Hall as [[Hlag _] _]. simpl in Ht, Hlag. injection Ht as <-.
  unfold async_acquire. cbn [snd]. rewrite Hlast.
  change (default 0%Q (Some t0)) with t0.
  destruct (Qltb (c - t0) (min_interval L)) eqn:E.
  - lra.
  - apply Qltb_false in E. lra.
Qed.

Lemma async_acquire_run_spaced (calls : list (Q * Q)) (L : RateLimiter)
    (domain : option string) (c : Q) :
  Forall (fun call => (0 <= call.1)%Q /\ (0 <= call.2)%Q) calls ->
  forall i t t',
    async_acquire_run L domain c calls !! i = Some t ->
    async_acquire_run L domain c calls !! S i = Some t' ->
    (t + min_interval L <= t')%Q.
Proof.
  revert L c. induction calls as [|[lag gap] rest IH]; intros L c Hall i t t' Hi Hi'.
  - discriminate.
  - apply Forall_cons in Hall as [[Hlag Hgap] Hrest]. simpl in Hlag, Hgap.
    destruct (async_acquire_records L domain c lag) as [Hrec Hmin].
    assert (Hrun : async_acquire_run L domain c ((lag, gap) :: rest)
                   = (async_acquire L domain c lag).2
                     :: async_acquire_run (async_acquire L domain c lag).1 domain
                          ((async_acquire L domain c lag).2 + gap)%Q rest) by reflexivity.
    rewrite Hrun in Hi, Hi'. clear Hrun.
    set (r := async_acquire L domain c lag) in *. clearbody r.
    destruct i as [|i].
    + injection Hi as <-. rewrite <- Hmin.
      eapply async_acquire_run_head; [exact Hrest | exact Hi' | exact Hrec | lra].
    + rewrite <- Hmin. eapply IH; [exact Hrest | exact Hi | exact Hi'].
Qed.

(** X9. The cooperative rate limiter keeps its rate over a
    whole run of calls for one key: when every call starts no earlier than
    the previous one completed, consecutive completions are at least
    [min_interval] apart, so the call of index [n] completes at least [n]
    intervals after the first one. *)
Theorem async_limiter_keeps_rate (calls : list (Q * Q)) (L : RateLimiter)
    (domain : option string) (c : Q) :
  Forall (fun call => (0 <= call.1)%Q /\ (0 <= call.2)%Q) calls ->
  let times := async_acquire_run L domain c calls in
  (forall i t t', times !! i = Some t -> times !! S i = Some t' ->
                  (t + min_interval L <= t')%Q)
  /\ (forall n t0 tn, times !! 0%nat = Some t0 -> times !! n = Some tn ->
                      (t0 + inject_Z (Z.of_nat n) * min_interval L <= tn)%Q).
Proof.
  intros Hall times.
  assert (Hstep : forall i t t', times !! i = Some t -> times !! S i = Some t' ->
                                 (t + min_interval L <= t')%Q).
  { intros i t t'. by apply async_acquire_run_spaced. }
  split; [exact Hstep|].
  induction n as [|n IH]; intros t0 tn H0 Hn.
  - rewrite H0 in Hn. injection Hn as <-. change (inject_Z (Z.of_nat 0)) with 0%Q. lra.
  - destruct (times !! n) as [t|] eqn:En.
    + specialize (IH t0 t H0 eq_refl). specialize (Hstep n t tn En Hn).
      rewrite Nat2Z.inj_succ, <- Z.add_1_r, inject_Z_plus.
      change (inject_Z 1) with 1%Q.
      set (k := inject_Z (Z.of_nat n)) in *. clearbody k.
      assert (E : ((k + 1) * min_interval L == k * min_interval L + min_interval L)%Q) by ring.
      rewrite E. lra.
    + apply lookup_ge_None in En. apply lookup_lt_Some in Hn. lia.
Qed.

(** X10. An acquire for one key never delays a later acquire
    for another key: with either limiter, the later call completes at the
    same clock reading as if the earlier call had not been made. *)
Theorem acquire_not_delayed_by_other_key (L : RateLimiter) (d1 d2 : option string)
    (c1 lag1 c2 lag2 : Q) :
  key_of d1 <> key_of d2 ->
  snd (async_acquire (fst (async_acquire L d1 c1 lag1)) d2 c2 lag2)
  = snd (async_acquire L d2 c2 lag2)
  /\ snd (thread_acquire (fst (thread_acquire L d1 c1 lag1)) d2 c2 lag2)
     = snd (thread_acquire L d2 c2 lag2).
Proof.
  intros Hne. destruct (acquire_other_key L d1 d2 c1 lag1 Hne) as [Ha Ht].
  split.
  - unfold async_acquire at 1 3. cbn [snd]. rewrite Ha. reflexivity.
  - unfold thread_acquire at 1 3. cbn [snd]. rewrite Ht. reflexivity.
Qed.

End RateLimiterRuns.

Lemma async_limiter_keeps_rate_witness :
  let L := {| Concurrency.calls_per_second := 2; Concurrency.min_interval := 1 # 2;
              Concurrency._last_call := ∅ |} in
  let times := async_acquire_run L (Some "a.edu") 1000 [(0, 0); (0, 1 # 10); (0, 2)]%Q in
  (forall i t t', times !! i = Some t -> times !! S i = Some t' ->
                  (t + (1 # 2) <= t')%Q)
  /\ (forall n t0 tn, times !! 0%nat = Some t0 -> times !! n = Some tn ->
                      (t0 + inject_Z (Z.of_nat n) * (1 # 2) <= tn)%Q).
Proof.
  apply (async_limiter_keeps_rate [(0, 0); (0, 1 # 10); (0, 2)]%Q
           {| Concurrency.calls_per_second := 2; Concurrency.min_interval := 1 # 2;
              Concurrency._last_call := ∅ |} (Some "a.edu") 1000).
  repeat constructor; simpl; lra.
Defined.

Lemma acquire_not_delayed_by_other_key_witness :
  let L := {| Concurrency.calls_per_second := 2; Concurrency.min_interval := 1 # 2;
              Concurrency._last_call := ∅ |} in
  snd (Concurrency.async_acquire (fst (Concurrency.async_acquire L (Some "a.edu") 1000 0))
         (Some "b.edu") 1000 0)
  = snd (Concurrency.async_acquire L (Some "b.edu") 1000 0)
  /\ snd (Concurrency.thread_acquire (fst (Concurrency.thread_acquire L (Some "a.edu") 1000 0))
            (Some "b.edu") 1000 0)
     = snd (Concurrency.thread_acquire L (Some "b.edu") 1000 0).
Proof.
  apply (acquire_not_delayed_by_other_key
           {| Concurrency.calls_per_second := 2; Concurrency.min_interval := 1 # 2;
              Concurrency._last_call := ∅ |} (Some "a.edu") (Some "b.edu") 1000 0 1000 0).
  vm_compute. discriminate.
Defined.

(** ** async_scraper.py: requests behind the circuit breaker *)

Section MakeRequestFacts.
Import UrlParse Concurrency SessionManager AsyncScraper.

Lemma a_is_open_effect cb X now :
  a_failures_of (snd (a_is_open cb X now)) X = a_failures_of cb X
  /\ a_failure_threshold (snd (a_is_open cb X now)) = a_failure_threshold cb
  /\ (fst (a_is_open cb X now) = true -> a_get_state cb X = "open")
  /\ (a_get_state cb X <> "open" ->
      fst (a_is_open cb X now) = false
      /\ a_get_state (snd (a_is_open cb X now)) X = a_get_state cb X).
Proof.
  unfold a_is_open, a_failures_of, a_get_state. rewrite !dd_get_fst.
  destruct (dd_get "closed" (a_state cb) X) as [st states] eqn:E.
  assert (Hst : st = default "closed" (a_state cb !! X)).
  { by rewrite <- dd_get_fst, E. }
  assert (Hstates : default "closed" (states !! X) = default "closed" (a_state cb !! X)).
  { rewrite <- (dd_get_snd "closed" (a_state cb) X X). by rewrite E. }
  destruct (String.eqb st "open") eqn:Eo.
  - apply String.eqb_eq in Eo. rewrite <- Hst, Eo.
    destruct (Qltb _ _); simpl; rewrite ?dd_get_fst;
      (split; [reflexivity|]); (split; [reflexivity|]); (split; [auto|]); congruence.
  - apply String.eqb_neq in Eo. simpl. rewrite ?dd_get_fst.
    split; [reflexivity|]. split; [reflexivity|]. split; [discriminate|].
    intros _. split; [reflexivity | exact Hstates].
Qed.

Lemma failed_attempt_effect (self : scraper) (d : string) (t : Q) :
  max_retries (failed_attempt self d t) = max_retries self
  /\ backoff (failed_attempt self d t) = backoff self
  /\ a_failure_threshold (circuit_breaker (failed_attempt self d t))
     = a_failure_threshold (circuit_breaker self)
  /\ a_failures_of (circuit_breaker (failed_attempt self d t)) d
     = a_failures_of (circuit_breaker self) d + 1
  /\ errors (get_stats (metrics (failed_attempt self d t)) d)
     = errors (get_stats (metrics self) d) + 1
  /\ (a_failure_threshold (circuit_breaker self) <= a_failures_of (circuit_breaker self) d + 1 ->
      a_get_state (circuit_breaker (failed_attempt self d t)) d = "open").
Proof.
  unfold failed_attempt. simpl.
  split; [reflexivity|]. split; [reflexivity|].
  split; [apply a_record_failure_config|]. split; [apply a_record_failure_count|].
  split; [by rewrite lookup_insert_eq|]. apply a_record_failure_trips.
Qed.

(** the loop when every turn fails *)
Lemma request_loop_all_fail (world : Z -> attempt_world) (url d : string) (n : nat) :
  forall (attempt : Z) (last : option string) (waited : list Q) (self : scraper),
    (forall k, attempt <= k < attempt + Z.of_nat n -> exists m, answer (world k) = inl m) ->
    let tr := request_loop world url d n attempt last waited self in
    (exists m, outcome tr = inl m)
    /\ attempts tr = attempt + Z.of_nat n
    /\ a_failures_of (circuit_breaker (after tr)) d
       = a_failures_of (circuit_breaker self) d + Z.of_nat n
    /\ errors (get_stats (metrics (after tr)) d)
       = errors (get_stats (metrics self) d) + Z.of_nat n
    /\ a_failure_threshold (circuit_breaker (after tr)) = a_failure_threshold (circuit_breaker self)
    /\ ((0 < n)%nat ->
        a_failure_threshold (circuit_breaker self)
        <= a_failures_of (circuit_breaker self) d + Z.of_nat n ->
        a_get_state (circuit_breaker (after tr)) d = "open").
Proof.
  induction n as [|n IH]; intros attempt last waited self Hfail tr.
  - subst tr. simpl. split; [eauto|]. repeat split; try lia.
  - destruct (Hfail attempt ltac:(lia)) as [m Hm].
    destruct (failed_attempt_effect self d (failure_time (world attempt)))
      as (_ & _ & Ht & Hf & He & Htrip).
    assert (Hstep : exists last' waited',
               tr = request_loop world url d n (attempt + 1) last' waited'
                      (failed_attempt self d (failure_time (world attempt)))).
    { subst tr. simpl.
      destruct (if 0 <? attempt then get_delay (backoff self) attempt (random (world attempt))
                else Some 0%Q); [|eauto].
      rewrite Hm. eauto. }
    destruct Hstep as (last' & waited' & ->).
    destruct (IH (attempt + 1) last' waited'
                (failed_attempt self d (failure_time (world attempt)))
                ltac:(intros k Hk; apply Hfail; lia))
      as (Ho & Ha & Hf' & He' & Ht' & Hopen).
    split; [exact Ho|]. split; [lia|]. split; [lia|]. split; [lia|]. split; [congruence|].
    intros _ Hge. destruct n as [|n].
    + simpl. apply Htrip. lia.
    + apply Hopen; [lia|]. rewrite Ht, Hf. lia.
Qed.

(** X11. While the circuit of the URL's host is open and the
    timeout has not passed, [_make_request] raises at once: no turn of the
    retry loop is made, nothing is recorded in the metrics, and the
    breaker keeps its state and its count. *)
Theorem open_circuit_blocks_request (self : scraper) (world : Z -> attempt_world)
    (url : string) (now t : Q) (p : ParseResult) :
  urlparse url = Some p ->
  a_get_state (circuit_breaker self) (netloc p) = "open" ->
  a_last_failure (circuit_breaker self) !! netloc p = Some t ->
  (now - t <= a_timeout (circuit_breaker self))%Q ->
  exists tr,
    _make_request self world url now = Some tr
    /\ outcome tr = inl ("Circuit breaker open for " ++ netloc p)
    /\ attempts tr = 0
    /\ metrics (after tr) = metrics self
    /\ a_get_state (circuit_breaker (after tr)) (netloc p) = "open"
    /\ a_failures_of (circuit_breaker (after tr)) (netloc p)
       = a_failures_of (circuit_breaker self) (netloc p).
Proof.
  intros Hp Hopen Hlast Hnow. unfold _make_request. rewrite Hp.
  destruct (a_is_open_within_timeout _ _ _ _ Hopen Hlast Hnow) as (cb' & E & Hs & _).
  destruct (a_is_open_effect (circuit_breaker self) (netloc p) now) as (Hf & _).
  rewrite E in Hf |- *. simpl in Hf. eexists. split; [reflexivity|]. simpl. auto.
Qed.

(** X12. The breaker is consulted once per call, not once per
    attempt: a call that finds the circuit not open and whose attempts all
    fail makes all [max_retries] of them, each counted by the breaker and
    by the metrics, also when one of the first failures opens the circuit;
    the call ends with an exception, and with the circuit open as soon as
    the count has reached the threshold. *)
Theorem exhausted_request_counts_every_attempt (self : scraper)
    (world : Z -> attempt_world) (url : string) (now : Q) (p : ParseResult) :
  urlparse url = Some p ->
  a_get_state (circuit_breaker self) (netloc p) <> "open" ->
  0 < max_retries self ->
  (forall k, 0 <= k < max_retries self -> exists m, answer (world k) = inl m) ->
  exists tr m,
    _make_request self world url now = Some tr
    /\ outcome tr = inl m
    /\ attempts tr = max_retries self
    /\ a_failures_of (circuit_breaker (after tr)) (netloc p)
       = a_failures_of (circuit_breaker self) (netloc p) + max_retries self
    /\ errors (get_stats (metrics (after tr)) (netloc p))
       = errors (get_stats (metrics self) (netloc p)) + max_retries self
    /\ (a_failure_threshold (circuit_breaker self)
        <= a_failures_of (circuit_breaker self) (netloc p) + max_retries self ->
        a_get_state (circuit_breaker (after tr)) (netloc p) = "open").
Proof.
  intros Hp Hnot Hpos Hfail. unfold _make_request. rewrite Hp.
  destruct (a_is_open_effect (circuit_breaker self) (netloc p) now) as (Hf & Ht & _ & Hclosed).
  destruct (Hclosed Hnot) as [Hfalse _].
  destruct (a_is_open (circuit_breaker self) (netloc p) now) as [o cb] eqn:E.
  simpl in Hf, Ht, Hfalse. subst o.
  set (self' := with_breaker self cb).
  destruct (request_loop_all_fail world url (netloc p) (Z.to_nat (max_retries self')) 0 None []
              self') as ((m & Ho) & Ha & Hf' & He & _ & Hopen).
  { intros k Hk. apply Hfail. change (max_retries self') with (max_retries self) in Hk. lia. }
  change (max_retries self') with (max_retries self) in *.
  change (circuit_breaker self') with cb in *.
  change (metrics self') with (metrics self) in *.
  rewrite Z2Nat.id in Ha, Hf', He, Hopen by lia.
  eexists _, m. split; [reflexivity|]. split; [exact Ho|]. split; [lia|].
  split; [lia|]. split; [exact He|].
  intros Hge. apply Hopen; [lia|]. rewrite Ht, Hf. exact Hge.
Qed.

End MakeRequestFacts.

Lemma open_circuit_blocks_request_witness :
  let cb := foldl (fun c t => Concurrency.a_record_failure c "a.edu" t)
                  Concurrency.new_async_breaker [1; 2; 3; 4; 5]%Q in
  let self := {| AsyncScraper.max_retries := 3; AsyncScraper.circuit_breaker := cb;
                 AsyncScraper.backoff := Concurrency.new_backoff;
                 AsyncScraper.metrics := SessionManager.new_metrics |} in
  exists tr,
    AsyncScraper._make_request self
      (fun _ => {| AsyncScraper.random := 0; AsyncScraper.answer := inr (10, 1%Q);
                   AsyncScraper.failure_time := 0 |})
      "https://a.edu/cs101" 30 = Some tr
    /\ AsyncScraper.outcome tr = inl ("Circuit breaker open for " ++ "a.edu")
    /\ AsyncScraper.attempts tr = 0
    /\ AsyncScraper.metrics (AsyncScraper.after tr) = AsyncScraper.metrics self
    /\ Concurrency.a_get_state (AsyncScraper.circuit_breaker (AsyncScraper.after tr)) "a.edu"
       = "open"
    /\ Concurrency.a_failures_of (AsyncScraper.circuit_breaker (AsyncScraper.after tr)) "a.edu"
       = Concurrency.a_failures_of (AsyncScraper.circuit_breaker self) "a.edu".
Proof.
  intros cb self.
  apply (open_circuit_blocks_request self _ "https://a.edu/cs101" 30 5
           {| UrlParse.scheme := "https"; UrlParse.netloc := "a.edu";
              UrlParse.path := "/cs101"; UrlParse.params := ""; UrlParse.query := "";
              UrlParse.fragment := "" |});
    [reflexivity | reflexivity | reflexivity | vm_compute; discriminate].
Defined.

Lemma exhausted_request_counts_every_attempt_witness :
  let cb := foldl (fun c t => Concurrency.a_record_failure c "a.edu" t)
                  Concurrency.new_async_breaker [1; 2; 3; 4]%Q in
  let self := {| AsyncScraper.max_retries := 3; AsyncScraper.circuit_breaker := cb;
                 AsyncScraper.backoff := Concurrency.new_backoff;
                 AsyncScraper.metrics := SessionManager.new_metrics |} in
  exists tr m,
    AsyncScraper._make_request self
      (fun k => {| AsyncScraper.random := 1 # 2; AsyncScraper.answer := inl "timed out";
                   AsyncScraper.failure_time := 10 + inject_Z k |})
      "https://a.edu/cs101" 9 = Some tr
    /\ AsyncScraper.outcome tr = inl m
    /\ AsyncScraper.attempts tr = 3
    /\ Concurrency.a_failures_of (AsyncScraper.circuit_breaker (AsyncScraper.after tr)) "a.edu"
       = Concurrency.a_failures_of cb "a.edu" + 3
    /\ SessionManager.errors
         (SessionManager.get_stats (AsyncScraper.metrics (AsyncScraper.after tr)) "a.edu")
       = SessionManager.errors (SessionManager.get_stats SessionManager.new_metrics "a.edu") + 3
    /\ (5 <= Concurrency.a_failures_of cb "a.edu" + 3 ->
        Concurrency.a_get_state (AsyncScraper.circuit_breaker (AsyncScraper.after tr)) "a.edu"
        = "open").
Proof.
  intros cb self.
  apply (exhausted_request_counts_every_attempt self _ "https://a.edu/cs101" 9
           {| UrlParse.scheme := "https"; UrlParse.netloc := "a.edu";
              UrlParse.path := "/cs101"; UrlParse.params := ""; UrlParse.query := "";
              UrlParse.fragment := "" |});
    [reflexivity | vm_compute; discriminate | reflexivity | intros; eexists; reflexivity].
Defined.

(** ** session_manager.py: the latencies kept by the metrics *)

Section MetricsFacts.
Import SessionManager.
Local Open Scope list_scope.






End MetricsFacts.

(** ** crawler/base_crawler.py: normalized and valid URLs *)

Section NormalizedUrlFacts.
Import PyStr UrlParse BaseCrawler.

Lemma lower_drop_last (s : string) : lower (drop_last s) = drop_last (lower s).
Proof.
  induction s as [|c r IH]; [reflexivity|].
  destruct r as [|d r']; [reflexivity|].
  change (drop_last (String c (String d r'))) with (String c (drop_last (String d r'))).
  change (lower (String c (String d r')))
    with (String (lower_char c) (String (lower_char d) (lower r'))).
  change (drop_last (String (lower_char c) (String (lower_char d) (lower r'))))
    with (String (lower_char c) (drop_last (String (lower_char d) (lower r')))).
  cbn [lower]. f_equal. exact IH.
Qed.

Lemma has_char_all_chars (d : ascii) (s : string) :
  has_char d s = negb (all_chars (fun c => negb (Ascii.eqb d c)) s).
Proof.
  induction s as [|c r IH]; [reflexivity|]. cbn [has_char all_chars].
  rewrite IH. by destruct (Ascii.eqb d c).
Qed.

Lemma all_chars_drop_last (q : ascii -> bool) (s : string) :
  all_chars q s = true -> all_chars q (drop_last s) = true.
Proof.
  induction s as [|c r IH]; [reflexivity|].
  destruct r as [|d r']; [reflexivity|].
  change (drop_last (String c (String d r'))) with (String c (drop_last (String d r'))).
  cbn [all_chars] in *. intros H. apply andb_true_iff in H as [Hc Hr].
  rewrite Hc. cbn [andb]. apply IH. exact Hr.
Qed.

Lemma all_chars_last_segment_split (q : ascii -> bool) (s : string) :
  all_chars q s = true ->
  all_chars q (last_segment_split s).1 = true /\ all_chars q (last_segment_split s).2 = true.
Proof.
  induction s as [|c r IH]; [by split|]. cbn [all_chars last_segment_split].
  intros H. apply andb_true_iff in H as [Hc Hr]. destruct (IH Hr) as [IH1 IH2].
  destruct (last_segment_split r) as [h t]. simpl in IH1, IH2.
  destruct (has_char "/" r).
  - simpl. by rewrite Hc, IH1.
  - destruct (Ascii.eqb c "/"); simpl; rewrite ?Hc, ?Hr; auto.
Qed.

Lemma scheme_char_no_hash (c : ascii) :
  is_scheme_char c = true -> negb (Ascii.eqb "#" c) = true.
Proof. destruct c as [[] [] [] [] [] [] [] []]; vm_compute; congruence. Qed.

Lemma not_delim_no_hash (c : ascii) :
  negb (is_netloc_delim c) = true -> negb (Ascii.eqb "#" c) = true.
Proof. destruct c as [[] [] [] [] [] [] [] []]; vm_compute; congruence. Qed.

Lemma no_hash_lower : lower_invariant (fun c => negb (Ascii.eqb "#" c)).
Proof. intros c. each_char c. Qed.

(** no part of a parsed URL but the fragment holds a ['#'] *)
Lemma urlparse_no_hash (url : string) (p : ParseResult) :
  urlparse url = Some p ->
  all_chars (fun c => negb (Ascii.eqb "#" c)) (scheme p) = true
  /\ all_chars (fun c => negb (Ascii.eqb "#" c)) (netloc p) = true
  /\ all_chars (fun c => negb (Ascii.eqb "#" c)) (path p) = true
  /\ all_chars (fun c => negb (Ascii.eqb "#" c)) (query p) = true.
Proof.
  intros Hp. destruct (urlparse_clean url p Hp) as [Hsch Hdelim _ _].
  split; [|split].
  { destruct Hsch as [-> | (c0 & rest & _ & _ & Hchars)]; [reflexivity|].
    eapply all_chars_weaken; [|exact Hchars]. apply scheme_char_no_hash. }
  { eapply all_chars_weaken; [|exact Hdelim]. apply not_delim_no_hash. }
  revert Hp. unfold urlparse.
  destruct (urlsplit url) as [r|] eqn:Hr; [|discriminate].
  assert (H : all_chars (fun c => negb (Ascii.eqb "#" c)) (path r) = true
              /\ all_chars (fun c => negb (Ascii.eqb "#" c)) (query r) = true).
  { revert Hr. unfold urlsplit.
    destruct (split_scheme _) as [sch u1]. destruct (split_netloc u1) as [loc u2].
    destruct (brackets_ok loc); [|discriminate].
    unfold split1.
    pose proof (break_fst_clean (Ascii.eqb "#") u2) as Hclean.
    destruct (break (Ascii.eqb "#") u2) as [u3 frag]. simpl in Hclean.
    destruct (all_chars_break _ (Ascii.eqb "?") u3 Hclean) as [Hq1 Hq2].
    destruct (break (Ascii.eqb "?") u3) as [u4 qry]. simpl in Hq1, Hq2.
    intros [= <-]. simpl. split; [exact Hq1 | by apply all_chars_tail]. }
  destruct H as [Hpath Hquery].
  destruct (existsb (String.eqb (scheme r)) uses_params && has_char ";" (path r)).
  - unfold _splitparams.
    destruct (all_chars_last_segment_split _ (path r) Hpath) as [Hh Ht].
    destruct (last_segment_split (path r)) as [h t]. simpl in Hh, Ht.
    destruct (all_chars_break _ (Ascii.eqb ";") t Ht) as [Ha _].
    destruct (break (Ascii.eqb ";") t) as [a b]. simpl in Ha.
    destruct b; intros [= <-]; simpl; (split; [|exact Hquery]); [exact Hpath|].
    by rewrite all_chars_app, Hh, Ha.
  - intros [= <-]. by split.
Qed.

(** X14. Whatever URL it is given, [_normalize_url] returns a
    string without upper-case letters and without a ['#']: the fragment is
    gone, and lower-casing the result again changes nothing. *)
Theorem normalized_url_is_lowercase_without_fragment (url normalized : string) :
  _normalize_url url = Some normalized ->
  lower normalized = normalized /\ has_char "#" normalized = false.
Proof.
  unfold _normalize_url. rewrite urlparse_lower.
  destruct (urlparse url) as [p|] eqn:Hp; [|discriminate]. simpl.
  destruct (urlparse_no_hash url p Hp) as (Hs & Hn & Hpa & Hq).
  set (base := lower (scheme p) ++ "://" ++ lower (netloc p) ++ lower (path p)).
  set (full := if String.eqb (lower (query p)) "" then base
               else base ++ "?" ++ lower (query p)).
  assert (Hlow : lower full = full).
  { unfold full, base. destruct (String.eqb _ _);
      rewrite !lower_app, !lower_idem; reflexivity. }
  assert (Hhash : all_chars (fun c => negb (Ascii.eqb "#" c)) full = true).
  { unfold full, base.
    destruct (String.eqb _ _);
      rewrite !all_chars_app, !(all_chars_lower _ _ no_hash_lower), Hs, Hn, Hpa, ?Hq;
      reflexivity. }
  intros [= <-]. destruct (endswith full "/" && (1 <? len (lower (path p)))).
  - split.
    + by rewrite lower_drop_last, Hlow.
    + rewrite has_char_all_chars, all_chars_drop_last; [reflexivity | exact Hhash].
  - split; [exact Hlow|]. by rewrite has_char_all_chars, Hhash.
Qed.

End NormalizedUrlFacts.

Lemma normalized_url_is_lowercase_without_fragment_witness :
  PyStr.lower "http://example.com/courses/?week=3" = "http://example.com/courses/?week=3"
  /\ PyStr.has_char "#" "http://example.com/courses/?week=3" = false.
Proof.
  apply (normalized_url_is_lowercase_without_fragment
           "HTTP://Example.COM/Courses/?Week=3#Top"). reflexivity.
Defined.

(** ** crawler/base_crawler.py: the domain restriction and the success rate *)

Section ValidUrlFacts.
Import PyStr UrlParse BaseCrawler.

Lemma urlparse_http_host (host : string) :
  all_chars host_char host = true ->
  urlparse ("http://" ++ host ++ "/")
  = Some {| scheme := "http"; netloc := host; path := "/"; params := "";
            query := ""; fragment := "" |}.
Proof.
  intros Hhost.
  assert (Hdelim : all_chars (fun c => negb (is_netloc_delim c)) host = true).
  { eapply all_chars_weaken; [|exact Hhost]. intros c. unfold host_char.
    rewrite !andb_true_iff. tauto. }
  assert (Hunsafe : all_chars (fun c => negb (is_unsafe c)) host = true).
  { eapply all_chars_weaken; [|exact Hhost]. intros c. unfold host_char.
    rewrite !andb_true_iff. tauto. }
  assert (Hl : has_char "[" host = false).
  { rewrite has_char_all_chars. erewrite all_chars_weaken; [reflexivity | | exact Hhost].
    intros c. unfold host_char. rewrite !andb_true_iff. tauto. }
  assert (Hr : has_char "]" host = false).
  { rewrite has_char_all_chars. erewrite all_chars_weaken; [reflexivity | | exact Hhost].
    intros c. unfold host_char. rewrite !andb_true_iff. tauto. }
  unfold urlparse, urlsplit.
  change (lstrip_class is_c0_or_space ("http://" ++ host ++ "/"))
    with ("http://" ++ host ++ "/").
  rewrite remove_class_id.
  2:{ rewrite !all_chars_app, Hunsafe. reflexivity. }
  assert (Hss : split_scheme ("http://" ++ host ++ "/") = ("http", "//" ++ host ++ "/")).
  { change ("http://" ++ host ++ "/") with ("http" ++ String ":" ("//" ++ host ++ "/")).
    by apply split_scheme_of. }
  rewrite Hss.
  assert (Hsn : split_netloc ("//" ++ host ++ "/") = (host, "/")).
  { change ("//" ++ host ++ "/") with (String "/" (String "/" (host ++ String "/" ""))).
    unfold split_netloc. cbn [Ascii.eqb Bool.eqb andb].
    apply (break_at is_netloc_delim host "/" _ Hdelim eq_refl). }
  rewrite Hsn. unfold brackets_ok. rewrite Hl, Hr. reflexivity.
Qed.

(** X15. The domain restriction of [_is_valid_url] is a plain
    suffix test on the host name: the address [http://host/] of any host
    whose lower-cased name ends with an entry of [allowed_domains] is
    valid, whether or not the entry starts at a label of the name. *)
Theorem allowed_domain_is_suffix_test (config : crawler_config) (host allowed : string)
    (domains : list string) :
  allowed_domains config = Some domains -> url_filter config = None ->
  allowed ∈ domains ->
  host <> "" -> all_chars host_char host = true ->
  endswith (lower host) allowed = true ->
  _is_valid_url config ("http://" ++ host ++ "/") = true.
Proof.
  intros Hd Hf Hin Hne Hhost Hsuf. unfold _is_valid_url.
  rewrite (urlparse_http_host host Hhost), Hd, Hf. cbn [scheme netloc path].
  destruct (String.eqb_spec host "") as [|_]; [contradiction|].
  change (String.eqb "http" "") with false. cbn [orb negb].
  change (String.eqb "http" "http") with true. cbn [orb negb].
  assert (He : existsb (endswith (lower host)) domains = true).
  { apply existsb_exists. exists allowed. split; [|exact Hsuf].
    by apply list_elem_of_In. }
  destruct domains as [|d ds]; [by apply elem_of_nil in Hin|].
  rewrite He. reflexivity.
Qed.

(** X16. [CrawlResult.success_rate] is always defined and lies
    between 0 and 1; it is 0 when nothing was visited and 1 exactly when
    something was visited and nothing failed. *)
Theorem crawl_success_rate_bounds (r : CrawlResult) :
  (0 <= success_rate r)%Q /\ (success_rate r <= 1)%Q
  /\ (visited_urls r = ∅ -> (success_rate r == 0)%Q)
  /\ ((success_rate r == 1)%Q <-> visited_urls r <> ∅ /\ failed_urls r = ∅).
Proof.
  unfold success_rate.
  set (v := size (visited_urls r)). set (f := size (failed_urls r)).
  assert (Hv : v = 0%nat <-> visited_urls r = ∅).
  { unfold v. split; [intros H; apply leibniz_equiv, size_empty_inv, H
                      | intros ->; apply size_empty]. }
  assert (Hf : f = 0%nat <-> failed_urls r = ∅).
  { unfold f. apply map_size_empty_iff. }
  destruct (Z.of_nat v + Z.of_nat f =? 0) eqn:E.
  - assert (v = 0%nat /\ f = 0%nat) as [Hv0 Hf0] by lia.
    split; [lra|]. split; [lra|]. split; [reflexivity|].
    split; [intros H; lra | intros [Hne _]; destruct Hne; by apply Hv].
  - assert (Hpos : 0 < Z.of_nat v + Z.of_nat f) by lia.
    assert (Hq : (0 < inject_Z (Z.of_nat v + Z.of_nat f))%Q).
    { change 0%Q with (inject_Z 0). rewrite <- Zlt_Qlt. exact Hpos. }
    assert (Hvq : (0 <= inject_Z (Z.of_nat v))%Q).
    { change 0%Q with (inject_Z 0). rewrite <- Zle_Qle. lia. }
    assert (Hle : (inject_Z (Z.of_nat v) <= inject_Z (Z.of_nat v + Z.of_nat f))%Q).
    { rewrite <- Zle_Qle. lia. }
    split; [|split; [|split]].
    + apply Qle_shift_div_l; [exact Hq | lra].
    + apply Qle_shift_div_r; [exact Hq | lra].
    + intros He. apply Hv in He. rewrite He. change (inject_Z (Z.of_nat 0)) with 0%Q.
      unfold Qdiv. ring.
    + assert (Hy0 : ~ (inject_Z (Z.of_nat v + Z.of_nat f) == 0)%Q).
      { intros H0. rewrite H0 in Hq. exact (Qlt_irrefl 0 Hq). }
      split.
      * intros H1.
        assert (Heq : (inject_Z (Z.of_nat v) == inject_Z (Z.of_nat v + Z.of_nat f))%Q).
        { rewrite <- (Qmult_div_r (inject_Z (Z.of_nat v)) _ Hy0) at 1.
          rewrite H1. ring. }
        rewrite inject_Z_injective in Heq.
        split; [intros He; apply Hv in He; lia | apply Hf; lia].
      * intros [Hne He]. apply Hf in He. rewrite He in Hy0 |- *.
        rewrite Z.add_0_r in Hy0 |- *. field. exact Hy0.
Qed.

End ValidUrlFacts.

Lemma allowed_domain_is_suffix_test_witness :
  BaseCrawler._is_valid_url
    {| BaseCrawler.respect_robots := true; BaseCrawler.max_depth := -1;
       BaseCrawler.max_urls := -1; BaseCrawler.allowed_domains := Some ["example.edu"];
       BaseCrawler.url_filter := None |}
    ("http://" ++ "notexample.edu" ++ "/") = true.
Proof.
  apply (allowed_domain_is_suffix_test _ "notexample.edu" "example.edu" ["example.edu"]);
    [reflexivity | reflexivity | constructor | discriminate | reflexivity | reflexivity].
Defined.

(** ** crawler/robots_parser.py: failures, the cache and the sitemaps *)

Section RobotsCacheFacts.
Import PyStr UrlParse RobotsParser.

Variable RobotFileParser : Type.
Variable rfp_parse : string -> list string -> RobotFileParser.
Variable rfp_can_fetch : RobotFileParser -> string -> string -> bool.
Variable py_float : string -> option Q.

(** X17. [can_fetch] fails open: when no parser is cached for
    the robots.txt address of a URL and the request for it raises or is
    answered with any status other than 200, every user agent may fetch
    the URL; nothing is cached, so the next check asks the server again. *)
Theorem robots_failure_allows_all (self : robots RobotFileParser)
    (net : string -> http_result) (url user_agent : string) (p : ParseResult) :
  urlparse url = Some p ->
  robots_cache self !! (scheme p ++ "://" ++ netloc p ++ "/robots.txt") = None ->
  match net (scheme p ++ "://" ++ netloc p ++ "/robots.txt") with
  | Raised _ => True
  | Response status _ => status <> 200
  end ->
  fetch_robots rfp_parse py_float self net url user_agent = Some (None, self)
  /\ can_fetch rfp_parse rfp_can_fetch py_float self net url user_agent = Some (true, self).
Proof.
  intros Hp Hcache Hnet.
  assert (Hfetch : fetch_robots rfp_parse py_float self net url user_agent = Some (None, self)).
  { unfold fetch_robots, _get_robots_url. rewrite Hp, Hcache.
    destruct (net _) as [m | status text]; [reflexivity|].
    destruct (Z.eqb_spec status 200); [contradiction | reflexivity]. }
  split; [exact Hfetch|].
  unfold can_fetch, _get_robots_url. rewrite Hp, Hcache, Hfetch. reflexivity.
Qed.

Lemma fetch_robots_caches (self self' : robots RobotFileParser)
    (net : string -> http_result) (url agent ru : string) (rp : RobotFileParser) :
  _get_robots_url url = Some ru ->
  fetch_robots rfp_parse py_float self net url agent = Some (Some rp, self') ->
  robots_cache self' !! ru = Some rp.
Proof.
  intros Hru. unfold fetch_robots. rewrite Hru.
  destruct (robots_cache self !! ru) as [rp0|] eqn:Ecache; [by intros [= <- <-]|].
  destruct (net ru) as [m | status text]; [discriminate|].
  destruct (status =? 200); [|discriminate].
  unfold _parse_extended_directives.
  destruct (urlparse ru) as [parsed|]; [|discriminate].
  intros [= <- <-].
  match goal with
  | |- robots_cache (foldl _ (None, ?s) _).2 !! _ = _ =>
      destruct (directives_frame RobotFileParser py_float (netloc parsed) agent
                  (splitlines text) (None, s)) as [Hc _]
  end.
  rewrite Hc. cbn. apply lookup_insert_eq.
Qed.

(** X18. Once [fetch_robots] has returned a parser for a
    URL, every later [fetch_robots] and [can_fetch] for that URL is
    answered from the cache, for any user agent and whatever the server
    would answer now; the object is not changed, so the Crawl-delay and
    Sitemap lines are read for the first user agent only. *)
Theorem cached_robots_answer_without_network (self self' : robots RobotFileParser)
    (net : string -> http_result) (url agent : string) (rp : RobotFileParser) :
  fetch_robots rfp_parse py_float self net url agent = Some (Some rp, self') ->
  forall (net' : string -> http_result) (agent' : string),
    fetch_robots rfp_parse py_float self' net' url agent' = Some (Some rp, self')
    /\ can_fetch rfp_parse rfp_can_fetch py_float self' net' url agent'
       = Some (rfp_can_fetch rp agent' url, self').
Proof.
  intros Hfetch net' agent'.
  destruct (_get_robots_url url) as [ru|] eqn:Hru.
  2:{ unfold fetch_robots in Hfetch. rewrite Hru in Hfetch. discriminate. }
  pose proof (fetch_robots_caches _ _ _ _ _ _ _ Hru Hfetch) as Hc.
  split.
  - unfold fetch_robots. rewrite Hru, Hc. reflexivity.
  - unfold can_fetch. rewrite Hru, Hc. reflexivity.
Qed.

Lemma directive_step_http (domain agent : string)
    (acc : option string * robots RobotFileParser) (line : string) :
  http_only acc.2 -> http_only (directive_step py_float domain agent acc line).2.
Proof.
  unfold directive_step. destruct acc as [cur self]. cbn [snd]. intros Hinv.
  destruct (String.eqb (strip line) "" || startswith (strip line) "#"); [exact Hinv|].
  destruct (startswith (lower (strip line)) "user-agent:"); [exact Hinv|].
  destruct (match cur with Some _ => _ | None => _ end); [exact Hinv|].
  cbn [snd].
  assert (Hd : http_only
                 (if startswith (lower (strip line)) "crawl-delay:"
                  then match py_float (directive_value (strip line)) with
                       | Some delay =>
                           {| robots_cache := robots_cache self;
                              sitemap_cache := sitemap_cache self;
                              crawl_delays := <[domain := delay]> (crawl_delays self) |}
                       | None => self
                       end
                  else self)).
  { destruct (startswith _ "crawl-delay:"); [|exact Hinv].
    destruct (py_float _); exact Hinv. }
  revert Hd. generalize (if startswith (lower (strip line)) "crawl-delay:"
                         then match py_float (directive_value (strip line)) with
                              | Some delay =>
                                  {| robots_cache := robots_cache self;
                                     sitemap_cache := sitemap_cache self;
                                     crawl_delays := <[domain := delay]> (crawl_delays self) |}
                              | None => self
                              end
                         else self).
  intros self1 Hd.
  destruct (startswith (lower (strip line)) "sitemap:"); [|exact Hd].
  destruct (startswith (directive_value (strip line)) "http") eqn:Eh; [|exact Hd].
  intros d l. cbn. destruct (decide (domain = d)) as [->|Hne].
  - rewrite lookup_insert_eq. intros [= <-]. apply Forall_app. split.
    + destruct (sitemap_cache self1 !! d) as [l0|] eqn:El; [exact (Hd d l0 El) | constructor].
    + repeat constructor. exact Eh.
  - rewrite lookup_insert_ne by exact Hne. apply Hd.
Qed.

Lemma fetch_robots_http (self self' : robots RobotFileParser)
    (net : string -> http_result) (url agent : string) (r : option RobotFileParser) :
  http_only self ->
  fetch_robots rfp_parse py_float self net url agent = Some (r, self') ->
  http_only self'.
Proof.
  intros Hinv. unfold fetch_robots.
  destruct (_get_robots_url url) as [ru|]; [|discriminate].
  destruct (robots_cache self !! ru) as [rp|]; [by intros [= <- <-]|].
  destruct (net ru) as [m | status text]; [by intros [= <- <-]|].
  destruct (status =? 200); [|by intros [= <- <-]].
  unfold _parse_extended_directives.
  destruct (urlparse ru) as [parsed|]; [|by intros [= <- <-]].
  intros [= <- <-].
  match goal with
  | |- http_only (foldl ?f (None, ?s) ?ls).2 =>
      assert (H : forall acc, http_only acc.2 -> http_only (foldl f acc ls).2)
  end.
  { generalize (splitlines text). intros ls. induction ls as [|l ls IH]; intros acc Hacc.
    - exact Hacc.
    - cbn [foldl]. apply IH, directive_step_http, Hacc. }
  apply H. exact Hinv.
Qed.

Lemma reachable_http_only (self : robots RobotFileParser) :
  reachable rfp_parse rfp_can_fetch py_float self -> http_only self.
Proof.
  induction 1 as [| self net url agent r self' _ IH Hf
                  | self net url agent b self' _ IH Hc
                  | self net url l self' _ IH Hs
                  | self _ IH].
  - intros d l Hd. cbn in Hd. by rewrite lookup_empty in Hd.
  - exact (fetch_robots_http _ _ _ _ _ _ IH Hf).
  - unfold can_fetch in Hc. destruct (_get_robots_url url) as [ru|]; [|discriminate].
    destruct (robots_cache self !! ru) as [rp|].
    + by injection Hc as _ <-.
    + destruct (fetch_robots rfp_parse py_float self net url agent) as [[[rp|] s]|] eqn:E;
        [| |discriminate]; injection Hc as _ <-; exact (fetch_robots_http _ _ _ _ _ _ IH E).
  - unfold get_sitemaps in Hs. destruct (urlparse url) as [parsed|]; [|discriminate].
    destruct (sitemap_cache self !! netloc parsed).
    + by injection Hs as _ <-.
    + destruct (fetch_robots rfp_parse py_float self net url "*") as [[r s]|] eqn:E;
        [|discriminate]. cbn in Hs. injection Hs as _ <-.
      exact (fetch_robots_http _ _ _ _ _ _ IH E).
  - intros d l Hd. cbn in Hd. by rewrite lookup_empty in Hd.
Qed.

(** X19. Whatever the robots.txt files fetched so far said,
    [get_sitemaps] only returns addresses that start with [http]: a
    Sitemap line with a relative address or another scheme is dropped. *)
Theorem sitemaps_start_with_http (self self' : robots RobotFileParser)
    (net : string -> http_result) (url : string) (sitemaps : list string) :
  reachable rfp_parse rfp_can_fetch py_float self ->
  get_sitemaps rfp_parse py_float self net url = Some (sitemaps, self') ->
  Forall (fun u => startswith u "http" = true) sitemaps.
Proof.
  intros Hreach Hs.
  assert (Hinv : http_only self').
  { apply reachable_http_only. eapply reach_sitemaps; [exact Hreach | exact Hs]. }
  unfold get_sitemaps in Hs. destruct (urlparse url) as [parsed|]; [|discriminate].
  assert (Hl : forall s, default [] (sitemap_cache s !! netloc parsed) = sitemaps ->
                         s = self' -> Forall (fun u => startswith u "http" = true) sitemaps).
  { intros s <- ->. destruct (sitemap_cache self' !! netloc parsed) as [l|] eqn:El.
    - exact (Hinv _ _ El).
    - constructor. }
  destruct (sitemap_cache self !! netloc parsed).
  - injection Hs as Hs1 Hs2. exact (Hl self Hs1 Hs2).
  - destruct (fetch_robots rfp_parse py_float self net url "*") as [[r s]|];
      [|discriminate]. cbn in Hs. injection Hs as Hs1 Hs2. exact (Hl s Hs1 Hs2).
Qed.

End RobotsCacheFacts.

Lemma robots_failure_allows_all_witness :
  RobotsParser.fetch_robots (fun _ _ => tt) (fun _ => None) RobotsParser.new_robots
    (fun _ => RobotsParser.Response 503 "Service Unavailable")
    "https://cs.example.edu/courses/cs101" "hw-scraper"
  = Some (None, RobotsParser.new_robots)
  /\ RobotsParser.can_fetch (fun _ _ => tt) (fun _ _ _ => false) (fun _ => None)
       RobotsParser.new_robots (fun _ => RobotsParser.Response 503 "Service Unavailable")
       "https://cs.example.edu/courses/cs101" "hw-scraper"
     = Some (true, RobotsParser.new_robots).
Proof.
  apply (robots_failure_allows_all unit (fun _ _ => tt) (fun _ _ _ => false) (fun _ => None)
           RobotsParser.new_robots (fun _ => RobotsParser.Response 503 "Service Unavailable")
           "https://cs.example.edu/courses/cs101" "hw-scraper"
           {| UrlParse.scheme := "https"; UrlParse.netloc := "cs.example.edu";
              UrlParse.path := "/courses/cs101"; UrlParse.params := "";
              UrlParse.query := ""; UrlParse.fragment := "" |});
    [reflexivity | reflexivity | discriminate].
Defined.

Lemma cached_robots_answer_without_network_witness :
  let net := fun _ : string => RobotsParser.Response 200 "User-agent: *" in
  let net' := fun _ : string => RobotsParser.Raised "connection refused" in
  let self' := snd (default (None, RobotsParser.new_robots)
                      (RobotsParser.fetch_robots (fun _ _ => tt) (fun _ => None)
                         RobotsParser.new_robots net "https://cs.example.edu/a" "*")) in
  RobotsParser.fetch_robots (fun _ _ => tt) (fun _ => None) self' net'
    "https://cs.example.edu/a" "hw-scraper" = Some (Some tt, self')
  /\ RobotsParser.can_fetch (fun _ _ => tt) (fun _ _ _ => false) (fun _ => None) self' net'
       "https://cs.example.edu/a" "hw-scraper" = Some (false, self').
Proof.
  intros net net' self'.
  apply (cached_robots_answer_without_network unit (fun _ _ => tt) (fun _ _ _ => false)
           (fun _ => None) RobotsParser.new_robots self' net "https://cs.example.edu/a" "*" tt).
  reflexivity.
Defined.

Lemma sitemaps_start_with_http_witness :
  Forall (fun u => PyStr.startswith u "http" = true) ["https://cs.example.edu/sitemap.xml"].
Proof.
  apply (sitemaps_start_with_http unit (fun _ _ => tt) (fun _ _ _ => false) (fun _ => None)
           RobotsParser.new_robots
           (snd (default ([], RobotsParser.new_robots)
                   (RobotsParser.get_sitemaps (fun _ _ => tt) (fun _ => None)
                      RobotsParser.new_robots
                      (fun _ => RobotsParser.Response 200
                                  ("Sitemap: https://cs.example.edu/sitemap.xml"
                                   ++ String (PyStr.chr 10) "Sitemap: /local.xml"))
                      "https://cs.example.edu/a")))
           (fun _ => RobotsParser.Response 200
                       ("Sitemap: https://cs.example.edu/sitemap.xml"
                                   ++ String (PyStr.chr 10) "Sitemap: /local.xml"))
           "https://cs.example.edu/a");
    [apply RobotsParser.reach_new | reflexivity].
Defined.

(** ** downloader.py: file names and the retry loop *)

Section FilenameFacts.
Import PyStr UrlParse Downloader.

Variable unquote : string -> string.

Lemma has_char_app (d : ascii) (a b : string) :
  has_char d (a ++ b) = has_char d a || has_char d b.
Proof.
  induction a as [|c a IH]; [by rewrite append_nil|].
  rewrite append_cons. cbn [has_char]. rewrite IH. by rewrite orb_assoc.
Qed.

Lemma sanitize_dot (s : string) : has_char "." (sanitize s) = has_char "." s.
Proof.
  induction s as [|c r IH]; [reflexivity|]. cbn [sanitize has_char]. rewrite IH. f_equal.
  clear. each_char c.
Qed.

Lemma sanitize_valid (s : string) :
  all_chars (fun c => negb (is_invalid_char c)) (sanitize s) = true.
Proof.
  induction s as [|c r IH]; [reflexivity|]. cbn [sanitize all_chars]. rewrite IH.
  rewrite andb_true_r. clear. each_char c.
Qed.

Lemma has_char_nonempty (d : ascii) (s : string) : has_char d s = true -> s <> "".
Proof. by destruct s. Qed.

Lemma trailing_slash_segment (s : string) :
  endswith s "/" = true -> has_char "/" s = true /\ (last_segment_split s).2 = "".
Proof.
  induction s as [|c r IH]; [discriminate|].
  cbn [endswith has_char last_segment_split].
  destruct r as [|d r'].
  - cbn [endswith]. rewrite orb_false_r. intros H.
    apply String.eqb_eq in H. injection H as ->. by split.
  - assert (Hne : String.eqb (String c (String d r')) "/" = false).
    { apply String.eqb_neq. congruence. }
    rewrite Hne. cbn [orb]. intros H. destruct (IH H) as [Hs Ht].
    rewrite Hs, orb_true_r. split; [reflexivity|].
    destruct (last_segment_split (String d r')) as [h t]. exact Ht.
Qed.

(** X20. [DownloadManager._extract_filename] always returns a
    name that holds a dot and none of the invalid characters, whatever
    [unquote] makes of the path; the name is therefore never empty, and
    the fallback name built from [hash(url)] is never used. *)
Theorem extracted_filename_is_safe (url_hash : string -> Z) (url name : string) :
  _extract_filename unquote url_hash url = Some name ->
  name <> ""
  /\ has_char "." name = true
  /\ all_chars (fun c => negb (is_invalid_char c)) name = true
  /\ forall url_hash', _extract_filename unquote url_hash' url = Some name.
Proof.
  unfold _extract_filename. destruct (urlparse url) as [p|]; [|discriminate].
  set (f0 := if has_char "/" (unquote (path p))
             then (last_segment_split (unquote (path p))).2 else unquote (path p)).
  set (f1 := if has_char "." f0 then f0
             else if contains "pdf" (lower url) then f0 ++ ".pdf"
             else if contains "mp4" (lower url) || contains "video" (lower url)
             then f0 ++ ".mp4" else f0 ++ ".bin").
  assert (Hdot : has_char "." (sanitize f1) = true).
  { rewrite sanitize_dot. unfold f1. destruct (has_char "." f0) eqn:E; [exact E|].
    destruct (contains "pdf" _); [|destruct (_ || _)];
      rewrite has_char_app; apply orb_true_r. }
  assert (Hne : String.eqb (sanitize f1) "" = false).
  { apply String.eqb_neq. eapply has_char_nonempty, Hdot. }
  rewrite Hne. intros [= <-].
  split; [eapply has_char_nonempty, Hdot|]. split; [exact Hdot|].
  split; [apply sanitize_valid|]. intros _. reflexivity.
Qed.

(** X21. A URL whose decoded path ends with a slash has an empty
    last segment, so unless the URL contains [pdf], [mp4] or [video] its
    file name is [.bin]: all such URLs of a batch are written to the same
    file. *)
Theorem directory_urls_share_a_name (url_hash : string -> Z) (url : string)
    (p : ParseResult) :
  urlparse url = Some p ->
  endswith (unquote (path p)) "/" = true ->
  contains "pdf" (lower url) = false ->
  contains "mp4" (lower url) = false ->
  contains "video" (lower url) = false ->
  _extract_filename unquote url_hash url = Some ".bin".
Proof.
  intros Hp Hslash Hpdf Hmp4 Hvideo. unfold _extract_filename.
  rewrite Hp, Hpdf, Hmp4, Hvideo.
  destruct (trailing_slash_segment _ Hslash) as [Hs Ht]. rewrite Hs, Ht. reflexivity.
Qed.

End FilenameFacts.

Lemma extracted_filename_is_safe_witness :
  "week_1_notes.pdf" <> ""
  /\ PyStr.has_char "." "week_1_notes.pdf" = true
  /\ PyStr.all_chars (fun c => negb (Downloader.is_invalid_char c)) "week_1_notes.pdf" = true
  /\ forall url_hash',
       Downloader._extract_filename (fun s => s) url_hash' "http://a.edu/cs101/week:1:notes?x=pdf"
       = Some "week_1_notes.pdf".
Proof.
  apply (extracted_filename_is_safe (fun s => s) (fun _ => 0)
           "http://a.edu/cs101/week:1:notes?x=pdf"). reflexivity.
Defined.

Lemma directory_urls_share_a_name_witness :
  Downloader._extract_filename (fun s => s) (fun _ => 0) "http://a.edu/cs101/notes/"
  = Some ".bin".
Proof.
  apply (directory_urls_share_a_name (fun s => s) (fun _ => 0) "http://a.edu/cs101/notes/"
           {| UrlParse.scheme := "http"; UrlParse.netloc := "a.edu";
              UrlParse.path := "/cs101/notes/"; UrlParse.params := "";
              UrlParse.query := ""; UrlParse.fragment := "" |}); reflexivity.
Defined.

Section RetryLoopFacts.
Import Models Downloader.
Local Open Scope list_scope.




End RetryLoopFacts.



(** ** async_scraper.py and batch_processor.py: courses and tasks *)

Section ScrapeCourseFacts.
Import Models AsyncScraper.
Local Open Scope list_scope.




End ScrapeCourseFacts.

Section TaskFacts.
Import Models AsyncScraper BatchProcessor.
Local Open Scope list_scope.

(** X25. A course whose page cannot be fetched is still a
    completed task: [scrape_course] swallows the exception, so
    [_process_single_course] sets the status [completed] and appends the
    address to the completed tasks of the checkpoint file, and
    [_process_and_update] counts the task as completed, not as failed. *)
Theorem unfetched_course_is_completed (self : processor) (disk : gmap string checkpoint)
    (w : course_world) (task : BatchTask) (organize : bool) (result : BatchResult)
    (path message : string) :
  page w = inl message ->
  _checkpoint_file self = Some path ->
  exists r self' disk' data,
    _process_single_course self disk w None task organize
    = (inr r, {| task_id := task_id task; url := url task; status := "completed";
                 error := error task |}, self', disk')
    /\ files_found r = 0 /\ files_downloaded r = 0 /\ sr_errors r = [message]
    /\ disk' !! path = Some data
    /\ cp_completed_tasks data
       = cp_completed_tasks (_checkpoint_data self) ++ [url task]
    /\ completed_tasks (_process_and_update result (inr r)) = completed_tasks result + 1
    /\ failed_tasks (_process_and_update result (inr r)) = failed_tasks result.
Proof.
  intros Hpage Hfile. unfold _process_single_course, _save_checkpoint. rewrite Hfile.
  change (String.eqb "completed" "completed") with true. cbv iota.
  eexists _, _, _, _. split; [reflexivity|].
  unfold scrape_course. rewrite Hpage. simpl.
  rewrite lookup_insert_eq. repeat split; reflexivity.
Qed.




End TaskFacts.

Lemma unfetched_course_is_completed_witness :
  let self := BatchProcessor._setup_checkpoint ∅ "batch_0a1b2c3d" "out" "t0" in
  let w := {| AsyncScraper.page := inl "Circuit breaker open for a.edu";
              AsyncScraper.parse_course_page := fun _ => inr "CS 101";
              AsyncScraper.extract_course_files := fun _ => inr [];
              AsyncScraper.setup_course_directory := None;
              AsyncScraper.download := fun _ _ => inl "" |} in
  let task := {| BatchProcessor.task_id := "task_0"; BatchProcessor.url := "http://a.edu/cs101";
                 BatchProcessor.status := "pending"; BatchProcessor.error := None |} in
  let result := {| Models.batch_id := "batch_0a1b2c3d"; Models.total_tasks := 1;
                   Models.completed_tasks := 0; Models.failed_tasks := 0;
                   Models.in_progress_tasks := 0; Models.total_files_downloaded := 0;
                   Models.total_bytes_downloaded := 0; Models.errors := [] |} in
  exists r self' disk' data,
    BatchProcessor._process_single_course self ∅ w None task true
    = (inr r, {| BatchProcessor.task_id := "task_0"; BatchProcessor.url := "http://a.edu/cs101";
                 BatchProcessor.status := "completed"; BatchProcessor.error := None |},
       self', disk')
    /\ Models.files_found r = 0 /\ Models.files_downloaded r = 0
    /\ Models.sr_errors r = ["Circuit breaker open for a.edu"]
    /\ disk' !! BatchProcessor.checkpoint_path "out" "batch_0a1b2c3d" = Some data
    /\ BatchProcessor.cp_completed_tasks data
       = (BatchProcessor.cp_completed_tasks (BatchProcessor._checkpoint_data self)
          ++ ["http://a.edu/cs101"])%list
    /\ Models.completed_tasks (BatchProcessor._process_and_update result (inr r))
       = Models.completed_tasks result + 1
    /\ Models.failed_tasks (BatchProcessor._process_and_update result (inr r))
       = Models.failed_tasks result.
Proof.
  intros self w task result.
  apply (unfetched_course_is_completed self ∅ w task true result
           (BatchProcessor.checkpoint_path "out" "batch_0a1b2c3d")
           "Circuit breaker open for a.edu"); reflexivity.
Defined.

(** ** batch_processor.py: what a stable batch identifier would give *)

Section ResumeFacts.
Import BatchProcessor.
Local Open Scope list_scope.

Lemma save_all_completed (saved : list string) (self : processor)
    (disk : gmap string checkpoint) (path : string) :
  _checkpoint_file self = Some path ->
  let r := foldl (fun '(s, d) u => _save_checkpoint s d u "completed") (self, disk) saved in
  _checkpoint_file r.1 = Some path
  /\ cp_completed_tasks (_checkpoint_data r.1)
     = cp_completed_tasks (_checkpoint_data self) ++ saved
  /\ (cp_completed_tasks <$> r.2 !! path)
     = if decide (saved = []) then cp_completed_tasks <$> disk !! path
       else Some (cp_completed_tasks (_checkpoint_data self) ++ saved).
Proof.
  revert self disk. induction saved as [|u saved IH]; intros self disk Hfile r.
  - subst r. simpl. rewrite app_nil_r. auto.
  - subst r. cbn [foldl].
    destruct (_save_checkpoint self disk u "completed") as [self1 disk1] eqn:E.
    unfold _save_checkpoint in E. change (String.eqb "completed" "completed") with true in E.
    cbv iota in E. rewrite Hfile in E. injection E as <- <-.
    match goal with
    | |- context [foldl _ (?s, ?d) saved] => destruct (IH s d eq_refl) as (I1 & I2 & I3)
    end.
    split; [exact I1|]. split.
    + rewrite I2. simpl. by rewrite <- app_assoc.
    + rewrite I3. destruct (decide (u :: saved = [])) as [Hx|_]; [discriminate|].
      destruct (decide (saved = [])) as [->|Hne].
      * by rewrite lookup_insert_eq.
      * simpl. by rewrite <- app_assoc.
Qed.

Lemma filter_ext_elem {B : Type} (P Q : B -> Prop) `{!forall x, Decision (P x)}
    `{!forall x, Decision (Q x)} (l : list B) :
  (forall x, x ∈ l -> (P x <-> Q x)) -> filter P l = filter Q l.
Proof.
  induction l as [|x l IH]; intros Hext; [reflexivity|].
  assert (Hl : filter P l = filter Q l).
  { apply IH. intros y Hy. apply Hext. by right. }
  assert (Hx : P x <-> Q x) by (apply Hext; by left).
  destruct (decide (P x)) as [Hp|Hp].
  - rewrite (filter_cons_True P) by exact Hp.
    rewrite (filter_cons_True Q) by (apply Hx, Hp). by rewrite Hl.
  - rewrite (filter_cons_False P) by exact Hp.
    rewrite (filter_cons_False Q) by (intros Hq; apply Hp, Hx, Hq). exact Hl.
Qed.

(** X27. The checkpoint file itself supports resuming: if a
    second call of [process_courses] were given the batch identifier of an
    interrupted first call, it would submit exactly the URLs of the list
    that the first call had not completed, in their order. *)
Theorem same_batch_id_would_resume (disk : gmap string checkpoint)
    (hash8 now now' output_dir : string) (urls finished finished' : list string) :
  disk !! checkpoint_path output_dir (generate_worker_id "batch" hash8) = None ->
  let first := process_courses disk hash8 now urls output_dir true finished in
  let second :=
    process_courses (disk_after first) hash8 now' urls output_dir true finished' in
  submitted first = urls
  /\ submitted second = filter (fun u => u ∉ finished) urls.
Proof.
  intros Hnone first second.
  set (path := checkpoint_path output_dir (generate_worker_id "batch" hash8)) in *.
  assert (Hfirst : submitted first = urls).
  { subst first. unfold process_courses, _setup_checkpoint. fold path. rewrite Hnone.
    cbn [submitted]. apply filter_nothing_completed. reflexivity. }
  split; [exact Hfirst|].
  set (self0 := _setup_checkpoint disk (generate_worker_id "batch" hash8) output_dir now).
  assert (Hfile0 : _checkpoint_file self0 = Some path) by reflexivity.
  assert (Hdata0 : cp_completed_tasks (_checkpoint_data self0) = []).
  { unfold self0, _setup_checkpoint. cbn [_checkpoint_data]. fold path. by rewrite Hnone. }
  assert (Hfilter0 : _filter_completed_urls self0 urls = urls).
  { by apply filter_nothing_completed. }
  assert (Hafter : disk_after first
                   = (foldl (fun '(s, d) u => _save_checkpoint s d u "completed") (self0, disk)
                        (filter (fun u => u ∈ _filter_completed_urls self0 urls) finished)).2)
    by reflexivity.
  assert (Hsecond : submitted second
                    = _filter_completed_urls
                        (_setup_checkpoint (disk_after first)
                           (generate_worker_id "batch" hash8) output_dir now') urls)
    by reflexivity.
  clearbody self0 first second. rewrite Hfilter0 in Hafter.
  destruct (save_all_completed (filter (fun u => u ∈ urls) finished) self0 disk path Hfile0)
    as (_ & _ & H3).
  rewrite <- Hafter, Hdata0, Hnone in H3. simpl in H3. clear Hafter.
  rewrite Hsecond. clear Hsecond.
  unfold _setup_checkpoint, _filter_completed_urls. fold path. cbn [_checkpoint_data].
  remember (disk_after first) as disk1 eqn:Hd1. clear Hd1.
  assert (Hcompleted :
            cp_completed_tasks
              match disk1 !! path with
              | Some data => data
              | None => {| cp_batch_id := generate_worker_id "batch" hash8;
                           cp_started_at := now'; cp_completed_tasks := [] |}
              end = filter (fun u => u ∈ urls) finished).
  { revert H3. destruct (disk1 !! path) as [data|]; simpl.
    - destruct (decide _); [discriminate | congruence].
    - destruct (decide _) as [->|]; [reflexivity | discriminate]. }
  rewrite Hcompleted. apply filter_ext_elem. intros u Hu.
  rewrite elem_of_list_to_set, list_elem_of_filter. tauto.
Qed.

End ResumeFacts.

Lemma same_batch_id_would_resume_witness :
  let urls := ["http://a.edu/c1"; "http://a.edu/c2"; "http://a.edu/c3"] in
  let finished := ["http://a.edu/c2"; "http://a.edu/c1"] in
  let first := BatchProcessor.process_courses ∅ "0a1b2c3d" "t0" urls "out" true finished in
  let second :=
    BatchProcessor.process_courses (BatchProcessor.disk_after first) "0a1b2c3d" "t1" urls
      "out" true [] in
  BatchProcessor.submitted first = urls
  /\ BatchProcessor.submitted second = filter (fun u => u ∉ finished) urls.
Proof.
  apply (same_batch_id_would_resume ∅ "0a1b2c3d" "t0" "t1" "out"
           ["http://a.edu/c1"; "http://a.edu/c2"; "http://a.edu/c3"]
           ["http://a.edu/c2"; "http://a.edu/c1"] []).
  reflexivity.
Defined.

(** ** crawler/bfs_crawler.py: the breadth-first crawl *)

Section BfsFacts.
Import PyStr UrlParse BaseCrawler RobotsParser BFSCrawler.
Local Open Scope list_scope.

Variable RobotFileParser : Type.
Variable rfp_parse : string -> list string -> RobotFileParser.
Variable rfp_can_fetch : RobotFileParser -> string -> string -> bool.
Variable py_float : string -> option Q.
Variable config : crawler_config.

(** putting a URL that is not yet discovered at the end of the queue *)
Lemma enqueue_keeps (st : crawl_state RobotFileParser) (u : string) (d : Z) :
  crawl_invariant config st -> u ∉ discovered (sets st) -> 0 <= d ->
  crawl_invariant config
    {| queue := queue st ++ [(u, d)];
       sets := {| visited := visited (sets st);
                  discovered := {[u]} ∪ discovered (sets st);
                  failed := failed (sets st) |};
       robots_parser := robots_parser st;
       depth_reached := depth_reached st;
       fetched := fetched st; slept := slept st |}.
Proof.
  intros [Hv Hl Hq Hqd Hf Hfd Hvf Hd] Hu Hd0. constructor; simpl.
  - intros x Hx. apply elem_of_union_r, Hv, Hx.
  - exact Hl.
  - intros u' d' Hin. apply elem_of_app in Hin as [Hin | Hin].
    + destruct (Hq u' d' Hin) as (H1 & H2 & H3). split; [by apply elem_of_union_r | auto].
    + apply list_elem_of_singleton in Hin. injection Hin as -> ->.
      split; [by apply elem_of_union_l, elem_of_singleton|].
      split; [|exact Hd0]. intros Hin. apply Hu, Hfd, Hin.
  - rewrite fmap_app. apply NoDup_app. split; [exact Hqd|]. split.
    + intros x Hx Hx'. apply list_elem_of_singleton in Hx'. subst x.
      apply list_elem_of_fmap in Hx as ([u' d'] & Hp & Hin). simpl in Hp. subst u'.
      apply Hu. exact (proj1 (Hq u d' Hin)).
    + apply NoDup_singleton.
  - exact Hf.
  - intros x Hx. apply elem_of_union_r, Hfd, Hx.
  - exact Hvf.
  - exact Hd.
Qed.

Lemma add_sitemap_urls_keeps (urls : list string) (st : crawl_state RobotFileParser) :
  crawl_invariant config st ->
  crawl_invariant config (add_sitemap_urls config st urls)
  /\ discovered (sets st) ⊆ discovered (sets (add_sitemap_urls config st urls)).
Proof.
  unfold add_sitemap_urls. revert st. induction urls as [|u urls IH]; intros st Hinv.
  - split; [exact Hinv | done].
  - cbn [foldl].
    destruct (_is_valid_url config u && negb (bool_decide (u ∈ discovered (sets st)))) eqn:E.
    + apply andb_true_iff in E as [_ E]. apply negb_true_iff, bool_decide_eq_false in E.
      match goal with
      | |- context [foldl _ ?s urls] => destruct (IH s) as [I1 I2]
      end.
      { apply enqueue_keeps; [exact Hinv | exact E | lia]. }
      split; [exact I1|]. intros x Hx. apply I2. simpl. by apply elem_of_union_r.
    + apply IH, Hinv.
Qed.

Lemma add_sitemaps_keeps (w : web) (sitemaps : list string)
    (st : crawl_state RobotFileParser) :
  crawl_invariant config st ->
  crawl_invariant config (add_sitemaps config w st sitemaps)
  /\ discovered (sets st) ⊆ discovered (sets (add_sitemaps config w st sitemaps)).
Proof.
  unfold add_sitemaps. revert st. induction sitemaps as [|s sitemaps IH]; intros st Hinv.
  - split; [exact Hinv | done].
  - cbn [foldl]. destruct (add_sitemap_urls_keeps (parse_sitemap w s) st Hinv) as [H1 H2].
    destruct (IH _ H1) as [I1 I2]. split; [exact I1 | by etrans].
Qed.

Lemma add_links_keeps (links : list string) (depth : Z)
    (st st' : crawl_state RobotFileParser) :
  add_links config st depth links = Some st' ->
  crawl_invariant config st -> 0 <= depth ->
  crawl_invariant config st'
  /\ visited (sets st') = visited (sets st)
  /\ (length (queue st') <= length (queue st) + length links)%nat.
Proof.
  revert st. induction links as [|l links IH]; intros st Hadd Hinv Hd.
  - injection Hadd as <-. split; [exact Hinv|]. split; [reflexivity | simpl; lia].
  - cbn [add_links] in Hadd. cbn [length].
    destruct (bool_decide (l ∈ discovered (sets st))) eqn:E.
    + destruct (IH st Hadd Hinv Hd) as (I1 & I2 & I3). split; [exact I1|].
      split; [exact I2 | lia].
    + apply bool_decide_eq_false in E.
      destruct (_should_crawl_url config (sets st) l) as [[|]|]; [| |discriminate].
      * match type of Hadd with
        | add_links _ ?s _ _ = _ => destruct (IH s Hadd) as (I1 & I2 & I3)
        end.
        { apply enqueue_keeps; [exact Hinv | exact E | lia]. }
        { exact Hd. }
        split; [exact I1|]. split; [exact I2|].
        simpl in I3. rewrite length_app in I3. simpl in I3. lia.
      * destruct (IH st Hadd Hinv Hd) as (I1 & I2 & I3). split; [exact I1|].
        split; [exact I2 | lia].
Qed.

(** a turn of the loop from the request of the page on *)
Lemma fetch_and_follow_keeps (w : web) (bound : nat) (st st' : crawl_state RobotFileParser)
    (current_url : string) (depth : Z) :
  fetch_and_follow config w st current_url depth = Some st' ->
  crawl_invariant config st ->
  current_url ∈ discovered (sets st) -> current_url ∉ fetched st ->
  current_url ∉ (queue st).*1 -> current_url ∉ visited (sets st) -> 0 <= depth ->
  (0 < max_urls config -> Z.of_nat (size (visited (sets st))) < max_urls config) ->
  crawl_invariant config st'
  /\ (0 < max_urls config ->
      (forall html url, (length (_extract_links w html url) <= bound)%nat) ->
      (turns_left config bound st' <= turns_left config bound st)%nat).
Proof.
  intros Hstep [Hv Hl Hq Hqd Hf Hfd Hvf Hd] Hcd Hcf Hcq Hcv Hd0 Hlim.
  unfold fetch_and_follow in Hstep.
  assert (Hsets : forall text self,
             _fetch_page w (sets st) current_url = (text, self) ->
             visited self = visited (sets st) /\ discovered self = discovered (sets st)).
  { unfold _fetch_page. intros text self.
    destruct (page w current_url); intros [= <- <-]; by split. }
  destruct (_fetch_page w (sets st) current_url) as [html_content self] eqn:Efetch.
  destruct (Hsets _ _ eq_refl) as [Hsv Hsd]. clear Hsets.
  assert (Hfailed : forall failed',
             crawl_invariant config
               {| queue := queue st;
                  sets := {| visited := visited self; discovered := discovered self;
                             failed := failed' |};
                  robots_parser := robots_parser st; depth_reached := depth_reached st;
                  fetched := current_url :: fetched st; slept := slept st |}).
  { intros failed'. constructor; simpl; rewrite ?Hsv, ?Hsd.
    - exact Hv.
    - exact Hl.
    - intros u d Hin. destruct (Hq u d Hin) as (H1 & H2 & H3).
      split; [exact H1|]. split; [|exact H3]. intros Hin'.
      apply elem_of_cons in Hin' as [-> | Hin']; [|contradiction].
      apply Hcq, list_elem_of_fmap. by exists (current_url, d).
    - exact Hqd.
    - constructor; [exact Hcf | exact Hf].
    - intros u Hu. apply elem_of_cons in Hu as [-> | Hu]; [exact Hcd | by apply Hfd].
    - intros u Hu. right. by apply Hvf.
    - exact Hd. }
  assert (Hno_page : forall failed' st1,
             st1 = {| queue := queue st;
                      sets := {| visited := visited self; discovered := discovered self;
                                 failed := failed' |};
                      robots_parser := robots_parser st; depth_reached := depth_reached st;
                      fetched := current_url :: fetched st; slept := slept st |} ->
             crawl_invariant config st1
             /\ (0 < max_urls config ->
                 (forall html url, (length (_extract_links w html url) <= bound)%nat) ->
                 (turns_left config bound st1 <= turns_left config bound st)%nat)).
  { intros failed' st1 ->. split; [apply Hfailed|]. intros _ _.
    unfold turns_left. simpl. rewrite Hsv. lia. }
  destruct html_content as [[|c text]|].
  - injection Hstep as <-. eapply Hno_page. reflexivity.
  - simpl in Hstep.
    match type of Hstep with
    | add_links _ ?s _ ?ls = _ =>
        destruct (add_links_keeps ls depth s st' Hstep) as (I1 & I2 & I3)
    end.
    + constructor; simpl; rewrite ?Hsv, ?Hsd.
      * intros x Hx. apply elem_of_union in Hx as [Hx | Hx]; [|by apply Hv].
        apply elem_of_singleton in Hx. by subst x.
      * intros Hpos. specialize (Hlim Hpos).
        rewrite size_union by (by apply disjoint_singleton_l).
        rewrite size_singleton. lia.
      * intros u d Hin. destruct (Hq u d Hin) as (H1 & H2 & H3).
        split; [exact H1|]. split; [|exact H3]. intros Hin'.
        apply elem_of_cons in Hin' as [-> | Hin']; [|contradiction].
        apply Hcq, list_elem_of_fmap. by exists (current_url, d).
      * exact Hqd.
      * constructor; [exact Hcf | exact Hf].
      * intros u Hu. apply elem_of_cons in Hu as [-> | Hu]; [exact Hcd | by apply Hfd].
      * intros u Hu. apply elem_of_union in Hu as [Hu | Hu].
        -- apply elem_of_singleton in Hu. subst u. by left.
        -- right. by apply Hvf.
      * exact Hd.
    + exact Hd0.
    + split; [exact I1|]. intros Hpos Hbound.
      unfold turns_left. rewrite I2. simpl in I3 |- *. rewrite Hsv.
      specialize (Hbound (String c text) current_url).
      assert (Hsize : size ({[current_url]} ∪ visited (sets st))
                      = S (size (visited (sets st)))).
      { rewrite size_union by (by apply disjoint_singleton_l). by rewrite size_singleton. }
      rewrite Hsize. specialize (Hlim Hpos).
      replace (Z.to_nat (max_urls config) - size (visited (sets st)))%nat
        with (S (Z.to_nat (max_urls config) - S (size (visited (sets st)))))%nat by lia.
      simpl. lia.
  - injection Hstep as <-. eapply Hno_page. reflexivity.
Qed.

(** the invariant and the measure do not look at the robots parser or at
    the delays slept *)
Lemma crawl_invariant_ext (st1 st2 : crawl_state RobotFileParser) :
  queue st2 = queue st1 -> visited (sets st2) = visited (sets st1) ->
  discovered (sets st2) = discovered (sets st1) ->
  depth_reached st2 = depth_reached st1 -> fetched st2 = fetched st1 ->
  crawl_invariant config st1 -> crawl_invariant config st2.
Proof.
  intros E1 E2 E3 E4 E5 [Hv Hl Hq Hqd Hf Hfd Hvf Hd].
  constructor; rewrite ?E1, ?E2, ?E3, ?E4, ?E5; assumption.
Qed.

(** taking the head of the queue *)
Lemma pop_keeps (st : crawl_state RobotFileParser) (current_url : string) (depth : Z)
    (rest : list (string * Z)) (rp : robots RobotFileParser) (depth' : Z)
    (sl : list Q) :
  queue st = (current_url, depth) :: rest -> crawl_invariant config st ->
  0 <= depth' -> (0 <= max_depth config -> depth' <= max_depth config) ->
  crawl_invariant config
    {| queue := rest; sets := sets st; robots_parser := rp; depth_reached := depth';
       fetched := fetched st; slept := sl |}
  /\ current_url ∈ discovered (sets st) /\ (current_url ∉ fetched st)
  /\ (current_url ∉ rest.*1) /\ 0 <= depth.
Proof.
  intros Eq [Hv Hl Hq Hqd Hf Hfd Hvf Hd] Hd1 Hd2. rewrite Eq in Hq, Hqd.
  destruct (Hq current_url depth) as (H1 & H2 & H3); [by left|].
  rewrite fmap_cons in Hqd. apply NoDup_cons in Hqd as [Hnot Hqd].
  split; [|by repeat split].
  constructor; simpl; try assumption.
  - intros u d Hin. apply Hq. by right.
  - by split.
Qed.

Lemma turn_keeps (w : web) (bound : nat) (st st' : crawl_state RobotFileParser)
    (current_url : string) (depth : Z) (rest : list (string * Z)) :
  turn rfp_parse rfp_can_fetch py_float config w st current_url depth rest = Some st' ->
  queue st = (current_url, depth) :: rest ->
  crawl_invariant config st ->
  (0 < max_urls config -> Z.of_nat (size (visited (sets st))) < max_urls config) ->
  crawl_invariant config st'
  /\ (0 < max_urls config ->
      (forall html url, (length (_extract_links w html url) <= bound)%nat) ->
      (turns_left config bound st' < turns_left config bound st)%nat).
Proof.
  intros Hturn Eq Hinv Hlim. unfold turn in Hturn. cbn [queue sets robots_parser
    depth_reached fetched slept] in Hturn.
  assert (Hlen : forall st1 : crawl_state RobotFileParser,
             (turns_left config bound st1
              <= turns_left config bound
                   {| queue := rest; sets := sets st; robots_parser := robots_parser st;
                      depth_reached := depth_reached st; fetched := fetched st;
                      slept := slept st |})%nat ->
             (turns_left config bound st1 < turns_left config bound st)%nat).
  { intros st1. unfold turns_left. simpl. rewrite Eq. simpl. lia. }
  destruct ((0 <=? max_depth config) && (max_depth config <? depth)) eqn:Edepth.
  { injection Hturn as <-.
    destruct (pop_keeps st current_url depth rest (robots_parser st) (depth_reached st)
                (slept st) Eq Hinv) as [I _]; try apply Hinv.
    split; [exact I|]. intros _ _. apply Hlen. lia. }
  assert (Hd0 : 0 <= depth)
    by (destruct Hinv as [_ _ Hq _ _ _ _ _]; apply (Hq current_url depth);
        rewrite Eq; by left).
  assert (Hdr : 0 <= Z.max (depth_reached st) depth
                /\ (0 <= max_depth config ->
                    Z.max (depth_reached st) depth <= max_depth config)).
  { destruct Hinv as [_ _ _ _ _ _ _ [Hd1 Hd2]]. split; [lia|]. intros Hm.
    specialize (Hd2 Hm). apply andb_false_iff in Edepth. lia. }
  destruct Hdr as [Hdr1 Hdr2].
  assert (Hpop : forall (rp : robots RobotFileParser) (sl : list Q),
             crawl_invariant config
               {| queue := rest; sets := sets st; robots_parser := rp;
                  depth_reached := Z.max (depth_reached st) depth;
                  fetched := fetched st; slept := sl |}
             /\ current_url ∈ discovered (sets st) /\ (current_url ∉ fetched st)
             /\ (current_url ∉ rest.*1) /\ 0 <= depth).
  { intros rp sl. by apply pop_keeps. }
  destruct (bool_decide (current_url ∈ visited (sets st))) eqn:Evis.
  { injection Hturn as <-. split; [apply Hpop|]. intros _ _. apply Hlen.
    unfold turns_left. simpl. lia. }
  apply bool_decide_eq_false in Evis.
  assert (Hfollow : forall (rp : robots RobotFileParser) (sl : list Q),
             fetch_and_follow config w
               {| queue := rest; sets := sets st; robots_parser := rp;
                  depth_reached := Z.max (depth_reached st) depth;
                  fetched := fetched st; slept := sl |} current_url depth = Some st' ->
             crawl_invariant config st'
             /\ (0 < max_urls config ->
                 (forall html url, (length (_extract_links w html url) <= bound)%nat) ->
                 (turns_left config bound st' < turns_left config bound st)%nat)).
  { intros rp sl Hff. destruct (Hpop rp sl) as (I & H1 & H2 & H3 & H4).
    destruct (fetch_and_follow_keeps w bound _ _ _ _ Hff I H1 H2 H3 Evis H4 Hlim)
      as [J1 J2].
    split; [exact J1|]. intros Hpos Hbound. specialize (J2 Hpos Hbound). apply Hlen.
    unfold turns_left in J2 |- *. simpl in J2 |- *. lia. }
  destruct (respect_robots config).
  - destruct (can_fetch _ _ _ _ _ _ _) as [[[|] rp]|]; [| |discriminate].
    + destruct (apply_crawl_delay rp current_url) as [delay|]; [|discriminate].
      eapply Hfollow. exact Hturn.
    + injection Hturn as <-. split.
      * eapply crawl_invariant_ext; [..|apply (Hpop rp (slept st))]; reflexivity.
      * intros _ _. apply Hlen. unfold turns_left. simpl. lia.
  - eapply Hfollow. exact Hturn.
Qed.

Lemma crawl_loop_keeps (w : web) (fuel : nat) (st st' : crawl_state RobotFileParser)
    (ended : bool) :
  crawl_loop rfp_parse rfp_can_fetch py_float config w fuel st = Some (st', ended) ->
  crawl_invariant config st -> crawl_invariant config st'.
Proof.
  revert st. induction fuel as [|k IH]; intros st Hloop Hinv.
  - simpl in Hloop. destruct (queue st) as [|[u d] rest]; [by injection Hloop as <- _|].
    destruct (_ && _); by injection Hloop as <- _.
  - simpl in Hloop. destruct (queue st) as [|[u d] rest] eqn:Eq;
      [by injection Hloop as <- _|].
    destruct ((0 <? max_urls config)
              && (max_urls config <=? Z.of_nat (size (visited (sets st))))) eqn:Elim;
      [by injection Hloop as <- _|].
    destruct (turn _ _ _ _ _ _ _ _ _) as [st1|] eqn:Eturn; [|discriminate].
    apply (IH st1 Hloop).
    apply (turn_keeps w 0 st st1 u d rest Eturn Eq Hinv).
    intros Hpos. apply andb_false_iff in Elim. lia.
Qed.

(** with a limit on the visited URLs and a bound on the links of a page,
    the loop ends within [turns_left] turns *)
Lemma crawl_loop_ends (w : web) (bound fuel : nat) (st st' : crawl_state RobotFileParser)
    (ended : bool) :
  0 < max_urls config ->
  (forall html url, (length (_extract_links w html url) <= bound)%nat) ->
  crawl_invariant config st ->
  (turns_left config bound st <= fuel)%nat ->
  crawl_loop rfp_parse rfp_can_fetch py_float config w fuel st = Some (st', ended) ->
  ended = true.
Proof.
  intros Hpos Hbound. revert st. induction fuel as [|k IH]; intros st Hinv Hfuel Hloop.
  - simpl in Hloop. destruct (queue st) as [|[u d] rest] eqn:Eq;
      [by injection Hloop as _ <-|].
    unfold turns_left in Hfuel. rewrite Eq in Hfuel. cbn [length] in Hfuel.
    generalize dependent ((Z.to_nat (max_urls config) - size (visited (sets st))) * bound)%nat.
    intros; lia.
  - simpl in Hloop. destruct (queue st) as [|[u d] rest] eqn:Eq;
      [by injection Hloop as _ <-|].
    destruct ((0 <? max_urls config)
              && (max_urls config <=? Z.of_nat (size (visited (sets st))))) eqn:Elim;
      [by injection Hloop as _ <-|].
    destruct (turn _ _ _ _ _ _ _ _ _) as [st1|] eqn:Eturn; [|discriminate].
    destruct (turn_keeps w bound st st1 u d rest Eturn Eq Hinv) as [I1 I2].
    { intros _. apply andb_false_iff in Elim. lia. }
    specialize (I2 Hpos Hbound). apply (IH st1 I1); [lia | exact Hloop].
Qed.

(** the states in which the loop of [crawl] starts *)
Lemma crawl_start_keeps (start_url : string) (rp : robots RobotFileParser) :
  crawl_invariant config
    {| queue := [(start_url, 0)];
       sets := {| visited := ∅; discovered := {[start_url]}; failed := ∅ |};
       robots_parser := rp; depth_reached := 0; fetched := []; slept := [] |}.
Proof.
  constructor; cbn [queue sets visited discovered failed depth_reached fetched].
  - apply empty_subseteq.
  - rewrite size_empty. lia.
  - intros u d Hin. apply list_elem_of_singleton in Hin. injection Hin as -> ->.
    split; [by apply elem_of_singleton|]. split; [apply not_elem_of_nil | lia].
  - apply NoDup_singleton.
  - constructor.
  - intros u Hu. by apply not_elem_of_nil in Hu.
  - intros u Hu. by apply not_elem_of_empty in Hu.
  - split; [lia|]. auto.
Qed.

(** what a call of [crawl] comes to before its loop *)
Lemma crawl_cases (w : web) (robots0 : robots RobotFileParser) (start_url : string)
    (use_sitemap : bool) (fuel : nat) :
  crawl rfp_parse rfp_can_fetch py_float config w robots0 start_url use_sitemap fuel
  = CrawlRaised
  \/ (exists s rp,
        crawl rfp_parse rfp_can_fetch py_float config w robots0 start_url use_sitemap fuel
        = CrawlReturned
            {| BaseCrawler.start_url := s; discovered_urls := ∅; visited_urls := ∅;
               failed_urls := {[s := "Disallowed by robots.txt"]};
               max_depth_reached := 0 |}
            {| queue := [(s, 0)];
               sets := {| visited := ∅; discovered := {[s]}; failed := ∅ |};
               robots_parser := rp; depth_reached := 0; fetched := []; slept := [] |})
  \/ (exists s st0,
        crawl_invariant config st0
        /\ s ∈ discovered (sets st0)
        /\ (respect_robots config && use_sitemap = false ->
            queue st0 = [(s, 0)] /\ visited (sets st0) = ∅)
        /\ crawl rfp_parse rfp_can_fetch py_float config w robots0 start_url use_sitemap
             fuel
           = match crawl_loop rfp_parse rfp_can_fetch py_float config w fuel st0 with
             | None => CrawlRaised
             | Some (st, false) => CrawlRunning st
             | Some (st, true) =>
                 CrawlReturned
                   {| BaseCrawler.start_url := s;
                      discovered_urls := discovered (sets st);
                      visited_urls := visited (sets st);
                      failed_urls := failed (sets st);
                      max_depth_reached := depth_reached st |}
                   st
             end).
Proof.
  unfold crawl. destruct (_normalize_url start_url) as [s|]; [|by left].
  cbv zeta. cbn [queue sets].
  assert (Hplain : forall rp : robots RobotFileParser,
             let st0 := {| queue := [(s, 0)];
                           sets := {| visited := ∅; discovered := {[s]}; failed := ∅ |};
                           robots_parser := rp; depth_reached := 0; fetched := [];
                           slept := [] |} in
             (if use_sitemap && bool_decide (discovered (sets st0) = ∅)
              then add_sitemaps config w st0 (find_sitemaps w s) else st0) = st0).
  { intros rp st0. destruct use_sitemap; [|reflexivity]. simpl.
    rewrite bool_decide_eq_false_2; [reflexivity|].
    intros E. apply (not_elem_of_empty (C:=gset string) s). rewrite <- E.
    by apply elem_of_singleton. }
  destruct (respect_robots config) eqn:Erobots.
  - destruct (can_fetch _ _ _ _ _ _ _) as [[[|] rp]|]; [| |by left].
    + destruct use_sitemap.
      * destruct (get_sitemaps _ _ _ _ _) as [[sitemaps rp']|]; [|by left].
        right; right.
        destruct (add_sitemaps_keeps w sitemaps _ (crawl_start_keeps s rp')) as [I1 I2].
        assert (Hs : s ∈ discovered (sets (add_sitemaps config w
                       {| queue := [(s, 0)];
                          sets := {| visited := ∅; discovered := {[s]}; failed := ∅ |};
                          robots_parser := rp'; depth_reached := 0; fetched := [];
                          slept := [] |} sitemaps))).
        { apply (I2 s). cbn [sets discovered]. by apply elem_of_singleton. }
        eexists s, _. split; [exact I1|]. split; [exact Hs|]. split; [discriminate|].
        rewrite andb_true_l, bool_decide_eq_false_2; [reflexivity|].
        intros E. rewrite E in Hs. by apply not_elem_of_empty in Hs.
      * right; right. eexists s, _. split; [apply (crawl_start_keeps s rp)|].
        split; [cbn [sets discovered]; by apply elem_of_singleton|].
        split; [by intros _|]. reflexivity.
    + right; left. by exists s, rp.
  - right; right. rewrite Hplain. eexists s, _.
    split; [apply (crawl_start_keeps s robots0)|].
    split; [cbn [sets discovered]; by apply elem_of_singleton|].
        split; [by intros _|]. reflexivity.
Qed.

(** X28. Whatever the web answers, a result returned by the
    breadth-first [crawl] keeps the limits of the crawler: the visited
    URLs are discovered ones, they are at most [max_urls] when that limit
    is set, and the greatest depth reached is at most [max_depth] when
    that limit is set; moreover no address was passed to [_fetch_page]
    twice, and every visited URL was fetched.  A crawl still running
    satisfies the invariant of the loop. *)
Theorem bfs_crawl_keeps_its_limits (w : web) (robots0 : robots RobotFileParser)
    (start_url : string) (use_sitemap : bool) (fuel : nat) :
  match crawl rfp_parse rfp_can_fetch py_float config w robots0 start_url use_sitemap
          fuel with
  | CrawlRaised => True
  | CrawlReturned result final =>
      visited_urls result ⊆ discovered_urls result
      /\ (0 < max_urls config ->
          Z.of_nat (size (visited_urls result)) <= max_urls config)
      /\ 0 <= max_depth_reached result
      /\ (0 <= max_depth config -> max_depth_reached result <= max_depth config)
      /\ NoDup (fetched final)
      /\ (forall u, u ∈ visited_urls result -> u ∈ fetched final)
  | CrawlRunning current => crawl_invariant config current
  end.
Proof.
  destruct (crawl_cases w robots0 start_url use_sitemap fuel)
    as [-> | [(s & rp & ->) | (s & st0 & Hinv & _ & _ & ->)]].
  - exact I.
  - cbn [visited_urls discovered_urls max_depth_reached fetched].
    split; [apply empty_subseteq|]. split; [rewrite size_empty; lia|].
    split; [lia|]. split; [auto|]. split; [constructor|].
    intros u Hu. by apply not_elem_of_empty in Hu.
  - destruct (crawl_loop _ _ _ _ _ _ _) as [[st [|]]|] eqn:Eloop; [| |exact I].
    + destruct (crawl_loop_keeps w fuel st0 st true Eloop Hinv)
        as [Hv Hl _ _ Hf _ Hvf [Hd1 Hd2]].
      cbn [visited_urls discovered_urls max_depth_reached]. by repeat split.
    + exact (crawl_loop_keeps w fuel st0 st false Eloop Hinv).
Qed.

Lemma crawl_loop_same_web (w : web) (find : string -> list string) (fuel : nat)
    (st : crawl_state RobotFileParser) :
  crawl_loop rfp_parse rfp_can_fetch py_float config
    {| robots_net := robots_net w; parse_sitemap := parse_sitemap w;
       find_sitemaps := find; page := page w; _extract_links := _extract_links w |}
    fuel st
  = crawl_loop rfp_parse rfp_can_fetch py_float config w fuel st.
Proof.
  revert st. induction fuel as [|k IH]; intros st; [reflexivity|].
  cbn [crawl_loop]. destruct (queue st) as [|[u d] rest]; [reflexivity|].
  destruct (_ && _); [reflexivity|].
  change (turn rfp_parse rfp_can_fetch py_float config
            {| robots_net := robots_net w; parse_sitemap := parse_sitemap w;
               find_sitemaps := find; page := page w;
               _extract_links := _extract_links w |} st u d rest)
    with (turn rfp_parse rfp_can_fetch py_float config w st u d rest).
  destruct (turn _ _ _ _ _ _ _ _ _); [apply IH | reflexivity].
Qed.

(** X29. The breadth-first [crawl] never uses the sitemaps that
    [find_sitemaps] would find: the search is made only when no URL has
    been discovered, and the start URL has been discovered by then.  So
    the outcome of a crawl is the same whatever [find_sitemaps] answers. *)
Theorem bfs_never_searches_for_sitemaps (w : web) (find : string -> list string)
    (robots0 : robots RobotFileParser) (start_url : string) (use_sitemap : bool)
    (fuel : nat) :
  crawl rfp_parse rfp_can_fetch py_float config
    {| robots_net := robots_net w; parse_sitemap := parse_sitemap w;
       find_sitemaps := find; page := page w; _extract_links := _extract_links w |}
    robots0 start_url use_sitemap fuel
  = crawl rfp_parse rfp_can_fetch py_float config w robots0 start_url use_sitemap fuel.
Proof.
  unfold crawl. destruct (_normalize_url start_url) as [s|]; [|reflexivity].
  cbv zeta. cbn [queue sets robots_net find_sitemaps].
  assert (Hfound : forall (st : crawl_state RobotFileParser) (found : list string),
             s ∈ discovered (sets st) ->
             (if use_sitemap && bool_decide (discovered (sets st) = ∅) then found
              else []) = []).
  { intros st found Hs. destruct use_sitemap; [|reflexivity].
    rewrite andb_true_l, bool_decide_eq_false_2; [reflexivity|].
    intros E. rewrite E in Hs. by apply not_elem_of_empty in Hs. }
  assert (Hsame : forall st : crawl_state RobotFileParser,
             s ∈ discovered (sets st) ->
             (if use_sitemap && bool_decide (discovered (sets st) = ∅)
              then add_sitemaps config
                     {| robots_net := robots_net w; parse_sitemap := parse_sitemap w;
                        find_sitemaps := find; page := page w;
                        _extract_links := _extract_links w |} st (find s)
              else st)
             = (if use_sitemap && bool_decide (discovered (sets st) = ∅)
                then add_sitemaps config w st (find_sitemaps w s) else st)).
  { intros st Hs. destruct use_sitemap; [|reflexivity].
    rewrite andb_true_l, bool_decide_eq_false_2; [reflexivity|].
    intros E. rewrite E in Hs. by apply not_elem_of_empty in Hs. }
  clear Hfound.
  assert (Hstart : forall rp : robots RobotFileParser,
             s ∈ discovered (sets {| queue := [(s, 0)];
                                    sets := {| visited := ∅; discovered := {[s]};
                                               failed := ∅ |};
                                    robots_parser := rp; depth_reached := 0;
                                    fetched := []; slept := [] |})).
  { intros rp. cbn [sets discovered]. by apply elem_of_singleton. }
  destruct (respect_robots config).
  - destruct (can_fetch _ _ _ _ _ _ _) as [[[|] rp]|]; [| reflexivity | reflexivity].
    destruct use_sitemap eqn:Euse.
    + destruct (get_sitemaps _ _ _ _ _) as [[sitemaps rp']|]; [|reflexivity].
      change (@add_sitemaps RobotFileParser config
                {| robots_net := robots_net w; parse_sitemap := parse_sitemap w;
                   find_sitemaps := find; page := page w;
                   _extract_links := _extract_links w |})
        with (@add_sitemaps RobotFileParser config w).
      rewrite Hsame, crawl_loop_same_web; [reflexivity|].
      apply (add_sitemaps_keeps w sitemaps _ (crawl_start_keeps s rp')), Hstart.
    + rewrite Hsame, crawl_loop_same_web; [reflexivity | apply Hstart].
  - rewrite Hsame, crawl_loop_same_web; [reflexivity | apply Hstart].
Qed.

(** X30. With a limit on the visited URLs and no sitemaps read
    (robots.txt is not respected or [use_sitemap] is off), when no page
    yields more than [bound] links, the loop of the breadth-first [crawl]
    ends within [1 + max_urls * bound] turns: the call returns or raises. *)
Theorem bfs_crawl_ends_within_bound (w : web) (robots0 : robots RobotFileParser)
    (start_url : string) (use_sitemap : bool) (bound fuel : nat) :
  0 < max_urls config ->
  respect_robots config && use_sitemap = false ->
  (forall html url, (length (_extract_links w html url) <= bound)%nat) ->
  (1 + Z.to_nat (max_urls config) * bound <= fuel)%nat ->
  match crawl rfp_parse rfp_can_fetch py_float config w robots0 start_url use_sitemap
          fuel with
  | CrawlRunning _ => False
  | _ => True
  end.
Proof.
  intros Hpos Hoff Hbound Hfuel.
  destruct (crawl_cases w robots0 start_url use_sitemap fuel)
    as [-> | [(s & rp & ->) | (s & st0 & Hinv & _ & Hstart & ->)]]; [exact I | exact I |].
  destruct (Hstart Hoff) as [Hq Hv].
  destruct (crawl_loop _ _ _ _ _ _ _) as [[st ended]|] eqn:Eloop; [|exact I].
  rewrite (crawl_loop_ends w bound fuel st0 st ended Hpos Hbound Hinv); [exact I | | exact Eloop].
  unfold turns_left. rewrite Hq, Hv, size_empty. simpl length. lia.
Qed.

End BfsFacts.

Lemma bfs_crawl_ends_within_bound_witness :
  let config := {| BaseCrawler.respect_robots := false; BaseCrawler.max_depth := 3;
                   BaseCrawler.max_urls := 2; BaseCrawler.allowed_domains := None;
                   BaseCrawler.url_filter := None |} in
  let w := {| BFSCrawler.robots_net := fun _ => RobotsParser.Raised "unreachable";
              BFSCrawler.parse_sitemap := fun _ => [];
              BFSCrawler.find_sitemaps := fun _ => [];
              BFSCrawler.page := fun _ => BFSCrawler.PageHtml "<html></html>";
              BFSCrawler._extract_links := fun _ _ => ["http://a.example/next"] |} in
  match BFSCrawler.crawl (fun _ _ => tt) (fun _ _ _ => true) (fun _ => None) config w
          RobotsParser.new_robots "http://a.example/" true 3 with
  | BFSCrawler.CrawlRunning _ => False
  | _ => True
  end.
Proof.
  apply (bfs_crawl_ends_within_bound unit (fun _ _ => tt) (fun _ _ _ => true)
           (fun _ => None) _ _ RobotsParser.new_robots "http://a.example/" true 1 3).
  - simpl. lia.
  - reflexivity.
  - intros html url. simpl. lia.
  - simpl. lia.
Defined.
